(** * Key resolution of the show-translation editor extension

    A shallow embedding of the key-resolution engine of
    [src/unnamed/part_001] (the current revision of the extension; the
    file [src/src/extension.ts] is an earlier revision of it, and shares
    [getValueByKey] and, but for the [try] blocks and the way a failure
    is reported, the completion loop and [loadFile]):

    - [getValueByKey]              nested lookup in a parsed JSON document;
    - [buildRegexFromVariables],
      [extractKeyFromFullText]     prefix recognition;
    - [getBestKeyFromFullText]     best-key disambiguation;
    - [getFullTextAtPosition]      span extraction around the cursor;
    - the loop of [provideCompletionItems];
    - [handleJsonCacheAndWatcher]  the document store and its watchers.

    JavaScript strings are modelled by [string]; a character stands for
    one code unit.  [undefined] is modelled by [None], an exception by
    [Thrown].  What a parsed document inherits from the built-in
    objects of the run-time (the members [toString], [constructor] and
    the like, which [obj[name]] reads as well as the document's own)
    is a parameter of the development, the [Realm]. *)

From Stdlib Require Import Bool Arith Lia List ZArith NArith.
From Stdlib Require Import Ascii String DecimalString.
Import ListNotations.
Open Scope string_scope.
Open Scope list_scope.

Set Implicit Arguments.
#[local] Set Warnings "-register-all".

(* ================================================================= *)
(** ** Strings as the code uses them *)

Module Str.

(** [s.split(sep)] for a one-character separator: the segments between
    the separators, in order.  The empty string has ONE segment, the
    empty one ([ "".split(".") ] is [ [""] ]). *)
Fixpoint split (sep : ascii) (s : string) : list string :=
  match s with
  | EmptyString => [EmptyString]
  | String c s' =>
      if Ascii.eqb c sep then EmptyString :: split sep s'
      else match split sep s' with
           | seg :: rest => String c seg :: rest
           | [] => [String c EmptyString]
           end
  end.

(** [s.startsWith(p)] *)
Fixpoint startsWith (s p : string) : bool :=
  match p, s with
  | EmptyString, _ => true
  | String _ _, EmptyString => false
  | String a p', String b s' => Ascii.eqb a b && startsWith s' p'
  end.

(** [s.slice(n)] for [0 <= n] *)
Fixpoint slice (n : nat) (s : string) : string :=
  match n, s with
  | O, _ => s
  | S _, EmptyString => EmptyString
  | S n', String _ s' => slice n' s'
  end.

(** [s.charAt(i)]: the one-character string at [i], [""] out of range. *)
Definition charAt (s : string) (i : nat) : string :=
  match String.get i s with
  | Some c => String c EmptyString
  | None => EmptyString
  end.

(** [s.substring(a, b)] for [0 <= a <= b]; [b] is clamped to the length. *)
Definition substring (a b : nat) (s : string) : string :=
  String.substring a (b - a) s.

(** The decimal numeral of a natural number, as [String(i)] prints it. *)
Definition of_N (n : N) : string := NilEmpty.string_of_uint (N.to_uint n).

(** A property name that is an array index: the canonical numeral of
    a natural number ("0", "7", "10"; not "", "01" or "+1"). *)
Definition array_index (k : string) : option N :=
  match NilEmpty.uint_of_string k with
  | Some u => let n := N.of_uint u in
              if String.eqb (of_N n) k then Some n else None
  | None => None
  end.

End Str.

(* ================================================================= *)
(** ** Parsed JSON documents *)

(** What [JSON.parse] returns.  The members of an object are listed in
    the order in which [Object.keys] / [Object.entries] enumerate them;
    an object has one member per name.  Numbers are carried verbatim
    and never computed with; only the integral ones that a number
    holds exactly (below [2^53] in magnitude) are represented. *)
Inductive json : Type :=
| JNull
| JBool (b : bool)
| JNum (n : Z)
| JStr (s : string)
| JArr (items : list json)
| JObj (members : list (string * json)).

(** The record read [o[k]] on an association list. *)
Fixpoint assoc {A : Type} (k : string) (l : list (string * A)) : option A :=
  match l with
  | [] => None
  | (k', v) :: l' => if String.eqb k' k then Some v else assoc k l'
  end.

Definition keys {A : Type} (l : list (string * A)) : list string :=
  map fst l.

(** The own properties of a parsed value: an object has its members,
    an array and a string have their elements, by canonical index, and
    their ["length"]; a number and a boolean have none. *)
Definition own (node : json) (name : string) : option json :=
  match node with
  | JObj ms => assoc name ms
  | JArr xs =>
      if String.eqb name "length" then Some (JNum (Z.of_nat (List.length xs)))
      else match Str.array_index name with
           | Some i => if (i <? N.of_nat (List.length xs))%N
                       then nth_error xs (N.to_nat i) else None
           | None => None
           end
  | JStr s =>
      if String.eqb name "length" then Some (JNum (Z.of_nat (String.length s)))
      else match Str.array_index name with
           | Some i => if (i <? N.of_nat (String.length s))%N
                       then Some (JStr (Str.charAt s (N.to_nat i))) else None
           | None => None
           end
  | JNull | JBool _ | JNum _ => None
  end.

(** How an evaluation ends: with a value, or with an exception. *)
Inductive outcome (A : Type) : Type :=
| Returned (v : A)
| Thrown.

Arguments Thrown {A}.

(** [o] then [f], unless [o] threw. *)
Definition andThen {A B : Type} (o : outcome A) (f : A -> outcome B) : outcome B :=
  match o with
  | Returned v => f v
  | Thrown => Thrown
  end.

(** A value of the run-time that is not parsed data: a function, a
    prototype object, a symbol, a number that is not integral.  The
    run-time designates it by a name. *)
Definition builtin : Type := string.

(** The values a lookup can reach: parsed data (and the values of the
    same shapes the run-time hands out: [null], booleans, integral
    numbers, strings) or a built-in value. *)
Inductive value : Type :=
| Json (j : json)
| Builtin (b : builtin).

Coercion Json : json >-> value.

(** A JavaScript value as the resolver sees it: [None] is [undefined]. *)
Definition jsvalue : Type := option value.

(** The run-time the extension is loaded in, as far as the resolver
    touches it.

    - [inherited node name] is the read [node[name]] for a parsed value
      [node] (not [null]) with no own property [name]: what the value
      inherits from the prototype of its kind ([Object.prototype],
      [Array.prototype], [String.prototype], [Number.prototype],
      [Boolean.prototype]).  It is [undefined] for most names and a
      function for [toString], [constructor], [hasOwnProperty] and the
      like.
    - [builtinMember b name] is the read [b[name]] on a built-in value;
      it may throw (the accessors [caller] and [arguments] of a
      built-in function do).
    - [builtinKeys b] is [Object.keys(b)] when [typeof b === "object"],
      [None] when [b] is not an object.
    - [toText v] is the text a template literal gives for a value that
      is not a string ([null], a boolean, a number in its decimal form,
      an object through its [toString] and [valueOf]); the conversion
      of an object may throw. *)
Class Realm : Type := mkRealm {
  inherited : json -> string -> outcome jsvalue;
  builtinMember : builtin -> string -> outcome jsvalue;
  builtinKeys : builtin -> option (list string);
  toText : value -> outcome string
}.

(** [node[name]]: the own property of a parsed value when it has one,
    what it inherits otherwise.  On [null] the read is a [TypeError]. *)
Definition member {realm : Realm} (node : value) (name : string) : outcome jsvalue :=
  match node with
  | Json JNull => Thrown
  | Json j =>
      match own j name with
      | Some v => Returned (Some (Json v))
      | None => inherited j name
      end
  | Builtin b => builtinMember b name
  end.

(** [acc?.[cur]]: [undefined] when [acc] is [undefined] or [null],
    [acc[cur]] otherwise. *)
Definition opt_index {realm : Realm} (acc : jsvalue) (cur : string) : outcome jsvalue :=
  match acc with
  | None => Returned None
  | Some (Json JNull) => Returned None
  | Some node => member node cur
  end.

(** [[
function getValueByKey(obj: any, key: string): any {
  return key.split(".").reduce((acc, cur) => acc?.[cur], obj);
}
]]
    [readNext] is the callback, applied to what the evaluation so far
    gave: an exception thrown by a read ends the [reduce]. *)
Definition readNext {realm : Realm} (acc : outcome jsvalue) (cur : string)
  : outcome jsvalue :=
  andThen acc (fun node => opt_index node cur).

Definition getValueByKey {realm : Realm} (obj : value) (key : string) : outcome jsvalue :=
  fold_left readNext (Str.split "." key) (Returned (Some obj)).

(** [value !== undefined] *)
Definition defined (v : jsvalue) : bool :=
  match v with Some _ => true | None => false end.

(** [`${value}`]: a string is its own text. *)
Definition templateText {realm : Realm} (v : value) : outcome string :=
  match v with
  | Json (JStr s) => Returned s
  | _ => toText v
  end.

(* ================================================================= *)
(** ** Regular expressions *)

(** The fragment of JavaScript's patterns the code uses: literal
    characters, classes, alternation, sequence and iteration.  Matching
    is by derivatives; [test] is [RegExp.prototype.test] of a pattern
    without flags: is there a match starting anywhere in the text. *)
Module Regex.

Inductive regex : Type :=
| Never
| Eps
| Chr (c : ascii)
| Class (p : ascii -> bool)
| Cat (r1 r2 : regex)
| Alt (r1 r2 : regex)
| Star (r : regex).

(** [r+] *)
Definition Plus (r : regex) : regex := Cat r (Star r).

(** A literal text (each character escaped). *)
Fixpoint lit (s : string) : regex :=
  match s with
  | EmptyString => Eps
  | String c s' => Cat (Chr c) (lit s')
  end.

Fixpoint nullable (r : regex) : bool :=
  match r with
  | Never | Chr _ | Class _ => false
  | Eps | Star _ => true
  | Cat r1 r2 => nullable r1 && nullable r2
  | Alt r1 r2 => nullable r1 || nullable r2
  end.

Fixpoint deriv (a : ascii) (r : regex) : regex :=
  match r with
  | Never | Eps => Never
  | Chr c => if Ascii.eqb c a then Eps else Never
  | Class p => if p a then Eps else Never
  | Cat r1 r2 =>
      if nullable r1 then Alt (Cat (deriv a r1) r2) (deriv a r2)
      else Cat (deriv a r1) r2
  | Alt r1 r2 => Alt (deriv a r1) (deriv a r2)
  | Star r1 => Cat (deriv a r1) (Star r1)
  end.

(** Does [r] match a prefix of [s]? *)
Fixpoint matchesAtStart (r : regex) (s : string) : bool :=
  nullable r ||
  match s with
  | EmptyString => false
  | String a s' => matchesAtStart (deriv a r) s'
  end.

(** [r.test(s)] *)
Fixpoint test (r : regex) (s : string) : bool :=
  matchesAtStart r s ||
  match s with
  | EmptyString => false
  | String _ s' => test r s'
  end.

(** The language of a pattern, for stating what [test] decides. *)
Inductive matches : regex -> string -> Prop :=
| MEps : matches Eps ""
| MChr c : matches (Chr c) (String c "")
| MClass (p : ascii -> bool) c : p c = true -> matches (Class p) (String c "")
| MCat r1 r2 s1 s2 : matches r1 s1 -> matches r2 s2 -> matches (Cat r1 r2) (s1 ++ s2)
| MAltL r1 r2 s : matches r1 s -> matches (Alt r1 r2) s
| MAltR r1 r2 s : matches r2 s -> matches (Alt r1 r2) s
| MStar0 r : matches (Star r) ""
| MStarS r s1 s2 : matches r s1 -> matches (Star r) s2 -> matches (Star r) (s1 ++ s2).

End Regex.

(* ================================================================= *)
(** ** Character classes *)

Definition in_range (lo hi c : ascii) : bool :=
  Nat.leb (nat_of_ascii lo) (nat_of_ascii c)
  && Nat.leb (nat_of_ascii c) (nat_of_ascii hi).

(** [[a-zA-Z0-9_]] *)
Definition word_char (c : ascii) : bool :=
  in_range "a" "z" c || in_range "A" "Z" c || in_range "0" "9" c
  || Ascii.eqb c "_".

(** [[a-zA-Z0-9_.]] *)
Definition allowed_char (c : ascii) : bool :=
  word_char c || Ascii.eqb c ".".

(** The double quote, character 34. *)
Definition dquote : ascii := ascii_of_nat 34.

(** The class of the two quote characters, single and double. *)
Definition quote_char (c : ascii) : bool :=
  Ascii.eqb c "'" || Ascii.eqb c dquote.

(* ================================================================= *)
(** ** Prefix recognition *)

(** [[
function buildRegexFromVariables(vars: string[]): RegExp {
  const escaped = vars.map((v) => v.replace(/[.*+?^${}()|[\]\\]/g, "\\$&"));
  return new RegExp(`(?:${escaped.join("|")})(\\.[a-zA-Z0-9_]+)*`);
}
]]
    Every character with a meaning in a pattern is escaped, so each
    variable name stands for itself; joining no name at all leaves the
    empty pattern. *)
Fixpoint alternatives (vars : list string) : Regex.regex :=
  match vars with
  | [] => Regex.Eps
  | [v] => Regex.lit v
  | v :: rest => Regex.Alt (Regex.lit v) (alternatives rest)
  end.

Definition buildRegexFromVariables (vars : list string) : Regex.regex :=
  Regex.Cat (alternatives vars)
    (Regex.Star (Regex.Cat (Regex.Chr ".") (Regex.Plus (Regex.Class word_char)))).

(** [raw.replace(/^\./, "")] *)
Definition stripLeadingDot (raw : string) : string :=
  match raw with
  | String "." rest => rest
  | _ => raw
  end.

(** The [for (const prefix of currentConfig.matchStrings)] loop of
    [extractKeyFromFullText], with its [return]. *)
Fixpoint firstPrefixKey (fullText : string) (prefixes : list string) : option string :=
  match prefixes with
  | [] => None
  | prefix :: rest =>
      if String.eqb fullText prefix || Str.startsWith fullText (prefix ++ ".")
      then Some (stripLeadingDot (Str.slice (String.length prefix) fullText))
      else firstPrefixKey fullText rest
  end.

(** [[
function extractKeyFromFullText(fullText: string): string | null {
  if (!fullText) return null;
  const regex = buildRegexFromVariables(currentConfig.matchStrings);
  if (!regex.test(fullText)) return null;
  for (const prefix of currentConfig.matchStrings) {
    if (fullText === prefix || fullText.startsWith(`${prefix}.`)) {
      const raw = fullText.slice(prefix.length);
      return raw.replace(/^\./, "");
    }
  }
  return null;
}
]]
    [currentConfig.matchStrings] is passed as [matchStrings]. *)
Definition extractKeyFromFullText (matchStrings : list string) (fullText : string)
  : option string :=
  if String.eqb fullText "" then None
  else if negb (Regex.test (buildRegexFromVariables matchStrings) fullText) then None
  else firstPrefixKey fullText matchStrings.

(** The built-in prefixes of the two revisions. *)
Definition defaultMatchStrings : list string :=
  ["this._translate"; "_translate"; "translate"; "trans"].

Definition defaultVariableNames : list string :=
  ["this._translate"; "_translate"].

(* ================================================================= *)
(** ** Best-key disambiguation *)

Definition stripLeadingQuote (s : string) : string :=
  match s with
  | String c rest => if quote_char c then rest else s
  | EmptyString => s
  end.

Fixpoint stripTrailingQuote (s : string) : string :=
  match s with
  | EmptyString => EmptyString
  | String c EmptyString => if quote_char c then EmptyString else s
  | String c rest => String c (stripTrailingQuote rest)
  end.

(** [fullText.replace(/^['"]|['"]$/g, "")]: with the [g] flag every
    match is removed, and the pattern can match at the first character
    and at the last one. *)
Definition stripQuotes (fullText : string) : string :=
  stripTrailingQuote (stripLeadingQuote fullText).

(** [candidates.includes(x)] *)
Definition includes (candidates : list string) (x : string) : bool :=
  existsb (String.eqb x) candidates.

(** The inner loop [for (const jsonData of Object.values(allJson))] for
    one candidate: [Some candidate] is the [return candidate]; the
    [catch] goes on with the next tree. *)
Fixpoint firstTreeWith {realm : Realm} (candidate : string) (trees : list json)
  : option string :=
  match trees with
  | [] => None
  | jsonData :: rest =>
      match getValueByKey jsonData candidate with
      | Returned value =>
          if defined value then Some candidate else firstTreeWith candidate rest
      | Thrown => firstTreeWith candidate rest
      end
  end.

(** The outer loop [for (const candidate of candidates)]. *)
Fixpoint firstCandidate {realm : Realm} (candidates : list string) (trees : list json)
  : option string :=
  match candidates with
  | [] => None
  | candidate :: rest =>
      match firstTreeWith candidate trees with
      | Some key => Some key
      | None => firstCandidate rest trees
      end
  end.

(** The candidate list built by [getBestKeyFromFullText] from the
    cleaned text: the stripped key when it is truthy (not [null], not
    empty), then the cleaned text unless it is already listed. *)
Definition candidatesOf (matchStrings : list string) (cleaned : string) : list string :=
  let candidates :=
    match extractKeyFromFullText matchStrings cleaned with
    | Some stripped => if String.eqb stripped "" then [] else [stripped]
    | None => []
    end in
  if includes candidates cleaned then candidates else candidates ++ [cleaned].

(** [Object.values(allJson)] *)
Definition values {A : Type} (l : list (string * A)) : list A := map snd l.

(** [[
function getBestKeyFromFullText(fullText, allJson): string | null {
  if (!fullText) return null;
  const cleaned = fullText.replace(/^['"]|['"]$/g, "");
  if (!cleaned) return null;
  const candidates: string[] = [];
  const stripped = extractKeyFromFullText(cleaned);
  if (stripped) { candidates.push(stripped); }
  if (!candidates.includes(cleaned)) { candidates.push(cleaned); }
  for (const candidate of candidates) {
    for (const jsonData of Object.values(allJson)) {
      try {
        const value = getValueByKey(jsonData, candidate);
        if (value !== undefined) { return candidate; }
      } catch { }
    }
  }
  return null;
}
]] *)
Definition getBestKeyFromFullText {realm : Realm} (matchStrings : list string)
    (fullText : string) (allJson : list (string * json)) : option string :=
  if String.eqb fullText "" then None
  else
    let cleaned := stripQuotes fullText in
    if String.eqb cleaned "" then None
    else firstCandidate (candidatesOf matchStrings cleaned) (values allJson).

(* ================================================================= *)
(** ** Span extraction *)

(** [const isAllowed = (ch) => /[a-zA-Z0-9_.]/.test(ch)] *)
Definition isAllowed (ch : string) : bool :=
  Regex.test (Regex.Class allowed_char) ch.

(** [while (start > 0 && isAllowed(lineText.charAt(start - 1))) start--] *)
Fixpoint scanLeft (lineText : string) (start : nat) : nat :=
  match start with
  | O => O
  | S before =>
      if isAllowed (Str.charAt lineText before) then scanLeft lineText before
      else start
  end.

(** [while (end < lineText.length && isAllowed(lineText.charAt(end))) end++],
    at most [fuel] iterations. *)
Fixpoint scanRight (fuel : nat) (lineText : string) (end_ : nat) : nat :=
  match fuel with
  | O => end_
  | S fuel' =>
      if Nat.ltb end_ (String.length lineText) && isAllowed (Str.charAt lineText end_)
      then scanRight fuel' lineText (S end_)
      else end_
  end.

(** [[
function getFullTextAtPosition(document, position): string | null {
  const lineText = document.lineAt(position.line).text;
  if (!lineText) return null;
  const isAllowed = (ch: string): boolean => /[a-zA-Z0-9_.]/.test(ch);
  let start = position.character;
  if (start > 0) start--;
  while (start > 0 && isAllowed(lineText.charAt(start - 1))) { start--; }
  let end = position.character;
  while (end < lineText.length && isAllowed(lineText.charAt(end))) { end++; }
  if (start === end) return null;
  return lineText.substring(start, end);
}
]]
    The document line is passed as [lineText], [position.character] as
    [character].  The right scan never needs more iterations than the
    line has characters. *)
Definition getFullTextAtPosition (lineText : string) (character : nat) : option string :=
  if String.eqb lineText "" then None
  else
    let start := scanLeft lineText (Nat.pred character) in
    let end_ := scanRight (String.length lineText) lineText character in
    if Nat.eqb start end_ then None
    else Some (Str.substring start end_ lineText).

(* ================================================================= *)
(** ** Records *)

(** [set.has(k)] *)
Definition has (l : list string) (k : string) : bool := existsb (String.eqb k) l.

(** [map.set(k, v)] on a [Map] kept in enumeration order: an existing
    key keeps its place, a new one goes last. *)
Fixpoint set {A : Type} (k : string) (v : A) (l : list (string * A)) : list (string * A) :=
  match l with
  | [] => [(k, v)]
  | (k', v') :: rest =>
      if String.eqb k' k then (k, v) :: rest else (k', v') :: set k v rest
  end.

(** A property name that is an array index: a canonical numeral below
    [2^32 - 1]. *)
Definition arrayIndex (k : string) : option N :=
  match Str.array_index k with
  | Some n => if (n <? 4294967295)%N then Some n else None
  | None => None
  end.

(** The place of a new property [k] among the properties of a plain
    object, which are enumerated with the array indices first, in
    ascending order, and the other names after them in the order of
    their creation: is [k] enumerated before [k'] ? *)
Definition enumeratedBefore (k k' : string) : bool :=
  match arrayIndex k, arrayIndex k' with
  | Some n, Some n' => (n <? n')%N
  | Some _, None => true
  | None, _ => false
  end.

Fixpoint insertNew {A : Type} (k : string) (v : A) (l : list (string * A))
  : list (string * A) :=
  match l with
  | [] => [(k, v)]
  | (k', v') :: rest =>
      if enumeratedBefore k k' then (k, v) :: l else (k', v') :: insertNew k v rest
  end.

(** The property [k] of a plain object, kept in enumeration order, is
    given the value [v]: an existing property keeps its place, a new
    one is put where the engine enumerates it. *)
Definition addProperty {A : Type} (k : string) (v : A) (l : list (string * A))
  : list (string * A) :=
  if has (keys l) k then set k v l else insertNew k v l.

(** [obj[k] = v] on a plain object.  The name [__proto__] is no
    property of the object: assigning to it replaces the prototype and
    leaves the properties as they are. *)
Definition assign {A : Type} (k : string) (v : A) (l : list (string * A))
  : list (string * A) :=
  if String.eqb k "__proto__" then l else addProperty k v l.

(** [delete obj[k]] *)
Fixpoint remove {A : Type} (k : string) (l : list (string * A)) : list (string * A) :=
  match l with
  | [] => []
  | (k', v') :: rest =>
      if String.eqb k' k then remove k rest else (k', v') :: remove k rest
  end.

(** [currentConfig]: the three fields of [ConfigInterface]. *)
Record Config : Type := mkConfig {
  matchStrings : list string;
  workInFiles : list string;
  paths : list string
}.

Definition defaultLanguages : list string := ["javascript"; "typescript"; "html"].

(* ================================================================= *)
(** ** Completion *)

(** The fields of a [vscode.CompletionItem] the provider sets;
    [documentation] is [None] until a first line is written. *)
Record CompletionItem : Type := mkItem {
  label : string;
  detail : string;
  documentation : option string
}.

(** The state of the two loops: [keySet] and [suggestionMap]. *)
Record Suggestions : Type := mkSuggestions {
  keySet : list string;
  suggestionMap : list (string * CompletionItem)
}.

Definition newline : string := String (ascii_of_nat 10) EmptyString.

(** The documentation line of one language: a Markdown list item with
    the language in bold, then the value. *)
Definition docLine (lang value : string) : string :=
  ("- **" ++ lang ++ "**: " ++ value ++ newline)%string.

(** [item.documentation = new MarkdownString(prevDoc + line)] on the
    item stored under [childKey]. *)
Fixpoint appendDoc (childKey line : string) (m : list (string * CompletionItem))
  : list (string * CompletionItem) :=
  match m with
  | [] => []
  | (k, item) :: rest =>
      if String.eqb k childKey then
        let prevDoc := match documentation item with Some d => d | None => "" end in
        (k, mkItem (label item) (detail item) (Some (prevDoc ++ line)%string)) :: rest
      else (k, item) :: appendDoc childKey line rest
  end.

(** [fullKeyIsRoot ? childKey : `${keyPrefix}.${childKey}`] *)
Definition fullKeyOf (keyPrefix childKey : string) : string :=
  if String.eqb keyPrefix "" then childKey else (keyPrefix ++ "." ++ childKey)%string.

(** [value && typeof value === "string"]: a non-empty string. *)
Definition truthyString (v : jsvalue) : option string :=
  match v with
  | Some (Json (JStr s)) => if String.eqb s "" then None else Some s
  | _ => None
  end.

(** The first half of the body of [for (const childKey of Object.keys(node))]:
    a key not seen yet gets its item. *)
Definition addItem (st : Suggestions) (childKey : string) : Suggestions :=
  if has (keySet st) childKey then st
  else mkSuggestions (keySet st ++ [childKey])
         (set childKey (mkItem childKey childKey None) (suggestionMap st)).

(** The second half: the line of the language, when the value is a
    non-empty string. *)
Definition addLine (lang childKey : string) (value : jsvalue) (st : Suggestions)
  : Suggestions :=
  match truthyString value with
  | Some text =>
      mkSuggestions (keySet st) (appendDoc childKey (docLine lang text) (suggestionMap st))
  | None => st
  end.

(** The loop [for (const childKey of Object.keys(node))] inside the
    [try] of one language: when the lookup of a child throws, the
    [catch] leaves the loop, and the children after it are not
    visited. *)
Fixpoint visitChildren {realm : Realm} (lang : string) (jsonData : json)
    (keyPrefix : string) (children : list string) (st : Suggestions) : Suggestions :=
  match children with
  | [] => st
  | childKey :: rest =>
      let st1 := addItem st childKey in
      match getValueByKey jsonData (fullKeyOf keyPrefix childKey) with
      | Returned value =>
          visitChildren lang jsonData keyPrefix rest (addLine lang childKey value st1)
      | Thrown => st1
      end
  end.

(** The numerals [0 .. n-1], the keys of an array of [n] items. *)
Fixpoint indices (n : nat) : list string :=
  match n with
  | O => []
  | S n' => indices n' ++ [Str.of_N (N.of_nat n')]
  end.

(** [Object.keys(node)] when [typeof node === "object" && node !== null]
    (an object or an array, parsed or built in), no key otherwise, and
    none when the lookup of the node threw. *)
Definition childKeys {realm : Realm} (node : outcome jsvalue) : list string :=
  match node with
  | Returned (Some (Json (JObj ms))) => keys ms
  | Returned (Some (Json (JArr xs))) => indices (List.length xs)
  | Returned (Some (Builtin b)) =>
      match builtinKeys b with
      | Some names => names
      | None => []
      end
  | _ => []
  end.

(** [fullKeyIsRoot ? jsonData : getValueByKey(jsonData, keyPrefix)] *)
Definition nodeAt {realm : Realm} (keyPrefix : string) (jsonData : json)
  : outcome jsvalue :=
  if String.eqb keyPrefix "" then Returned (Some (Json jsonData))
  else getValueByKey jsonData keyPrefix.

(** The body of [for (const [lang, jsonData] of Object.entries(allJson))]. *)
Definition visitLanguage {realm : Realm} (keyPrefix : string) (st : Suggestions)
    (entry : string * json) : Suggestions :=
  let (lang, jsonData) := entry in
  visitChildren lang jsonData keyPrefix (childKeys (nodeAt keyPrefix jsonData)) st.

(** The two loops of [provideCompletionItems] and its result,
    [Array.from(suggestionMap.values())]. *)
Definition completionItems {realm : Realm} (keyPrefix : string)
    (allJson : list (string * json)) : list CompletionItem :=
  values (suggestionMap
            (fold_left (visitLanguage keyPrefix) allJson (mkSuggestions [] []))).

(** [[
provideCompletionItems(document, position, _token, _context) {
  try {
    if (!currentConfig.workInFiles.includes(document.languageId)) return;
    const posForWord = position.character > 0
        ? new vscode.Position(position.line, position.character - 1) : position;
    const fullMatch = getFullTextAtPosition(document, posForWord);
    if (!fullMatch) return;
    const keyPrefix = extractKeyFromFullText(fullMatch);
    if (keyPrefix === null) return;
    ... the two loops ...
    return Array.from(suggestionMap.values());
  } catch (e) { ...; return []; }
}
]]
    [None] is the bare [return].  Outside the [try] of a language
    nothing of what is modelled throws, so the outer [catch] has no
    case. *)
Definition provideCompletionItems {realm : Realm} (config : Config)
    (languageId lineText : string) (character : nat) (allJson : list (string * json))
  : option (list CompletionItem) :=
  if negb (includes (workInFiles config) languageId) then None
  else
    let posForWord := Nat.pred character in
    match getFullTextAtPosition lineText posForWord with
    | None => None
    | Some fullMatch =>
        if String.eqb fullMatch "" then None
        else match extractKeyFromFullText (matchStrings config) fullMatch with
             | None => None
             | Some keyPrefix => Some (completionItems keyPrefix allJson)
             end
    end.

(** One block of the hover: the language in bold, the text of the
    value, a rule. *)
Definition hoverBlock (lang text : string) : string :=
  ("**" ++ lang ++ "**: " ++ text ++ newline ++ newline
        ++ "---" ++ newline ++ newline)%string.

(** The values every language has for a key: the loop shared by the
    hover and the definition providers, which keep the languages whose
    [getValueByKey] returns something other than [undefined] and skip,
    in their [catch], those whose lookup throws. *)
Fixpoint valuesByLanguage {realm : Realm} (key : string) (allJson : list (string * json))
  : list (string * value) :=
  match allJson with
  | [] => []
  | (lang, jsonData) :: rest =>
      match getValueByKey jsonData key with
      | Returned (Some value) => (lang, value) :: valuesByLanguage key rest
      | _ => valuesByLanguage key rest
      end
  end.

(* ================================================================= *)
(** ** The document store *)

(** The contents of the disk at one moment: what
    [fs.readFileSync(fullPath, "utf-8")] returns, [None] when it throws. *)
Definition FileSystem : Type := string -> option string.

(** What a watcher's callbacks captured when it was created. *)
Record Watcher : Type := mkWatcher {
  watchedRelativePath : string;
  watchedFullPath : string;
  watchedLabel : string
}.

(** The module-level state: [jsonCache], [jsonWatchers] (the watchers
    not yet disposed), [jsonPathLabels], and the failures reported, one
    per failed load (the relative path it names): the current revision
    writes them with [console.error], the earlier one shows them with
    [vscode.window.showWarningMessage]. *)
Record Store : Type := mkStore {
  jsonCache : list (string * json);
  jsonWatchers : list (string * Watcher);
  jsonPathLabels : list (string * string);
  console : list string
}.

Definition emptyStore : Store := mkStore [] [] [] [].

(** [getAllCachedJson()] *)
Definition getAllCachedJson (s : Store) : list (string * json) := jsonCache s.

(** The state during one call of [handleJsonCacheAndWatcher]. *)
Record Pass : Type := mkPass {
  store : Store;
  newFullPaths : list string;
  newLabels : list (string * string)
}.

Section DocumentStore.

(** [path.resolve(root, relativePath)] and
    [path.basename(fullPath, ".json")] of Node's [path] module, and
    [JSON.parse] ([None] when it throws).  What [path.resolve] returns
    is an absolute path, which is not the name of anything a plain
    object inherits: in the records whose names are full paths,
    [jsonWatchers], [jsonPathLabels] and [newLabels], a read finds the
    record's own property or nothing, and an assignment defines the
    property. *)
Variable resolve : string -> string.
Variable basename : string -> string.
Variable parse : string -> option json.

(** The [try] part of [loadFile]: the parsed document, [None] when
    [readFileSync] or [JSON.parse] throws. *)
Definition readJson (fs : FileSystem) (fullPath : string) : option json :=
  match fs fullPath with
  | Some raw => parse raw
  | None => None
  end.

(** [[
const loadFile = () => {
  try {
    const raw = fs.readFileSync(fullPath, "utf-8");
    jsonCache[label] = JSON.parse(raw);
  } catch (e: any) {
    console.error(`[${packageId}] Error reading ${relativePath}:`, e.message);
    jsonCache[label] = {};
  }
};
]] *)
Definition loadFile (fs : FileSystem) (relativePath fullPath label : string)
    (s : Store) : Store :=
  match readJson fs fullPath with
  | Some document =>
      mkStore (assign label document (jsonCache s))
              (jsonWatchers s) (jsonPathLabels s) (console s)
  | None =>
      mkStore (assign label (JObj []) (jsonCache s))
              (jsonWatchers s) (jsonPathLabels s) (console s ++ [relativePath])
  end.

(** The body of [for (const relativePath of configPaths)]. *)
Definition trackPath (fs : FileSystem) (acc : Pass) (relativePath : string) : Pass :=
  let fullPath := resolve relativePath in
  let label := basename fullPath in
  let s1 := loadFile fs relativePath fullPath label (store acc) in
  let s2 :=
    match assoc fullPath (jsonWatchers s1) with
    | Some _ => s1
    | None =>
        mkStore (jsonCache s1)
                (addProperty fullPath (mkWatcher relativePath fullPath label) (jsonWatchers s1))
                (jsonPathLabels s1) (console s1)
    end in
  mkPass s2 (newFullPaths acc ++ [fullPath]) (addProperty fullPath label (newLabels acc)).

(** The body of [for (const [fullPath, watcher] of Object.entries(jsonWatchers))]:
    a watcher whose path is no longer configured is disposed, and the
    label recorded for the path, when there is one and it is not empty,
    leaves the cache. *)
Definition evictPath (newPaths : list string) (s : Store)
    (entry : string * Watcher) : Store :=
  let fullPath := fst entry in
  if has newPaths fullPath then s
  else
    let cache :=
      match assoc fullPath (jsonPathLabels s) with
      | Some label => if String.eqb label "" then jsonCache s
                      else remove label (jsonCache s)
      | None => jsonCache s
      end in
    mkStore cache (remove fullPath (jsonWatchers s))
            (remove fullPath (jsonPathLabels s)) (console s).

(** [[
function handleJsonCacheAndWatcher(configPaths, context) {
  const newFullPaths = new Set<string>();
  const newLabels: Record<string, string> = {};
  for (const relativePath of configPaths) {
    const fullPath = path.resolve(root, relativePath);
    const label = path.basename(fullPath, ".json");
    newFullPaths.add(fullPath);
    newLabels[fullPath] = label;
    loadFile();
    if (!jsonWatchers[fullPath]) { ...; jsonWatchers[fullPath] = watcher; }
  }
  for (const [fullPath, watcher] of Object.entries(jsonWatchers)) {
    if (!newFullPaths.has(fullPath)) {
      watcher.dispose();
      delete jsonWatchers[fullPath];
      const label = jsonPathLabels[fullPath];
      if (label) { delete jsonCache[label]; }
      delete jsonPathLabels[fullPath];
    }
  }
  jsonPathLabels = newLabels;
}
]] *)
Definition handleJsonCacheAndWatcher (fs : FileSystem) (configPaths : list string)
    (s : Store) : Store :=
  let loaded := fold_left (trackPath fs) configPaths (mkPass s [] []) in
  let s1 := store loaded in
  let s2 := fold_left (evictPath (newFullPaths loaded)) (jsonWatchers s1) s1 in
  mkStore (jsonCache s2) (jsonWatchers s2) (newLabels loaded) (console s2).

(** What happens to the store: the configuration is (re)read, or a
    watched file changes, is created or is deleted. *)
Inductive event : Type :=
| Configure (fs : FileSystem) (configPaths : list string)
| FileChanged (fs : FileSystem) (fullPath : string)
| FileCreated (fs : FileSystem) (fullPath : string)
| FileDeleted (fullPath : string).

(** [watcher.onDidChange(loadFile)], [watcher.onDidCreate(loadFile)] and
    [watcher.onDidDelete(() => { jsonCache[label] = {}; })]: only a
    watcher that has not been disposed fires. *)
Definition step (s : Store) (e : event) : Store :=
  match e with
  | Configure fs configPaths => handleJsonCacheAndWatcher fs configPaths s
  | FileChanged fs fullPath | FileCreated fs fullPath =>
      match assoc fullPath (jsonWatchers s) with
      | Some w => loadFile fs (watchedRelativePath w) (watchedFullPath w) (watchedLabel w) s
      | None => s
      end
  | FileDeleted fullPath =>
      match assoc fullPath (jsonWatchers s) with
      | Some w => mkStore (assign (watchedLabel w) (JObj []) (jsonCache s))
                          (jsonWatchers s) (jsonPathLabels s) (console s)
      | None => s
      end
  end.

Definition run (s : Store) (events : list event) : Store :=
  fold_left step events s.

(** The earlier revision ([src/src/extension.ts]) of
    [handleJsonCacheAndWatcher]: the first loop only, with no record of
    labels and no eviction.  Its [loadFile] differs from the current
    one in how a failure is reported only (a warning message instead of
    a console line), which the record [console] stands for. *)
Definition legacyHandleJsonCacheAndWatcher (fs : FileSystem)
    (configPaths : list string) (s : Store) : Store :=
  store (fold_left (trackPath fs) configPaths (mkPass s [] [])).

(** The full paths and the labels of a configuration. *)
Definition fullPathsOf (configPaths : list string) : list string :=
  map resolve configPaths.

Definition labelsOf (configPaths : list string) : list string :=
  map basename (fullPathsOf configPaths).

(** The document the store holds for a path after a (re)load. *)
Definition loadedDocument (fs : FileSystem) (fullPath : string) : json :=
  match readJson fs fullPath with
  | Some document => document
  | None => JObj []
  end.

End DocumentStore.

(* ================================================================= *)
(** ** Notions used to state and to prove the properties *)


(** The text is the prefix itself, or the prefix, a dot and a rest. *)
Definition recognizes (prefix fullText : string) : Prop :=
  fullText = prefix \/ exists rest, fullText = (prefix ++ "." ++ rest)%string.

(** The first and the last character of a text are quotes. *)
Definition startsWithQuote (s : string) : bool :=
  match s with
  | String c _ => quote_char c
  | EmptyString => false
  end.

Fixpoint endsWithQuote (s : string) : bool :=
  match s with
  | EmptyString => false
  | String c EmptyString => quote_char c
  | String _ rest => endsWithQuote rest
  end.


(** The lookup of [child] in what the lookup of [parent] gave. *)
Definition lookupIn {realm : Realm} (parent : outcome jsvalue) (child : string)
  : outcome jsvalue :=
  match parent with
  | Returned (Some node) => getValueByKey node child
  | Returned None => Returned None
  | Thrown => Thrown
  end.

(** A lookup has a value: it returns, and not [undefined]. *)
Definition hasValue (o : outcome jsvalue) : bool :=
  match o with
  | Returned v => defined v
  | Thrown => false
  end.

(** A key exists in a document set: its lookup has a value in at least
    one of the trees. *)
Definition existsIn {realm : Realm} (trees : list json) (key : string) : bool :=
  existsb (fun jsonData : json => hasValue (getValueByKey jsonData key)) trees.

(** Best-key disambiguation in the specification's words: candidate A
    is the extracted key whenever extraction succeeds, candidate B is
    the trimmed span, always; duplicates are dropped; the first
    candidate that exists in some tree is returned. *)
Definition specCandidates (matchStrings : list string) (span : string) : list string :=
  let trimmed := stripQuotes span in
  let a := match extractKeyFromFullText matchStrings trimmed with
           | Some key => [key]
           | None => []
           end in
  if includes a trimmed then a else a ++ [trimmed].

Definition resolveBestKeySpec {realm : Realm} (matchStrings : list string) (span : string)
    (allJson : list (string * json)) : option string :=
  find (existsIn (values allJson)) (specCandidates matchStrings span).

(** The candidates the code tries: the extracted key when extraction
    succeeds with a non-empty key, then the trimmed span. *)
Definition triedCandidates (matchStrings : list string) (trimmed : string) : list string :=
  match extractKeyFromFullText matchStrings trimmed with
  | Some key => if String.eqb key "" then [trimmed] else [key; trimmed]
  | None => [trimmed]
  end.

(** The distinct members of a list, in first-seen order. *)
Fixpoint distinct (l : list string) : list string :=
  match l with
  | [] => []
  | x :: rest => x :: filter (fun y => negb (String.eqb y x)) (distinct rest)
  end.

Definition joinLines (lines : list string) : string :=
  fold_right String.append "" lines.

Definition docOf (lines : list string) : option string :=
  match lines with
  | [] => None
  | _ => Some (joinLines lines)
  end.

(** The child keys the loop of a language visits: the keys of the
    language's node, up to and including the first one whose lookup
    throws. *)
Fixpoint upToThrow (lookup : string -> outcome jsvalue) (children : list string)
  : list string :=
  match children with
  | [] => []
  | childKey :: rest =>
      match lookup childKey with
      | Returned _ => childKey :: upToThrow lookup rest
      | Thrown => [childKey]
      end
  end.

Definition visitedKeys {realm : Realm} (keyPrefix : string) (jsonData : json)
  : list string :=
  upToThrow (fun childKey => getValueByKey jsonData (fullKeyOf keyPrefix childKey))
            (childKeys (nodeAt keyPrefix jsonData)).

(** The text a lookup gives for the documentation: a non-empty string. *)
Definition textOf (o : outcome jsvalue) : option string :=
  match o with
  | Returned v => truthyString v
  | Thrown => None
  end.

(** The documentation line a language contributes to a child key: one
    line when the key is visited in the language and its lookup is a
    non-empty string, none otherwise. *)
Definition lineOf {realm : Realm} (keyPrefix childKey : string) (entry : string * json)
  : list string :=
  if has (visitedKeys keyPrefix (snd entry)) childKey then
    match textOf (getValueByKey (snd entry) (fullKeyOf keyPrefix childKey)) with
    | Some text => [docLine (fst entry) text]
    | None => []
    end
  else [].

Definition documentationOf {realm : Realm} (keyPrefix : string)
    (allJson : list (string * json)) (childKey : string) : option string :=
  docOf (flat_map (lineOf keyPrefix childKey) allJson).

(** The child keys visited in every language, in traversal order. *)
Definition allChildKeys {realm : Realm} (keyPrefix : string)
    (allJson : list (string * json)) : list string :=
  flat_map (fun entry => visitedKeys keyPrefix (snd entry)) allJson.

(** The suggestions, said at once: one item per distinct child key, in
    first-seen order, with the lines of the languages. *)
Definition specItems {realm : Realm} (keyPrefix : string) (allJson : list (string * json))
  : list CompletionItem :=
  map (fun childKey => mkItem childKey childKey (documentationOf keyPrefix allJson childKey))
      (distinct (allChildKeys keyPrefix allJson)).

(** The blocks of a hover: one per language in which the key has a
    value whose text can be taken, in the order of the languages. *)
Definition renderedBlocks {realm : Realm} (key : string) (allJson : list (string * json))
  : list string :=
  flat_map (fun lv : string * value =>
              match templateText (snd lv) with
              | Returned text => [hoverBlock (fst lv) text]
              | Thrown => []
              end)
           (valuesByLanguage key allJson).

(** A scalar leaf: a string, a number or a boolean. *)
Definition scalarLeaf (o : outcome jsvalue) : bool :=
  match o with
  | Returned (Some (Json (JStr _)))
  | Returned (Some (Json (JNum _)))
  | Returned (Some (Json (JBool _))) => true
  | _ => false
  end.

(** The two loops of the completion provider seen as one pass over
    (child key, line to add) pairs. *)
Definition visit (st : Suggestions) (e : string * option string) : Suggestions :=
  let st1 :=
    if has (keySet st) (fst e) then st
    else mkSuggestions (keySet st ++ [fst e])
           (set (fst e) (mkItem (fst e) (fst e) None) (suggestionMap st)) in
  match snd e with
  | Some line => mkSuggestions (keySet st1) (appendDoc (fst e) line (suggestionMap st1))
  | None => st1
  end.

Definition eventOf {realm : Realm} (keyPrefix : string) (entry : string * json)
    (childKey : string) : string * option string :=
  (childKey,
   option_map (docLine (fst entry))
     (textOf (getValueByKey (snd entry) (fullKeyOf keyPrefix childKey)))).

Definition eventsOf {realm : Realm} (keyPrefix : string) (entry : string * json)
  : list (string * option string) :=
  map (eventOf keyPrefix entry) (visitedKeys keyPrefix (snd entry)).

Definition linesFor (childKey : string) (events : list (string * option string))
  : list string :=
  flat_map (fun e => if String.eqb (fst e) childKey
                     then match snd e with Some line => [line] | None => [] end
                     else []) events.

Definition itemFor (events : list (string * option string)) (childKey : string)
  : string * CompletionItem :=
  (childKey, mkItem childKey childKey (docOf (linesFor childKey events))).

Definition stateAfter (events : list (string * option string)) : Suggestions :=
  mkSuggestions (distinct (map fst events))
                (map (itemFor events) (distinct (map fst events))).

Section StoreNotions.

Variable resolve : string -> string.
Variable basename : string -> string.
Variable parse : string -> option json.

(** The paths with a live watcher. *)
Definition tracked (s : Store) : list string := keys (jsonWatchers s).

(** A configuration whose paths have non-empty labels, one path per label. *)
Definition validConfig (configPaths : list string) : Prop :=
  (forall p, In p (fullPathsOf resolve configPaths) -> basename p <> "")
  /\ (forall p q, In p (fullPathsOf resolve configPaths) ->
                  In q (fullPathsOf resolve configPaths) ->
                  basename p = basename q -> p = q).

Definition validEvent (e : event) : Prop :=
  match e with
  | Configure _ configPaths => validConfig configPaths
  | _ => True
  end.

(** A change of a file's contents, not of the configuration. *)
Definition fileEvent (e : event) : Prop :=
  match e with
  | Configure _ _ => False
  | _ => True
  end.

(** The full paths of the configuration in force after the events. *)
Fixpoint currentPaths (events : list event) (current : list string) : list string :=
  match events with
  | [] => current
  | Configure _ configPaths :: rest => currentPaths rest (fullPathsOf resolve configPaths)
  | _ :: rest => currentPaths rest current
  end.

(** The cache after the first loop of [handleJsonCacheAndWatcher]:
    every configured file (re)loaded, in order. *)
Definition loadAll (fs : FileSystem) (configPaths : list string)
    (cache : list (string * json)) : list (string * json) :=
  fold_left (fun c relativePath =>
               assign (basename (resolve relativePath))
                      (loadedDocument parse fs (resolve relativePath)) c)
            configPaths cache.

(** The label belongs to a tracked path that the new configuration drops. *)
Definition removedLabel (s : Store) (configPaths : list string) (l : string) : bool :=
  existsb (fun q => negb (has (fullPathsOf resolve configPaths) q)
                    && String.eqb (basename q) l)
          (tracked s).

(** The last configured path with the label. *)
Definition lastWithLabel (configPaths : list string) (l : string) : option string :=
  find (fun p => String.eqb (basename p) l) (rev (fullPathsOf resolve configPaths)).

(** What the three records of a store say together. *)
Record consistent (s : Store) : Prop := mkConsistent {
  cache_one_per_label : NoDup (keys (jsonCache s));
  watchers_one_per_path : NoDup (keys (jsonWatchers s));
  watcher_captures :
    forall p w, assoc p (jsonWatchers s) = Some w ->
                watchedFullPath w = p /\ watchedLabel w = basename p;
  labels_recorded :
    forall p, assoc p (jsonPathLabels s)
              = if has (tracked s) p then Some (basename p) else None;
  tracked_labels_nonempty :
    forall p, In p (tracked s) -> basename p <> "";
  cached_labels_tracked :
    forall l, In l (keys (jsonCache s)) ->
              exists p, In p (tracked s) /\ basename p = l;
  proto_not_cached : ~ In "__proto__" (keys (jsonCache s))
}.

End StoreNotions.

(** The second loop as a test on labels: some entry is not configured
    any more and the label recorded for it is the given one. *)
Definition evicts (newPaths : list string) (labels : list (string * string))
    (entries : list string) (l : string) : bool :=
  existsb (fun q => negb (has newPaths q)
                    && match assoc q labels with
                       | Some lab => negb (String.eqb lab "") && String.eqb lab l
                       | None => false
                       end)
          entries.

(** An instance of the path functions for the examples: POSIX paths
    with no [.] or [..] segment under the root [/ws]. *)
Definition posixResolve (relativePath : string) : string :=
  if Str.startsWith relativePath "/" then relativePath
  else ("/ws/" ++ relativePath)%string.

Fixpoint dropJson (s : string) : string :=
  match s with
  | EmptyString => EmptyString
  | String c rest =>
      if String.eqb rest ".json" then String c EmptyString
      else String c (dropJson rest)
  end.

Definition posixBasename (fullPath : string) : string :=
  dropJson (last (Str.split "/" fullPath) "").

(** A parser for the examples: it knows two documents. *)
Definition demoParse (raw : string) : option json :=
  if String.eqb raw "{}" then Some (JObj [])
  else if String.eqb raw "EN" then Some (JObj [("CONTROLL", JObj [("buy", JStr "Buy")])])
  else if String.eqb raw "VI" then Some (JObj [("CONTROLL", JObj [("buy", JStr "Mua")])])
  else None.

Definition demoDisk : FileSystem :=
  fun fullPath =>
    if String.eqb fullPath "/ws/i18n/en.json" then Some "EN"
    else if String.eqb fullPath "/ws/i18n/vi.json" then Some "VI"
    else None.




(** One path per label among the paths. *)
Definition uniqueLabels (basename : string -> string) (paths : list string) : Prop :=
  forall p q, In p paths -> In q paths -> basename p = basename q -> p = q.

(* ================================================================= *)
(** ** A run-time for the examples *)

(** The decimal numeral of an integer. *)
Definition decimal (n : Z) : string :=
  match n with
  | Z0 => "0"
  | Zpos p => Str.of_N (Npos p)
  | Zneg p => ("-" ++ Str.of_N (Npos p))%string
  end.

(** The text of a parsed value in a template literal, with the
    built-in [toString] methods: an object that has a member of its own
    named [toString] cannot be converted (the member is not a function,
    and the [valueOf] it has or inherits gives no primitive value), any
    other object is [[object Object]]; an array is its items joined by
    commas, [null] items being empty. *)
Fixpoint textOfParsed (j : json) : outcome string :=
  match j with
  | JNull => Returned "null"
  | JBool b => Returned (if b then "true" else "false")
  | JNum n => Returned (decimal n)
  | JStr s => Returned s
  | JObj ms => if has (keys ms) "toString" then Thrown else Returned "[object Object]"
  | JArr xs =>
      (fix join (items : list json) : outcome string :=
         match items with
         | [] => Returned EmptyString
         | item :: rest =>
             andThen (match item with JNull => Returned EmptyString | _ => textOfParsed item end)
               (fun first =>
                  match rest with
                  | [] => Returned first
                  | _ => andThen (join rest)
                           (fun others => Returned (first ++ "," ++ others)%string)
                  end)
         end) xs
  end.

(** The constructor a parsed value inherits, by the kind of the value. *)
Definition constructorOf (node : json) : builtin :=
  match node with
  | JArr _ => "Array"
  | JStr _ => "String"
  | JNum _ => "Number"
  | JBool _ => "Boolean"
  | JObj _ | JNull => "Object"
  end.

(** The part of a standard run-time the examples read.  Every parsed
    value inherits [constructor] and [toString]; the built-in values
    are functions, designated by their names: a function has its
    [name], its accessors [caller] and [arguments] throw, it is no
    object for [typeof], and its text is the placeholder of a native
    function.  The names not listed read as [undefined]; the examples
    do not touch them. *)
Definition demoRealm : Realm := {|
  inherited := fun node name =>
    if String.eqb name "constructor" then Returned (Some (Builtin (constructorOf node)))
    else if String.eqb name "toString" then Returned (Some (Builtin "toString"))
    else Returned None;
  builtinMember := fun b name =>
    if String.eqb name "caller" || String.eqb name "arguments" then Thrown
    else if String.eqb name "name" then Returned (Some (Json (JStr b)))
    else Returned None;
  builtinKeys := fun _ => None;
  toText := fun v =>
    match v with
    | Json j => textOfParsed j
    | Builtin b => Returned ("function " ++ b ++ "() { [native code] }")%string
    end
|}.

(* ================================================================= *)
(** ** The hover provider *)

(** More of JavaScript's strings. *)
Module Text.

(** [s.includes(p)]: [p] occurs somewhere in [s]. *)
Fixpoint includes (s p : string) : bool :=
  Str.startsWith s p ||
  match s with
  | EmptyString => false
  | String _ rest => includes rest p
  end.

(** White space as [trim] sees it, among the characters below 256:
    tab, line feed, vertical tab, form feed, carriage return, space and
    the no-break space. *)
Definition isWhitespace (c : ascii) : bool :=
  let n := nat_of_ascii c in
  (Nat.leb 9 n && Nat.leb n 13) || Nat.eqb n 32 || Nat.eqb n 160.

Fixpoint trimStart (s : string) : string :=
  match s with
  | String c rest => if isWhitespace c then trimStart rest else s
  | EmptyString => EmptyString
  end.

Fixpoint trimEnd (s : string) : string :=
  match s with
  | EmptyString => EmptyString
  | String c rest =>
      match trimEnd rest with
      | EmptyString => if isWhitespace c then EmptyString else String c EmptyString
      | kept => String c kept
      end
  end.

(** [s.trim()] *)
Definition trim (s : string) : string := trimEnd (trimStart s).

(** [lines.findIndex(test)]: the first index that passes, [None] for -1. *)
Fixpoint findIndex {A : Type} (test : A -> bool) (l : list A) : option nat :=
  match l with
  | [] => None
  | x :: rest =>
      if test x then Some O
      else match findIndex test rest with
           | Some i => Some (S i)
           | None => None
           end
  end.

End Text.

(** The loop of [provideHover] over [Object.entries(allJson)]: the
    [try] of a language adds its block; when the lookup or the
    conversion of the value to text throws, the [catch] adds nothing. *)
Fixpoint hoverMarkdown {realm : Realm} (key : string) (allJson : list (string * json))
    (markdownText : string) : string :=
  match allJson with
  | [] => markdownText
  | (lang, jsonData) :: rest =>
      match getValueByKey jsonData key with
      | Returned (Some value) =>
          match templateText value with
          | Returned text => hoverMarkdown key rest (markdownText ++ hoverBlock lang text)
          | Thrown => hoverMarkdown key rest markdownText
          end
      | _ => hoverMarkdown key rest markdownText
      end
  end.

(** [[
provideHover(document, position, _token) {
  try {
    if (!currentConfig.workInFiles.includes(document.languageId)) return;
    const fullText = getFullTextAtPosition(document, position);
    if (!fullText) return;
    const allJson = getAllCachedJson();
    const key = getBestKeyFromFullText(fullText, allJson);
    if (key === null) return;
    let markdownText = "";
    for (const [lang, jsonData] of Object.entries(allJson)) {
      try {
        const value = getValueByKey(jsonData, key);
        if (value !== undefined) { markdownText += `**${lang}**: ${value}\n\n---\n\n`; }
      } catch (e) { console.error(...); }
    }
    if (markdownText.trim()) {
      return new vscode.Hover(new vscode.MarkdownString(markdownText));
    }
  } catch (e) { console.error(...); }
  return;
}
]]
    The result is the Markdown text of the hover, [None] for no hover. *)
Definition provideHover {realm : Realm} (config : Config) (languageId lineText : string)
    (character : nat) (allJson : list (string * json)) : option string :=
  if negb (includes (workInFiles config) languageId) then None
  else
    match getFullTextAtPosition lineText character with
    | None => None
    | Some fullText =>
        if String.eqb fullText "" then None
        else
          match getBestKeyFromFullText (matchStrings config) fullText allJson with
          | None => None
          | Some key =>
              let markdownText := hoverMarkdown key allJson "" in
              if String.eqb (Text.trim markdownText) "" then None
              else Some markdownText
          end
    end.

(* ================================================================= *)
(** ** The definition provider *)

(** A [vscode.Location]: the file and the line (the column is 0). *)
Record Location : Type := mkLocation {
  locationFile : string;
  locationLine : nat
}.

(** [keyParts.at(-1)] for [keyParts = key.split(".")] *)
Definition lastSegment (key : string) : string :=
  last (Str.split "." key) "".

(** The segment between double quotes. *)
Definition quoted (segment : string) : string :=
  String dquote (segment ++ String dquote EmptyString).

(** [text.split("\n").findIndex((line) => line.includes(`"${keyParts.at(-1)}"`))] *)
Definition findKeyLine (key text : string) : option nat :=
  Text.findIndex (fun line => Text.includes line (quoted (lastSegment key)))
                 (Str.split (ascii_of_nat 10) text).

Section Definition_.

Variable resolve : string -> string.
Variable basename : string -> string.

(** [currentConfig.paths.find((p) => path.basename(p, ".json") === lang)] *)
Definition pathOfLanguage (configPaths : list string) (lang : string) : option string :=
  find (fun p => String.eqb (basename p) lang) configPaths.

(** The body of the loop of [provideDefinition] for one language: the
    location to push, if any.  No location when the key has no value in
    the language (or its lookup throws), when no configured path has the language as its base
    name (or that path is the empty string), when the file cannot be
    read, or when no line holds the quoted last segment. *)
Definition locateIn {realm : Realm} (configPaths : list string) (fs : FileSystem)
    (key : string) (entry : string * json) : list Location :=
  let (lang, jsonData) := entry in
  match getValueByKey jsonData key with
  | Returned (Some _) =>
      match pathOfLanguage configPaths lang with
      | None => []
      | Some filePath =>
          if String.eqb filePath "" then []
          else
            let fullPath := resolve filePath in
            match fs fullPath with
            | None => []
            | Some text =>
                match findKeyLine key text with
                | Some lineIndex => [mkLocation fullPath lineIndex]
                | None => []
                end
            end
      end
  | _ => []
  end.

(** [[
provideDefinition(document, position, _token) {
  const fullText = getFullTextAtPosition(document, position);
  if (!fullText) return;
  const allJson = getAllCachedJson();
  const key = getBestKeyFromFullText(fullText, allJson);
  if (key === null) return;
  const keyParts = key.split(".");
  const results: vscode.Location[] = [];
  for (const [lang, jsonData] of Object.entries(allJson)) {
    try {
      const value = getValueByKey(jsonData, key);
      if (value !== undefined) {
        const filePath = currentConfig.paths.find((p) => path.basename(p, ".json") === lang);
        if (!filePath) continue;
        const fullPath = path.resolve(root, filePath);
        try {
          const text = fs.readFileSync(fullPath, "utf8");
          const lineIndex = text.split("\n")
            .findIndex((line) => line.includes(`"${keyParts.at(-1)}"`));
          if (lineIndex >= 0) { results.push(new vscode.Location(...)); }
        } catch (e) { console.error(...); }
      }
    } catch (e) { console.error(...); }
  }
  return results.length ? results : undefined;
}
]] *)
Definition provideDefinition {realm : Realm} (config : Config) (fs : FileSystem)
    (lineText : string) (character : nat) (allJson : list (string * json))
  : option (list Location) :=
  match getFullTextAtPosition lineText character with
  | None => None
  | Some fullText =>
      if String.eqb fullText "" then None
      else
        match getBestKeyFromFullText (matchStrings config) fullText allJson with
        | None => None
        | Some key =>
            match flat_map (locateIn (paths config) fs key) allJson with
            | [] => None
            | results => Some results
            end
        end
  end.

End Definition_.

(* ================================================================= *)
(** ** The configuration file *)

(** What [JSON.parse] gives for the configuration file, read as a
    [ConfigInterface]: each field may be absent. *)
Record ParsedConfig : Type := mkParsedConfig {
  parsedMatchStrings : option (list string);
  parsedWorkInFiles : option (list string);
  parsedPaths : option (list string)
}.

(** The extension's state: [currentConfig], the document store, and the
    number of configuration errors written to the console. *)
Record App : Type := mkApp {
  currentConfig : Config;
  documents : Store;
  configErrors : nat
}.

Definition defaultConfig : Config :=
  mkConfig defaultMatchStrings defaultLanguages [].

(** [currentConfig] when the module is loaded. *)
Definition initialApp : App := mkApp defaultConfig emptyStore 0.

(** [x ?? d] *)
Definition orDefault {A : Type} (x : option A) (d : A) : A :=
  match x with Some v => v | None => d end.

Section ConfigFile.

Variable resolve : string -> string.
Variable basename : string -> string.
Variable parse : string -> option json.

(** [JSON.parse(content)] read as a [ConfigInterface] (a field that is
    present is taken to have its declared type): [None] when the [try]
    block throws before [currentConfig] is assigned, on malformed JSON
    or on the document [null].  And the path of the configuration
    file. *)
Variable parseConfig : string -> option ParsedConfig.
Variable configPath : string.

(** [[
const updateConfig = () => {
  try {
    const content = fs.readFileSync(configPath, "utf-8");
    const parsed = JSON.parse(content) as ConfigInterface;
    currentConfig = {
      matchStrings: parsed.matchStrings ?? defaultMatchStrings,
      workInFiles: parsed.workInFiles ?? defaultLanguages,
      paths: parsed.paths ?? [],
    };
    handleJsonCacheAndWatcher(currentConfig.paths, context);
  } catch (e: any) {
    console.error(`[${packageId}] Configuration read error:`, e.message);
  }
};
]] *)
Definition updateConfig (fs : FileSystem) (app : App) : App :=
  match fs configPath with
  | None => mkApp (currentConfig app) (documents app) (S (configErrors app))
  | Some content =>
      match parseConfig content with
      | None => mkApp (currentConfig app) (documents app) (S (configErrors app))
      | Some parsed =>
          let config :=
            mkConfig (orDefault (parsedMatchStrings parsed) defaultMatchStrings)
                     (orDefault (parsedWorkInFiles parsed) defaultLanguages)
                     (orDefault (parsedPaths parsed) []) in
          mkApp config
                (handleJsonCacheAndWatcher resolve basename parse fs (paths config)
                   (documents app))
                (configErrors app)
      end
  end.

(** [[
watcher.onDidDelete(() => {
  currentConfig = { matchStrings: defaultMatchStrings,
                    workInFiles: defaultLanguages, paths: [] };
  handleJsonCacheAndWatcher([], context);
});
]] *)
Definition configDeleted (fs : FileSystem) (app : App) : App :=
  mkApp defaultConfig
        (handleJsonCacheAndWatcher resolve basename parse fs [] (documents app))
        (configErrors app).

(** What the extension reacts to: the configuration file changes or is
    created ([updateConfig]), is deleted, or a watched translation file
    changes, is created or is deleted. *)
Inductive appEvent : Type :=
| ConfigWritten (fs : FileSystem)
| ConfigRemoved (fs : FileSystem)
| TranslationFile (e : event).

Definition appStep (app : App) (e : appEvent) : App :=
  match e with
  | ConfigWritten fs => updateConfig fs app
  | ConfigRemoved fs => configDeleted fs app
  | TranslationFile e' =>
      mkApp (currentConfig app) (step resolve basename parse (documents app) e')
            (configErrors app)
  end.

Definition appRun (app : App) (events : list appEvent) : App :=
  fold_left appStep events app.

(** The configuration an event would put in force, if it is read. *)
Definition configRead (fs : FileSystem) : option (list string) :=
  match fs configPath with
  | Some content =>
      match parseConfig content with
      | Some parsed => Some (orDefault (parsedPaths parsed) [])
      | None => None
      end
  | None => None
  end.

(** The events whose configurations, when read, have non-empty labels,
    one path per label; a translation-file event is not a
    configuration. *)
Definition validAppEvent (e : appEvent) : Prop :=
  match e with
  | ConfigWritten fs =>
      match configRead fs with
      | Some configPaths => validConfig resolve basename configPaths
      | None => True
      end
  | ConfigRemoved _ => True
  | TranslationFile e' => fileEvent e'
  end.

End ConfigFile.

(* ================================================================= *)
(** ** The earlier revision's prefix stripping, and example data *)

(** [acc.replace(new RegExp(`^${escaped v}\\.?`), "")] of the earlier
    revision ([src/src/extension.ts]): a leading [v] is removed, with
    the dot that follows it if there is one. *)
Definition stripVariable (acc v : string) : string :=
  if Str.startsWith acc v then stripLeadingDot (Str.slice (String.length v) acc)
  else acc.

(** [currentConfig.variableNames.reduce((acc, v) => acc.replace(...), fullText)] *)
Definition legacyKey (variableNames : list string) (fullText : string) : string :=
  fold_left stripVariable variableNames fullText.

(** The path an event of a watcher is about. *)
Definition eventPath (e : event) : option string :=
  match e with
  | Configure _ _ => None
  | FileChanged _ fullPath | FileCreated _ fullPath | FileDeleted fullPath => Some fullPath
  end.

(** A translation file for the examples, three lines:
    an opening brace, the member [buy], a closing brace. *)
Definition demoSource : string :=
  ("{" ++ newline ++ "  " ++ quoted "buy" ++ ": " ++ quoted "Buy" ++ newline ++ "}")%string.

Definition demoSources : FileSystem :=
  fun fullPath =>
    if String.eqb fullPath "/ws/i18n/en.json" then Some demoSource else None.

(** A configuration parser and a disk for the examples: the
    configuration file lists the English file. *)
Definition demoParseConfig (content : string) : option ParsedConfig :=
  if String.eqb content "CONFIG" then Some (mkParsedConfig None None (Some ["i18n/en.json"]))
  else None.

Definition demoWorkspace : FileSystem :=
  fun fullPath =>
    if String.eqb fullPath "/ws/.vscode/show-translation.json" then Some "CONFIG"
    else demoDisk fullPath.

Definition demoBroken : FileSystem :=
  fun fullPath =>
    if String.eqb fullPath "/ws/.vscode/show-translation.json" then Some "{"
    else demoDisk fullPath.

(* ================================================================= *)
(** * Properties *)

(** ** Nested lookup *)

Section Lookup.

Context {realm : Realm}.

Lemma walk_thrown (segs : list string) :
  fold_left readNext segs Thrown = Thrown.
Proof.
  induction segs as [|seg segs IH]; simpl; auto.
Qed.

Lemma walk_undefined (segs : list string) :
  fold_left readNext segs (Returned None) = Returned None.
Proof.
  induction segs as [|seg segs IH]; simpl; auto.
Qed.






Lemma walk_app (pre post : list string) (v : outcome jsvalue) :
  fold_left readNext (pre ++ post) v
  = fold_left readNext post (fold_left readNext pre v).
Proof.
  apply fold_left_app.
Qed.



End Lookup.

Section LookupExamples.

#[local] Existing Instance demoRealm.



End LookupExamples.

(** ** Strings *)

Lemma startsWith_app (p rest : string) :
  Str.startsWith (p ++ rest) p = true.
Proof.
  induction p as [|a p IH]; simpl.
  - destruct rest; reflexivity.
  - rewrite Ascii.eqb_refl. exact IH.
Qed.

Lemma startsWith_inv (s p : string) :
  Str.startsWith s p = true -> exists rest, s = (p ++ rest)%string.
Proof.
  revert s. induction p as [|a p IH]; intros s H.
  - exists s. reflexivity.
  - destruct s as [|b s]; simpl in H; [discriminate|].
    apply andb_true_iff in H. destruct H as [Hab Hs].
    apply Ascii.eqb_eq in Hab. subst b.
    destruct (IH _ Hs) as [rest ->]. exists rest. reflexivity.
Qed.

Lemma slice_app (p rest : string) :
  Str.slice (String.length p) (p ++ rest) = rest.
Proof.
  induction p as [|a p IH]; simpl.
  - destruct rest; reflexivity.
  - exact IH.
Qed.

Lemma append_empty_r (s : string) : (s ++ "")%string = s.
Proof.
  induction s as [|a s IH]; simpl; [reflexivity | now rewrite IH].
Qed.

Lemma append_assoc (a b c : string) :
  ((a ++ b) ++ c)%string = (a ++ (b ++ c))%string.
Proof.
  induction a as [|x a IH]; simpl; [reflexivity | now rewrite IH].
Qed.

Lemma length_append (a b : string) :
  String.length (a ++ b) = String.length a + String.length b.
Proof.
  induction a as [|x a IH]; simpl; [reflexivity | now rewrite IH].
Qed.

Lemma append_inv_head (p r1 r2 : string) :
  (p ++ r1)%string = (p ++ r2)%string -> r1 = r2.
Proof.
  induction p as [|a p IH]; simpl; intros H; [exact H|].
  injection H as H. auto.
Qed.

(** ** Regular expressions: [test] finds every match *)

Lemma matches_nullable (r : Regex.regex) (s : string) :
  Regex.matches r s -> s = "" -> Regex.nullable r = true.
Proof.
  induction 1 as [| | |r1 r2 s1 s2 _ IH1 _ IH2| | | |]; intros E; simpl;
    try reflexivity; try discriminate; auto.
  - destruct s1; [|discriminate]. simpl in E.
    rewrite IH1, IH2; auto.
  - rewrite IHmatches; auto.
  - rewrite IHmatches; auto using orb_true_r.
Qed.

Lemma matches_deriv (r : Regex.regex) (s : string) :
  Regex.matches r s ->
  forall a s', s = String a s' -> Regex.matches (Regex.deriv a r) s'.
Proof.
  induction 1 as [|c|p c Hp|r1 r2 s1 s2 H1 IH1 H2 IH2|r1 r2 s H IH|r1 r2 s H IH
                  | r | r s1 s2 H1 IH1 H2 IH2];
    intros a s' E; simpl.
  - discriminate.
  - injection E as <- <-. rewrite Ascii.eqb_refl. constructor.
  - injection E as <- <-. rewrite Hp. constructor.
  - destruct s1 as [|b s1]; simpl in E.
    + rewrite (matches_nullable H1 eq_refl).
      apply Regex.MAltR. eauto.
    + injection E as -> <-.
      assert (Regex.matches (Regex.Cat (Regex.deriv a r1) r2) (s1 ++ s2)).
      { constructor; eauto. }
      destruct (Regex.nullable r1); [apply Regex.MAltL|]; assumption.
  - apply Regex.MAltL. eauto.
  - apply Regex.MAltR. eauto.
  - discriminate.
  - destruct s1 as [|b s1]; simpl in E.
    + apply (IH2 a s' E).
    + injection E as -> <-. constructor; eauto.
Qed.

Lemma matchesAtStart_complete (s1 s2 : string) (r : Regex.regex) :
  Regex.matches r s1 -> Regex.matchesAtStart r (s1 ++ s2) = true.
Proof.
  revert r. induction s1 as [|a s1 IH]; intros r H.
  - simpl. destruct s2; simpl; rewrite (matches_nullable H eq_refl); reflexivity.
  - simpl. rewrite (IH _ (matches_deriv H eq_refl)). apply orb_true_r.
Qed.

Lemma test_at_start (r : Regex.regex) (s : string) :
  Regex.matchesAtStart r s = true -> Regex.test r s = true.
Proof.
  intros H. destruct s; simpl in *; rewrite H; reflexivity.
Qed.

Lemma matches_lit (p : string) : Regex.matches (Regex.lit p) p.
Proof.
  induction p as [|a p IH]; simpl.
  - constructor.
  - change (String a p) with (String a "" ++ p)%string.
    constructor; [constructor | exact IH].
Qed.

Lemma matches_alternatives (vars : list string) (p : string) :
  In p vars -> Regex.matches (alternatives vars) p.
Proof.
  induction vars as [|v vars IH]; intros Hin; [contradiction|].
  destruct vars as [|v' vars].
  - destruct Hin as [->|[]]. apply matches_lit.
  - change (alternatives (v :: v' :: vars))
      with (Regex.Alt (Regex.lit v) (alternatives (v' :: vars))).
    destruct Hin as [->|Hin].
    + apply Regex.MAltL, matches_lit.
    + apply Regex.MAltR, IH, Hin.
Qed.

(** The pattern of [buildRegexFromVariables] is found in every text
    that begins with one of the variable names. *)
Lemma test_buildRegex_prefix (vars : list string) (p rest : string) :
  In p vars ->
  Regex.test (buildRegexFromVariables vars) (p ++ rest) = true.
Proof.
  intros Hin. apply test_at_start, matchesAtStart_complete.
  unfold buildRegexFromVariables.
  rewrite <- (append_empty_r p).
  constructor; [apply matches_alternatives, Hin | constructor].
Qed.

(** ** Prefix recognition *)

Lemma recognizes_test (prefix fullText : string) :
  String.eqb fullText prefix || Str.startsWith fullText (prefix ++ ".") = true
  <-> recognizes prefix fullText.
Proof.
  unfold recognizes. split.
  - intros H. apply orb_true_iff in H. destruct H as [H|H].
    + left. now apply String.eqb_eq.
    + right. apply startsWith_inv in H. destruct H as [rest ->].
      exists rest. now rewrite append_assoc.
  - intros [->|[rest ->]]; apply orb_true_iff.
    + left. apply String.eqb_refl.
    + right. rewrite <- append_assoc. apply startsWith_app.
Qed.

Lemma remainder_bare (prefix : string) :
  stripLeadingDot (Str.slice (String.length prefix) prefix) = "".
Proof.
  rewrite <- (append_empty_r prefix) at 2. rewrite slice_app. reflexivity.
Qed.

Lemma remainder_dotted (prefix rest : string) :
  stripLeadingDot (Str.slice (String.length prefix) (prefix ++ "." ++ rest)) = rest.
Proof.
  rewrite slice_app. reflexivity.
Qed.

Lemma firstPrefixKey_none (fullText : string) (prefixes : list string) :
  (forall prefix, In prefix prefixes -> ~ recognizes prefix fullText) ->
  firstPrefixKey fullText prefixes = None.
Proof.
  induction prefixes as [|p ps IH]; intros H; simpl; [reflexivity|].
  destruct (String.eqb fullText p || Str.startsWith fullText (p ++ ".")) eqn:E.
  - apply recognizes_test in E. exfalso. apply (H p); simpl; auto.
  - apply IH. intros q Hq. apply H. simpl; auto.
Qed.

Lemma firstPrefixKey_first (fullText : string) (before after : list string)
    (prefix : string) :
  (forall q, In q before -> ~ recognizes q fullText) ->
  recognizes prefix fullText ->
  firstPrefixKey fullText (before ++ prefix :: after)
  = Some (stripLeadingDot (Str.slice (String.length prefix) fullText)).
Proof.
  intros Hb Hp. induction before as [|q qs IH]; simpl.
  - apply recognizes_test in Hp. rewrite Hp. reflexivity.
  - destruct (String.eqb fullText q || Str.startsWith fullText (q ++ ".")) eqn:E.
    + apply recognizes_test in E. exfalso. apply (Hb q); simpl; auto.
    + apply IH. intros q' Hq'. apply Hb. simpl; auto.
Qed.

Lemma firstPrefixKey_some_in (fullText key : string) (prefixes : list string) :
  firstPrefixKey fullText prefixes = Some key ->
  exists prefix, In prefix prefixes /\ recognizes prefix fullText.
Proof.
  induction prefixes as [|p ps IH]; simpl; [discriminate|].
  destruct (String.eqb fullText p || Str.startsWith fullText (p ++ ".")) eqn:E.
  - intros _. exists p. split; [auto | now apply recognizes_test].
  - intros H. destruct (IH H) as [q [Hq Hr]]. exists q. auto.
Qed.

(** The test of the pattern never decides: a text the loop recognizes
    passes it. *)
Lemma extractKeyFromFullText_loop (matchStrings : list string) (fullText : string) :
  fullText <> "" ->
  extractKeyFromFullText matchStrings fullText = firstPrefixKey fullText matchStrings.
Proof.
  intros Hne. unfold extractKeyFromFullText.
  destruct (String.eqb fullText "") eqn:E0.
  { apply String.eqb_eq in E0. contradiction. }
  destruct (Regex.test (buildRegexFromVariables matchStrings) fullText) eqn:Et;
    [reflexivity|]. simpl.
  destruct (firstPrefixKey fullText matchStrings) as [key|] eqn:Ek; [|reflexivity].
  apply firstPrefixKey_some_in in Ek. destruct Ek as [p [Hin Hr]].
  assert (Regex.test (buildRegexFromVariables matchStrings) fullText = true);
    [|congruence].
  destruct Hr as [->|[rest ->]].
  - rewrite <- (append_empty_r p). now apply test_buildRegex_prefix.
  - now apply test_buildRegex_prefix.
Qed.

(** C3: for every (non-empty) span and every ordered prefix list,
    [extractKeyFromFullText] returns the key of the first configured
    prefix that the text equals or starts with followed by a dot: the
    empty key when the text is the prefix, the rest after the prefix
    and one dot otherwise; it returns none when no configured prefix
    is recognized.  With the prefixes [this._translate] and
    [_translate]: [_translate.A.B] gives [A.B], [this._translate] gives
    the empty key, [unrelated.A] gives none. *)
Theorem extractKeyFromFullText_first_prefix :
  (forall (before after : list string) (prefix fullText : string),
      fullText <> "" ->
      (forall q, In q before -> ~ recognizes q fullText) ->
      (fullText = prefix ->
       extractKeyFromFullText (before ++ prefix :: after) fullText = Some "")
      /\ (forall rest, fullText = (prefix ++ "." ++ rest)%string ->
          extractKeyFromFullText (before ++ prefix :: after) fullText = Some rest))
  /\ (forall (matchStrings : list string) (fullText : string),
        (forall prefix, In prefix matchStrings -> ~ recognizes prefix fullText) ->
        extractKeyFromFullText matchStrings fullText = None)
  /\ extractKeyFromFullText ["this._translate"; "_translate"] "_translate.A.B" = Some "A.B"
  /\ extractKeyFromFullText ["this._translate"; "_translate"] "this._translate" = Some ""
  /\ extractKeyFromFullText ["this._translate"; "_translate"] "unrelated.A" = None.
Proof.
  split; [|split; [|repeat split; reflexivity]].
  - intros before after prefix fullText Hne Hb. split.
    + intros E. rewrite extractKeyFromFullText_loop by assumption.
      rewrite firstPrefixKey_first; [|assumption|left; assumption].
      subst fullText. now rewrite remainder_bare.
    + intros rest E. rewrite extractKeyFromFullText_loop by assumption.
      rewrite firstPrefixKey_first; [|assumption|right; eauto].
      subst fullText. now rewrite remainder_dotted.
  - intros matchStrings fullText Hnone. unfold extractKeyFromFullText.
    rewrite firstPrefixKey_none by exact Hnone.
    destruct (String.eqb fullText ""); [reflexivity|].
    destruct (negb _); reflexivity.
Qed.

(** A witness of C3 on the default prefixes. *)
Lemma extractKeyFromFullText_first_prefix_witness :
  extractKeyFromFullText ["this._translate"; "_translate"] "_translate.A.B" = Some "A.B".
Proof.
  refine (proj2 (proj1 extractKeyFromFullText_first_prefix
                   ["this._translate"] [] "_translate" "_translate.A.B" _ _)
                "A.B" eq_refl).
  - discriminate.
  - intros q [<-|[]] [H|[rest H]]; discriminate.
Defined.

(** ** Quote trimming *)

Lemma stripTrailingQuote_snoc (body : string) (q : ascii) :
  quote_char q = true ->
  stripTrailingQuote (body ++ String q "") = body.
Proof.
  intros Hq. induction body as [|c body IH]; simpl.
  - now rewrite Hq.
  - rewrite IH. destruct (body ++ String q "")%string eqn:E; [|reflexivity].
    destruct body; discriminate.
Qed.

Lemma stripTrailingQuote_id (s : string) :
  endsWithQuote s = false -> stripTrailingQuote s = s.
Proof.
  induction s as [|c s IH]; simpl; [reflexivity|].
  destruct s as [|c' s].
  - intros ->. reflexivity.
  - intros H. now rewrite IH.
Qed.

Lemma stripLeadingQuote_id (s : string) :
  startsWithQuote s = false -> stripLeadingQuote s = s.
Proof.
  destruct s as [|c s]; simpl; [reflexivity|]. now intros ->.
Qed.

Lemma startsWithQuote_snoc (body : string) (q : ascii) :
  quote_char q = true ->
  startsWithQuote body = false ->
  stripLeadingQuote (body ++ String q "") = if String.eqb body "" then "" else (body ++ String q "")%string.
Proof.
  intros Hq Hb. destruct body as [|c body]; simpl in *.
  - now rewrite Hq.
  - now rewrite Hb.
Qed.

(** C5 (as amended): before prefix matching one quote character is
    removed from each end of the span that carries one, each end on its
    own: a span in quotes loses exactly one layer, whether or not the
    two quotes are the same character; a span quoted at one end only
    loses that quote; a span with no quote at either end is unchanged. *)
Theorem stripQuotes_each_end :
  (forall (q1 q2 : ascii) (body : string),
      quote_char q1 = true -> quote_char q2 = true ->
      stripQuotes (String q1 (body ++ String q2 "")) = body)
  /\ (forall (q : ascii) (body : string),
        quote_char q = true -> endsWithQuote body = false ->
        stripQuotes (String q body) = body)
  /\ (forall (q : ascii) (body : string),
        quote_char q = true -> startsWithQuote body = false ->
        stripQuotes (body ++ String q "") = body)
  /\ (forall s : string,
        startsWithQuote s = false -> endsWithQuote s = false ->
        stripQuotes s = s).
Proof.
  unfold stripQuotes. repeat split.
  - intros q1 q2 body H1 H2. simpl. rewrite H1.
    now apply stripTrailingQuote_snoc.
  - intros q body Hq Hb. simpl. rewrite Hq.
    now apply stripTrailingQuote_id.
  - intros q body Hq Hb. rewrite startsWithQuote_snoc by assumption.
    destruct body as [|c body]; [reflexivity|].
    change (String.eqb (String c body) "") with false. cbv iota.
    now apply stripTrailingQuote_snoc.
  - intros s Hs He. rewrite stripLeadingQuote_id by assumption.
    now apply stripTrailingQuote_id.
Qed.

(** C5, the claim as stated fails: a span quoted at its first character
    only is trimmed, and so is a span whose two quotes differ. *)
Lemma stripQuotes_one_end_trimmed :
  stripQuotes "'abc" = "abc"
  /\ stripQuotes (String "'" ("abc" ++ String dquote "")) = "abc".
Proof.
  split; reflexivity.
Qed.

(** The theorem on a span quoted at its first character only. *)
Lemma stripQuotes_each_end_witness : stripQuotes "'CONTROLL.buy" = "CONTROLL.buy".
Proof.
  apply (proj1 (proj2 stripQuotes_each_end) "'"%char "CONTROLL.buy"); reflexivity.
Defined.

(** ** Best-key disambiguation *)

Section BestKey.

Context {realm : Realm}.

Lemma firstTreeWith_existsIn (candidate : string) (trees : list json) :
  firstTreeWith candidate trees
  = if existsIn trees candidate then Some candidate else None.
Proof.
  induction trees as [|t ts IH]; simpl; [reflexivity|].
  destruct (getValueByKey t candidate) as [[v|]|]; simpl; auto.
Qed.

Lemma firstCandidate_find (candidates : list string) (trees : list json) :
  firstCandidate candidates trees = find (existsIn trees) candidates.
Proof.
  induction candidates as [|c cs IH]; simpl; [reflexivity|].
  rewrite firstTreeWith_existsIn.
  destruct (existsIn trees c); [reflexivity | exact IH].
Qed.

Lemma find_first {A : Type} (f : A -> bool) (l : list A) (x : A) :
  find f l = Some x
  <-> exists before after,
        l = before ++ x :: after /\ f x = true
        /\ forall y, In y before -> f y = false.
Proof.
  induction l as [|a l IH]; simpl.
  - split; [discriminate|]. intros [before [after [E _]]].
    destruct before; discriminate.
  - destruct (f a) eqn:Fa.
    + split.
      * intros [= ->]. exists [], l. simpl. repeat split; auto. intros y [].
      * intros [before [after [E [Fx Hb]]]]. destruct before as [|b before].
        -- simpl in E. injection E as -> _. reflexivity.
        -- simpl in E. injection E as -> _.
           rewrite (Hb b) in Fa by (simpl; auto). discriminate.
    + rewrite IH. split.
      * intros [before [after [-> [Fx Hb]]]]. exists (a :: before), after.
        repeat split; auto. intros y [<-|Hy]; auto.
      * intros [before [after [E [Fx Hb]]]]. destruct before as [|b before].
        -- simpl in E. injection E as -> _. congruence.
        -- simpl in E. injection E as -> ->. exists before, after.
           repeat split; auto. intros y Hy. apply Hb. simpl; auto.
Qed.

Lemma find_none_iff {A : Type} (f : A -> bool) (l : list A) :
  find f l = None <-> forall y, In y l -> f y = false.
Proof.
  induction l as [|a l IH]; simpl.
  - split; auto. intros _ y [].
  - destruct (f a) eqn:Fa.
    + split; [discriminate|]. intros H. rewrite (H a) in Fa by auto. discriminate.
    + rewrite IH. split.
      * intros H y [<-|Hy]; auto.
      * intros H y Hy. apply H. auto.
Qed.

Lemma existsIn_spec (allJson : list (string * json)) (key : string) :
  existsIn (values allJson) key = true
  <-> exists lang (jsonData : json) value,
        In (lang, jsonData) allJson
        /\ getValueByKey jsonData key = Returned (Some value).
Proof.
  unfold existsIn, values. rewrite existsb_exists. split.
  - intros [t [Hin Hd]]. apply in_map_iff in Hin.
    destruct Hin as [[lang t'] [E Hin]]. simpl in E. subst t'.
    destruct (getValueByKey t key) as [[v|]|] eqn:Ev; try discriminate.
    exists lang, t, v. auto.
  - intros [lang [t [v [Hin Hv]]]]. exists t. split.
    + apply in_map_iff. exists (lang, t). auto.
    + now rewrite Hv.
Qed.

(** The stripped key is never the text it was stripped from, so the
    [includes] test of [getBestKeyFromFullText] never drops anything. *)
Lemma firstPrefixKey_shorter (fullText key : string) (prefixes : list string) :
  firstPrefixKey fullText prefixes = Some key ->
  key = "" \/ String.length key < String.length fullText.
Proof.
  induction prefixes as [|p ps IH]; simpl; [discriminate|].
  destruct (String.eqb fullText p || Str.startsWith fullText (p ++ ".")) eqn:E;
    [|exact IH].
  apply recognizes_test in E. intros [= <-]. destruct E as [->|[rest ->]].
  - left. apply remainder_bare.
  - right. rewrite remainder_dotted.
    rewrite !length_append. simpl. lia.
Qed.

Lemma extractKeyFromFullText_not_text (matchStrings : list string) (fullText key : string) :
  extractKeyFromFullText matchStrings fullText = Some key ->
  fullText <> "" /\ key <> fullText.
Proof.
  unfold extractKeyFromFullText.
  destruct (String.eqb fullText "") eqn:E0; [discriminate|].
  apply String.eqb_neq in E0.
  destruct (negb _); [discriminate|]. intros H. split; [exact E0|].
  apply firstPrefixKey_shorter in H. destruct H as [->|H].
  - congruence.
  - intros ->. lia.
Qed.

Lemma candidatesOf_tried (matchStrings : list string) (cleaned : string) :
  candidatesOf matchStrings cleaned = triedCandidates matchStrings cleaned.
Proof.
  unfold candidatesOf, triedCandidates.
  destruct (extractKeyFromFullText matchStrings cleaned) as [key|] eqn:E;
    [|reflexivity].
  destruct (String.eqb key "") eqn:Ek; [reflexivity|].
  apply extractKeyFromFullText_not_text in E. destruct E as [_ Hne].
  unfold includes. simpl.
  assert (String.eqb cleaned key = false) as ->; [|reflexivity].
  apply String.eqb_neq. congruence.
Qed.

Lemma triedCandidates_nonempty (matchStrings : list string) (cleaned : string) :
  cleaned <> "" -> ~ In "" (triedCandidates matchStrings cleaned).
Proof.
  intros Hne. unfold triedCandidates.
  destruct (extractKeyFromFullText matchStrings cleaned) as [key|].
  - destruct (String.eqb key "") eqn:Ek.
    + intros [H|[]]. congruence.
    + apply String.eqb_neq in Ek. intros [H|[H|[]]]; congruence.
  - intros [H|[]]. congruence.
Qed.

Lemma getBestKeyFromFullText_find (matchStrings : list string) (span : string)
    (allJson : list (string * json)) :
  getBestKeyFromFullText matchStrings span allJson
  = if String.eqb (stripQuotes span) "" then None
    else find (existsIn (values allJson)) (triedCandidates matchStrings (stripQuotes span)).
Proof.
  unfold getBestKeyFromFullText.
  destruct (String.eqb span "") eqn:E.
  - apply String.eqb_eq in E. subst span. reflexivity.
  - destruct (String.eqb (stripQuotes span) ""); [reflexivity|].
    now rewrite firstCandidate_find, candidatesOf_tried.
Qed.

(** C2 (as amended): for every span and document set,
    [getBestKeyFromFullText] returns none when the quote-trimmed span
    is empty; otherwise its candidates are the prefix-stripped key,
    when extraction succeeds with a non-empty key, followed by the
    trimmed span (the two are never equal), and it returns the first
    candidate, in that order, whose lookup is defined in at least one
    tree of the document set, and none when no candidate exists in any
    tree. *)
Theorem getBestKeyFromFullText_first_candidate (matchStrings : list string)
    (span : string) (allJson : list (string * json)) :
  let trimmed := stripQuotes span in
  let candidates := triedCandidates matchStrings trimmed in
  (trimmed = "" -> getBestKeyFromFullText matchStrings span allJson = None)
  /\ (trimmed <> "" ->
      NoDup candidates
      /\ (forall key, getBestKeyFromFullText matchStrings span allJson = Some key
            <-> exists before after,
                  candidates = before ++ key :: after
                  /\ existsIn (values allJson) key = true
                  /\ forall earlier, In earlier before ->
                       existsIn (values allJson) earlier = false)
      /\ (getBestKeyFromFullText matchStrings span allJson = None
            <-> forall candidate, In candidate candidates ->
                  existsIn (values allJson) candidate = false)).
Proof.
  intros trimmed candidates. rewrite getBestKeyFromFullText_find.
  fold trimmed. fold candidates. split.
  - intros ->. reflexivity.
  - intros Hne. apply String.eqb_neq in Hne. rewrite Hne. split; [|split].
    + unfold candidates, triedCandidates.
      destruct (extractKeyFromFullText matchStrings trimmed) as [key|] eqn:E.
      * destruct (String.eqb key "").
        -- repeat constructor. intros [].
        -- apply extractKeyFromFullText_not_text in E. destruct E as [_ E].
           repeat constructor; simpl; intuition.
      * repeat constructor. intros [].
    + intros key. apply find_first.
    + apply find_none_iff.
Qed.

(** C10: [getBestKeyFromFullText] never returns the empty key: the
    empty text and the empty trimmed text return none, and an empty
    prefix-stripped candidate is not listed, so every candidate is
    non-empty and a bare prefix never resolves to the root of a tree. *)
Theorem getBestKeyFromFullText_nonempty (matchStrings : list string)
    (span key : string) (allJson : list (string * json)) :
  getBestKeyFromFullText matchStrings span allJson = Some key ->
  key <> ""
  /\ In key (candidatesOf matchStrings (stripQuotes span))
  /\ ~ In "" (candidatesOf matchStrings (stripQuotes span)).
Proof.
  rewrite getBestKeyFromFullText_find, candidatesOf_tried.
  destruct (String.eqb (stripQuotes span) "") eqn:E; [discriminate|].
  apply String.eqb_neq in E. intros H.
  pose proof (triedCandidates_nonempty matchStrings E) as Hnone.
  apply find_some in H. destruct H as [Hin _].
  repeat split; auto. intros ->. contradiction.
Qed.

(** C6 (as amended): on the line of the claim, ['CONTROLL.buy' | translate],
    with the cursor anywhere on the quoted key (characters 1 to 14),
    the span taken at the cursor is the key with at most one of its
    quotes; no configured prefix is recognized in it, and for every
    document set in which [CONTROLL.buy] has a value
    [getBestKeyFromFullText] returns [CONTROLL.buy] for that span, by
    the literal candidate. *)
Theorem getBestKeyFromFullText_quoted_key (allJson : list (string * json))
    (character : nat) :
  1 <= character <= 14 ->
  existsIn (values allJson) "CONTROLL.buy" = true ->
  exists span,
    getFullTextAtPosition "'CONTROLL.buy' | translate" character = Some span
    /\ stripQuotes span = "CONTROLL.buy"
    /\ extractKeyFromFullText defaultMatchStrings (stripQuotes span) = None
    /\ getBestKeyFromFullText defaultMatchStrings span allJson = Some "CONTROLL.buy".
Proof.
  intros [Hlo Hhi] Hexists.
  assert (Hfound : forall span,
            stripQuotes span = "CONTROLL.buy" ->
            getBestKeyFromFullText defaultMatchStrings span allJson = Some "CONTROLL.buy").
  { intros span Hs. rewrite getBestKeyFromFullText_find, Hs.
    cbn [String.eqb Ascii.eqb Bool.eqb]. 
    change (triedCandidates defaultMatchStrings "CONTROLL.buy") with ["CONTROLL.buy"].
    cbn [find]. now rewrite Hexists. }
  destruct character as [|character]; [lia|].
  do 14 (destruct character as [|character];
         [eexists; split; [reflexivity|];
          split; [reflexivity|]; split; [reflexivity|]; apply Hfound; reflexivity|]).
  lia.
Qed.

End BestKey.

Section BestKeyExamples.

#[local] Existing Instance demoRealm.

(** C2, the claim as stated fails: on the bare prefix [_translate]
    extraction succeeds with the empty key, which the specified
    procedure tries (and finds, in a tree with a member named by the
    empty string), while the code never lists it and returns none. *)
Lemma getBestKeyFromFullText_skips_empty_candidate :
  getBestKeyFromFullText defaultMatchStrings "_translate"
    [("en", JObj [("", JStr "root")])] = None
  /\ resolveBestKeySpec defaultMatchStrings "_translate"
       [("en", JObj [("", JStr "root")])] = Some "".
Proof.
  split; reflexivity.
Qed.

(** The theorem on a span with a recognized prefix. *)
Lemma getBestKeyFromFullText_first_candidate_witness :
  getBestKeyFromFullText defaultMatchStrings "_translate.CONTROLL.buy"
    [("en", JObj [("CONTROLL", JObj [("buy", JStr "Buy")])])] = Some "CONTROLL.buy".
Proof.
  apply (proj2 (getBestKeyFromFullText_first_candidate defaultMatchStrings
                  "_translate.CONTROLL.buy"
                  [("en", JObj [("CONTROLL", JObj [("buy", JStr "Buy")])])])).
  - discriminate.
  - exists [], ["_translate.CONTROLL.buy"]. repeat split. intros earlier [].
Defined.

(** C10 on a bare prefix that is also a member of a tree: the key
    returned is the literal text, not the empty key. *)
Lemma getBestKeyFromFullText_nonempty_witness :
  "_translate" <> ""
  /\ In "_translate" (candidatesOf defaultMatchStrings (stripQuotes "_translate"))
  /\ ~ In "" (candidatesOf defaultMatchStrings (stripQuotes "_translate")).
Proof.
  apply (@getBestKeyFromFullText_nonempty demoRealm defaultMatchStrings "_translate" "_translate"
           [("en", JObj [("_translate", JStr "x"); ("", JStr "root")])]).
  reflexivity.
Defined.

(** C6, the claim as stated fails: applied to the whole text of the
    claim the function trims the leading quote only, recognizes no
    configured prefix, finds no member for the literal candidate and
    returns none; it returns the key when the span is the quoted key
    alone. *)
Lemma getBestKeyFromFullText_pipe_span :
  stripQuotes "'CONTROLL.buy' | translate" = "CONTROLL.buy' | translate"
  /\ candidatesOf defaultMatchStrings "CONTROLL.buy' | translate"
     = ["CONTROLL.buy' | translate"]
  /\ getBestKeyFromFullText defaultMatchStrings "'CONTROLL.buy' | translate"
       [("en", JObj [("CONTROLL", JObj [("buy", JStr "Buy")])])] = None
  /\ getBestKeyFromFullText defaultVariableNames "'CONTROLL.buy' | translate"
       [("en", JObj [("CONTROLL", JObj [("buy", JStr "Buy")])])] = None
  /\ getBestKeyFromFullText defaultMatchStrings "'CONTROLL.buy'"
       [("en", JObj [("CONTROLL", JObj [("buy", JStr "Buy")])])] = Some "CONTROLL.buy".
Proof.
  repeat split; reflexivity.
Qed.

(** C6 on the tree of the claim, with the cursor on the first letter of
    the key. *)
Lemma getBestKeyFromFullText_quoted_key_witness :
  exists span,
    getFullTextAtPosition "'CONTROLL.buy' | translate" 1 = Some span
    /\ stripQuotes span = "CONTROLL.buy"
    /\ extractKeyFromFullText defaultMatchStrings (stripQuotes span) = None
    /\ getBestKeyFromFullText defaultMatchStrings span
         [("en", JObj [("CONTROLL", JObj [("buy", JStr "Buy")])])] = Some "CONTROLL.buy".
Proof.
  apply (@getBestKeyFromFullText_quoted_key demoRealm
           [("en", JObj [("CONTROLL", JObj [("buy", JStr "Buy")])])] 1).
  - lia.
  - reflexivity.
Defined.

End BestKeyExamples.

(** ** Span extraction *)

Lemma scanLeft_le (lineText : string) (start : nat) :
  scanLeft lineText start <= start.
Proof.
  induction start as [|n IH]; simpl; [lia|].
  destruct (isAllowed (Str.charAt lineText n)); lia.
Qed.

Lemma scanRight_ge (fuel : nat) (lineText : string) (end_ : nat) :
  end_ <= scanRight fuel lineText end_.
Proof.
  revert end_. induction fuel as [|fuel IH]; intros end_; simpl; [lia|].
  destruct (Nat.ltb end_ (String.length lineText)
            && isAllowed (Str.charAt lineText end_)); [|lia].
  specialize (IH (S end_)). lia.
Qed.

(** The fuel of the right scan is enough: where [scanRight] stops, the
    condition of the [while] loop is false. *)
Lemma scanRight_stops (fuel : nat) (lineText : string) (end_ : nat) :
  String.length lineText - end_ <= fuel ->
  Nat.ltb (scanRight fuel lineText end_) (String.length lineText)
  && isAllowed (Str.charAt lineText (scanRight fuel lineText end_)) = false.
Proof.
  revert end_. induction fuel as [|fuel IH]; intros end_ Hfuel; simpl.
  - assert (Nat.ltb end_ (String.length lineText) = false) as ->; [|reflexivity].
    apply Nat.ltb_ge. lia.
  - destruct (Nat.ltb end_ (String.length lineText)
              && isAllowed (Str.charAt lineText end_)) eqn:E.
    + apply IH. lia.
    + exact E.
Qed.

(** C4, what the code does: the character before the cursor is taken
    into the span without being tested, so the span can hold a
    character outside the alphabet, and with the cursor after the first
    column of a non-empty line the result is never none. *)
Theorem getFullTextAtPosition_unchecked_character :
  getFullTextAtPosition "a b" 2 = Some "a b"
  /\ isAllowed " " = false
  /\ getFullTextAtPosition "a   b" 2 = Some "a "
  /\ getFullTextAtPosition "'CONTROLL.buy' | translate" 1 = Some "'CONTROLL.buy"
  /\ (forall (lineText : string) (character : nat),
        lineText <> "" -> 0 < character ->
        getFullTextAtPosition lineText character
        = Some (Str.substring (scanLeft lineText (character - 1))
                  (scanRight (String.length lineText) lineText character) lineText)
        /\ scanLeft lineText (character - 1) <= character - 1
        /\ character <= scanRight (String.length lineText) lineText character).
Proof.
  repeat split; try reflexivity.
  - unfold getFullTextAtPosition.
    apply String.eqb_neq in H. rewrite H.
    rewrite <- Nat.sub_1_r.
    pose proof (scanLeft_le lineText (character - 1)).
    pose proof (scanRight_ge (String.length lineText) lineText character).
    assert (Nat.eqb (scanLeft lineText (character - 1))
              (scanRight (String.length lineText) lineText character) = false) as ->;
      [|reflexivity].
    apply Nat.eqb_neq. lia.
  - apply scanLeft_le.
  - apply scanRight_ge.
Qed.

(** ** Completion *)

Lemma has_In (l : list string) (k : string) : has l k = true <-> In k l.
Proof.
  unfold has. rewrite existsb_exists. split.
  - intros [x [Hin E]]. apply String.eqb_eq in E. now subst x.
  - intros Hin. exists k. split; [exact Hin | apply String.eqb_refl].
Qed.

Lemma has_false (l : list string) (k : string) : has l k = false <-> ~ In k l.
Proof.
  rewrite <- has_In. destruct (has l k); split; congruence.
Qed.

Lemma distinct_In (l : list string) (k : string) : In k (distinct l) <-> In k l.
Proof.
  induction l as [|x l IH]; simpl; [tauto|].
  rewrite filter_In, IH. split.
  - intros [H|[H _]]; auto.
  - intros [H|H]; auto.
    destruct (String.eqb k x) eqn:E.
    + apply String.eqb_eq in E. auto.
    + right. auto.
Qed.

Lemma filter_NoDup (f : string -> bool) (l : list string) :
  NoDup l -> NoDup (filter f l).
Proof.
  induction 1 as [|x l Hx Hl IH]; simpl; [constructor|].
  destruct (f x); [|exact IH].
  constructor; [|exact IH]. rewrite filter_In. tauto.
Qed.

Lemma distinct_NoDup (l : list string) : NoDup (distinct l).
Proof.
  induction l as [|x l IH]; simpl; constructor.
  - rewrite filter_In, String.eqb_refl. simpl. intros [_ H]. discriminate.
  - now apply filter_NoDup.
Qed.

Lemma filter_all (f : string -> bool) (l : list string) :
  (forall y, In y l -> f y = true) -> filter f l = l.
Proof.
  induction l as [|x l IH]; simpl; intros H; [reflexivity|].
  rewrite (H x) by auto. f_equal. apply IH. auto.
Qed.

Lemma distinct_snoc (l : list string) (x : string) :
  distinct (l ++ [x]) = if has l x then distinct l else distinct l ++ [x].
Proof.
  induction l as [|a l IH]; simpl; [reflexivity|].
  rewrite IH. unfold has. simpl. fold (has l x).
  destruct (has l x) eqn:Hl.
  - rewrite orb_true_r. reflexivity.
  - rewrite orb_false_r, filter_app. simpl. rewrite (String.eqb_sym x a).
    destruct (String.eqb a x); simpl; [now rewrite app_nil_r | reflexivity].
Qed.

Lemma joinLines_snoc (lines : list string) (line : string) :
  joinLines (lines ++ [line]) = (joinLines lines ++ line)%string.
Proof.
  induction lines as [|l lines IH]; simpl.
  - apply append_empty_r.
  - now rewrite IH, append_assoc.
Qed.

Lemma docOf_snoc (lines : list string) (line : string) :
  docOf (lines ++ [line])
  = Some (match docOf lines with Some d => d | None => "" end ++ line)%string.
Proof.
  unfold docOf at 1. destruct (lines ++ [line]) eqn:E.
  - destruct lines; discriminate.
  - rewrite <- E, joinLines_snoc. destruct lines; reflexivity.
Qed.

Lemma linesFor_snoc (k : string) (events : list (string * option string))
    (e : string * option string) :
  linesFor k (events ++ [e])
  = linesFor k events
    ++ (if String.eqb (fst e) k
        then match snd e with Some line => [line] | None => [] end else []).
Proof.
  unfold linesFor. rewrite flat_map_app. simpl. now rewrite app_nil_r.
Qed.

Lemma linesFor_unseen (k : string) (events : list (string * option string)) :
  ~ In k (map fst events) -> linesFor k events = [].
Proof.
  induction events as [|e events IH]; simpl; intros H; [reflexivity|].
  destruct (String.eqb (fst e) k) eqn:E.
  - apply String.eqb_eq in E. tauto.
  - apply IH. tauto.
Qed.

Lemma set_fresh {A : Type} (k : string) (v : A) (l : list (string * A)) :
  ~ In k (keys l) -> set k v l = l ++ [(k, v)].
Proof.
  induction l as [|[k' v'] l IH]; simpl; intros H; [reflexivity|].
  destruct (String.eqb k' k) eqn:E.
  - apply String.eqb_eq in E. tauto.
  - f_equal. apply IH. tauto.
Qed.

Lemma keys_itemFor (events : list (string * option string)) (ks : list string) :
  keys (map (itemFor events) ks) = ks.
Proof.
  unfold keys. rewrite map_map. simpl. apply map_id.
Qed.

Lemma appendDoc_app_fresh (c line : string) (m1 m2 : list (string * CompletionItem)) :
  ~ In c (keys m1) ->
  appendDoc c line (m1 ++ m2) = m1 ++ appendDoc c line m2.
Proof.
  induction m1 as [|[k item] m1 IH]; simpl; intros H; [reflexivity|].
  destruct (String.eqb k c) eqn:E.
  - apply String.eqb_eq in E. tauto.
  - f_equal. apply IH. tauto.
Qed.

(** Writing a line on the item of [c] extends the lines of [c] alone. *)
Lemma appendDoc_map (c line : string) (lines : string -> list string) (ks : list string) :
  NoDup ks ->
  appendDoc c line (map (fun k => (k, mkItem k k (docOf (lines k)))) ks)
  = map (fun k => (k, mkItem k k
                        (docOf (lines k ++ if String.eqb c k then [line] else []))))
        ks.
Proof.
  induction 1 as [|k ks Hk Hks IH]; simpl; [reflexivity|].
  rewrite (String.eqb_sym c k). destruct (String.eqb k c) eqn:E.
  - apply String.eqb_eq in E. subst k. rewrite docOf_snoc. f_equal.
    apply map_ext_in. intros k Hin.
    assert (String.eqb c k = false) as ->.
    { apply String.eqb_neq. intros ->. contradiction. }
    now rewrite app_nil_r.
  - rewrite app_nil_r. f_equal. exact IH.
Qed.

Lemma visit_stateAfter (events : list (string * option string))
    (e : string * option string) :
  visit (stateAfter events) e = stateAfter (events ++ [e]).
Proof.
  destruct e as [c ol]. unfold visit, stateAfter. simpl fst. simpl snd.
  cbn [keySet suggestionMap].
  rewrite map_app. simpl map. rewrite distinct_snoc.
  set (ks := map fst events). set (D := distinct ks).
  assert (HD : has D c = has ks c).
  { destruct (has ks c) eqn:E.
    - unfold D. apply has_In, distinct_In, has_In, E.
    - apply has_false. unfold D. rewrite distinct_In. now apply has_false. }
  rewrite HD.
  assert (Hitem : forall k, itemFor (events ++ [(c, ol)]) k
            = (k, mkItem k k (docOf (linesFor k events
                 ++ if String.eqb c k
                    then match ol with Some line => [line] | None => [] end
                    else [])))).
  { intros k. unfold itemFor. now rewrite linesFor_snoc. }
  destruct (has ks c) eqn:Hseen; cbn [keySet suggestionMap].
  - destruct ol as [line|].
    + f_equal. unfold itemFor at 1.
      rewrite appendDoc_map by apply distinct_NoDup.
      apply map_ext. intros k. now rewrite Hitem.
    + f_equal. apply map_ext. intros k. rewrite Hitem.
      destruct (String.eqb c k); now rewrite app_nil_r.
  - assert (Hc : ~ In c D).
    { unfold D. rewrite distinct_In. now apply has_false. }
    rewrite set_fresh by now rewrite keys_itemFor.
    rewrite map_app. simpl map.
    assert (Hold : map (itemFor (events ++ [(c, ol)])) D = map (itemFor events) D).
    { apply map_ext_in. intros k Hk. rewrite Hitem.
      assert (String.eqb c k = false) as ->.
      { apply String.eqb_neq. intros ->. contradiction. }
      now rewrite app_nil_r. }
    rewrite Hold, Hitem, String.eqb_refl.
    rewrite linesFor_unseen by (fold ks; now apply has_false).
    destruct ol as [line|]; cbn [keySet suggestionMap].
    + f_equal. rewrite appendDoc_app_fresh by now rewrite keys_itemFor.
      simpl. rewrite String.eqb_refl. simpl. now rewrite append_empty_r.
    + reflexivity.
Qed.

Lemma fold_visit (events : list (string * option string)) :
  fold_left visit events (mkSuggestions [] []) = stateAfter events.
Proof.
  induction events as [|e events IH] using rev_ind; [reflexivity|].
  now rewrite fold_left_app, IH, <- visit_stateAfter.
Qed.

Section Completion.

Context {realm : Realm}.

Lemma visitChildren_visit (lang : string) (jsonData : json) (keyPrefix : string)
    (children : list string) (st : Suggestions) :
  visitChildren lang jsonData keyPrefix children st
  = fold_left visit
      (map (eventOf keyPrefix (lang, jsonData))
           (upToThrow (fun childKey => getValueByKey jsonData (fullKeyOf keyPrefix childKey))
                      children))
      st.
Proof.
  revert st. induction children as [|c cs IH]; intros st; [reflexivity|].
  cbn [visitChildren upToThrow].
  destruct (getValueByKey jsonData (fullKeyOf keyPrefix c)) as [value|] eqn:E.
  - cbn [map fold_left]. rewrite IH. f_equal.
    unfold visit, eventOf, addLine, addItem. cbn [fst snd]. rewrite E. cbn [textOf].
    destruct (truthyString value); reflexivity.
  - cbn [map fold_left].
    unfold visit, eventOf, addItem. cbn [fst snd]. rewrite E. reflexivity.
Qed.

Lemma visitLanguage_visit (keyPrefix : string) (st : Suggestions)
    (entry : string * json) :
  visitLanguage keyPrefix st entry = fold_left visit (eventsOf keyPrefix entry) st.
Proof.
  destruct entry as [lang jsonData]. unfold visitLanguage, eventsOf, visitedKeys.
  cbn [snd]. apply visitChildren_visit.
Qed.

Lemma languages_visit (keyPrefix : string) (allJson : list (string * json))
    (st : Suggestions) :
  fold_left (visitLanguage keyPrefix) allJson st
  = fold_left visit (flat_map (eventsOf keyPrefix) allJson) st.
Proof.
  revert st. induction allJson as [|entry rest IH]; intros st; simpl; [reflexivity|].
  now rewrite fold_left_app, IH, visitLanguage_visit.
Qed.

Lemma keys_of_events (keyPrefix : string) (allJson : list (string * json)) :
  map fst (flat_map (eventsOf keyPrefix) allJson) = allChildKeys keyPrefix allJson.
Proof.
  unfold allChildKeys. induction allJson as [|entry rest IH]; simpl; [reflexivity|].
  rewrite map_app, IH. f_equal.
  unfold eventsOf. rewrite map_map. simpl. apply map_id.
Qed.

Lemma upToThrow_In (lookup : string -> outcome jsvalue) (children : list string)
    (c : string) :
  In c (upToThrow lookup children) -> In c children.
Proof.
  induction children as [|x xs IH]; simpl; [auto|].
  destruct (lookup x); simpl; intuition.
Qed.

Lemma upToThrow_NoDup (lookup : string -> outcome jsvalue) (children : list string) :
  NoDup children -> NoDup (upToThrow lookup children).
Proof.
  induction 1 as [|x xs Hx Hxs IH]; simpl; [constructor|].
  destruct (lookup x).
  - constructor; [|exact IH]. intros Hin. apply Hx. eapply upToThrow_In, Hin.
  - repeat constructor. intros [].
Qed.

Lemma linesFor_children (keyPrefix childKey : string) (entry : string * json)
    (children : list string) :
  NoDup children ->
  linesFor childKey (map (eventOf keyPrefix entry) children)
  = if has children childKey then
      match textOf (getValueByKey (snd entry) (fullKeyOf keyPrefix childKey)) with
      | Some text => [docLine (fst entry) text]
      | None => []
      end
    else [].
Proof.
  induction 1 as [|c cs Hc Hcs IH]; [reflexivity|].
  cbn [map linesFor flat_map]. fold (linesFor childKey (map (eventOf keyPrefix entry) cs)).
  rewrite IH. unfold has. cbn [existsb]. fold (has cs childKey).
  cbn [eventOf fst snd]. rewrite (String.eqb_sym childKey c).
  destruct (String.eqb c childKey) eqn:E.
  - apply String.eqb_eq in E. subst c.
    assert (has cs childKey = false) as -> by now apply has_false.
    rewrite app_nil_r. simpl.
    destruct (textOf _); reflexivity.
  - reflexivity.
Qed.

Lemma linesFor_language (keyPrefix childKey : string) (entry : string * json) :
  NoDup (childKeys (nodeAt keyPrefix (snd entry))) ->
  linesFor childKey (eventsOf keyPrefix entry) = lineOf keyPrefix childKey entry.
Proof.
  intros H. unfold lineOf, eventsOf. apply linesFor_children.
  unfold visitedKeys. now apply upToThrow_NoDup.
Qed.

Lemma linesFor_languages (keyPrefix childKey : string) (allJson : list (string * json)) :
  Forall (fun entry => NoDup (childKeys (nodeAt keyPrefix (snd entry)))) allJson ->
  linesFor childKey (flat_map (eventsOf keyPrefix) allJson)
  = flat_map (lineOf keyPrefix childKey) allJson.
Proof.
  induction 1 as [|entry rest H _ IH]; [reflexivity|].
  simpl. unfold linesFor in *. rewrite flat_map_app, IH. f_equal.
  now apply linesFor_language.
Qed.

(** C7 (as amended): for every key prefix and document set in which
    every node has one member per name, the completion emits each
    distinct child key it visits as a single suggestion, in first-seen
    order across the languages, and the documentation of a suggestion
    holds exactly one line per language in which the child is visited
    and its lookup is a non-empty string; a child that is a container,
    a number, a boolean, null or the empty string contributes no line.
    The children visited in a language are the keys of its node, all of
    them unless the lookup of one throws, which ends the language after
    that child.  For the key prefix CONTROLL and the trees of the claim
    there are two suggestions, buy with the lines of en (Buy) and vi
    (Mua), and sell with the line of en (Sell) only. *)
Theorem completionItems_spec :
  (forall (keyPrefix : string) (allJson : list (string * json)),
      Forall (fun entry => NoDup (childKeys (nodeAt keyPrefix (snd entry)))) allJson ->
      completionItems keyPrefix allJson = specItems keyPrefix allJson)
  /\ completionItems "CONTROLL"
       [("en", JObj [("CONTROLL", JObj [("buy", JStr "Buy"); ("sell", JStr "Sell")])]);
        ("vi", JObj [("CONTROLL", JObj [("buy", JStr "Mua")])])]
     = [mkItem "buy" "buy" (Some (docLine "en" "Buy" ++ docLine "vi" "Mua")%string);
        mkItem "sell" "sell" (Some (docLine "en" "Sell"))].
Proof.
  split; [|reflexivity].
  intros keyPrefix allJson Hwf. unfold completionItems, specItems.
  rewrite languages_visit, fold_visit. unfold stateAfter. cbn [suggestionMap].
  rewrite keys_of_events. unfold values. rewrite map_map.
  apply map_ext. intros childKey. unfold itemFor. cbn [snd].
  unfold documentationOf. now rewrite linesFor_languages.
Qed.

End Completion.

Section CompletionExamples.

#[local] Existing Instance demoRealm.

(** C7, the claim as stated fails: a child that resolves to a scalar
    leaf which is not a non-empty string (here a number) gets no
    documentation line. *)
Lemma completionItems_number_leaf_undocumented :
  completionItems "" [("en", JObj [("count", JNum 5)])]
  = [mkItem "count" "count" None]
  /\ scalarLeaf (getValueByKey (JObj [("count", JNum 5)]) "count") = true.
Proof.
  split; reflexivity.
Qed.

(** The theorem on the trees of the claim. *)
Lemma completionItems_spec_witness :
  completionItems "CONTROLL"
    [("en", JObj [("CONTROLL", JObj [("buy", JStr "Buy"); ("sell", JStr "Sell")])]);
     ("vi", JObj [("CONTROLL", JObj [("buy", JStr "Mua")])])]
  = specItems "CONTROLL"
      [("en", JObj [("CONTROLL", JObj [("buy", JStr "Buy"); ("sell", JStr "Sell")])]);
       ("vi", JObj [("CONTROLL", JObj [("buy", JStr "Mua")])])].
Proof.
  apply (proj1 (@completionItems_spec demoRealm)).
  repeat constructor; simpl; intuition discriminate.
Defined.

(** A child key with a dot that leads into a built-in function: its
    lookup throws, and the children after it are not visited. *)
Remark completionItems_stops_at_throw :
  completionItems "" [("en", JObj [("constructor.caller", JStr "x"); ("b", JStr "y")])]
  = [mkItem "constructor.caller" "constructor.caller" None]
  /\ visitedKeys "" (JObj [("constructor.caller", JStr "x"); ("b", JStr "y")])
     = ["constructor.caller"].
Proof.
  split; reflexivity.
Qed.

(** With the cursor after the dot that triggers the completion, the
    span taken by [getFullTextAtPosition] ends with that dot and the
    key prefix with it: nested prefixes then name no node. *)
Remark provideCompletionItems_after_dot :
  provideCompletionItems (mkConfig defaultMatchStrings defaultLanguages []) "html"
    "_translate.CONTROLL." 20
    [("en", JObj [("CONTROLL", JObj [("buy", JStr "Buy"); ("sell", JStr "Sell")])]);
     ("vi", JObj [("CONTROLL", JObj [("buy", JStr "Mua")])])] = Some []
  /\ getFullTextAtPosition "_translate.CONTROLL." 19 = Some "_translate.CONTROLL."
  /\ extractKeyFromFullText defaultMatchStrings "_translate.CONTROLL." = Some "CONTROLL.".
Proof.
  repeat split; reflexivity.
Qed.

End CompletionExamples.

(** ** Records in enumeration order *)

Lemma assoc_set {A : Type} (k k' : string) (v : A) (m : list (string * A)) :
  assoc k' (set k v m) = if String.eqb k k' then Some v else assoc k' m.
Proof.
  induction m as [|[k0 v0] m IH]; simpl.
  - destruct (String.eqb k k'); reflexivity.
  - destruct (String.eqb k0 k) eqn:E; simpl.
    + apply String.eqb_eq in E. subst k0.
      destruct (String.eqb k k'); reflexivity.
    + destruct (String.eqb k0 k') eqn:E'.
      * apply String.eqb_eq in E'. subst k0. now rewrite String.eqb_sym, E.
      * exact IH.
Qed.

Lemma assoc_remove {A : Type} (k k' : string) (m : list (string * A)) :
  assoc k' (remove k m) = if String.eqb k k' then None else assoc k' m.
Proof.
  induction m as [|[k0 v0] m IH]; simpl.
  - destruct (String.eqb k k'); reflexivity.
  - destruct (String.eqb k0 k) eqn:E; simpl.
    + apply String.eqb_eq in E. subst k0. rewrite IH.
      destruct (String.eqb k k'); reflexivity.
    + destruct (String.eqb k0 k') eqn:E'.
      * apply String.eqb_eq in E'. subst k0. now rewrite String.eqb_sym, E.
      * exact IH.
Qed.

Lemma assoc_keys {A : Type} (k : string) (m : list (string * A)) :
  In k (keys m) <-> exists v, assoc k m = Some v.
Proof.
  induction m as [|[k0 v0] m IH]; simpl.
  - split; [intros [] | intros [v H]; discriminate].
  - destruct (String.eqb k0 k) eqn:E.
    + apply String.eqb_eq in E. split; eauto.
    + apply String.eqb_neq in E. rewrite IH. split.
      * intros [H|H]; [contradiction | exact H].
      * auto.
Qed.

Lemma assoc_none_keys {A : Type} (k : string) (m : list (string * A)) :
  assoc k m = None <-> ~ In k (keys m).
Proof.
  rewrite assoc_keys. destruct (assoc k m) as [v|]; split; try congruence.
  - intros H. exfalso. apply H. eauto.
  - intros _ [v H]. discriminate.
Qed.

Lemma keys_set {A : Type} (k : string) (v : A) (m : list (string * A)) :
  keys (set k v m) = if has (keys m) k then keys m else keys m ++ [k].
Proof.
  induction m as [|[k0 v0] m IH]; simpl; [reflexivity|].
  unfold has. simpl. fold (has (keys m) k). rewrite (String.eqb_sym k k0).
  destruct (String.eqb k0 k) eqn:E; simpl.
  - apply String.eqb_eq in E. now subst.
  - rewrite IH. destruct (has (keys m) k); reflexivity.
Qed.

Lemma NoDup_snoc (l : list string) (x : string) :
  NoDup l -> ~ In x l -> NoDup (l ++ [x]).
Proof.
  induction 1 as [|a l Ha Hl IH]; simpl; intros Hx.
  - repeat constructor. intros [].
  - constructor.
    + rewrite in_app_iff. simpl. intros [H|[H|[]]]; [contradiction|]. subst. tauto.
    + apply IH. tauto.
Qed.

Lemma NoDup_keys_set {A : Type} (k : string) (v : A) (m : list (string * A)) :
  NoDup (keys m) -> NoDup (keys (set k v m)).
Proof.
  intros H. rewrite keys_set. destruct (has (keys m) k) eqn:E; [exact H|].
  apply NoDup_snoc; [exact H | now apply has_false].
Qed.

Lemma keys_remove_incl {A : Type} (k k' : string) (m : list (string * A)) :
  In k' (keys (remove k m)) -> In k' (keys m).
Proof.
  induction m as [|[k0 v0] m IH]; simpl; [auto|].
  destruct (String.eqb k0 k); simpl; intuition.
Qed.

Lemma NoDup_keys_remove {A : Type} (k : string) (m : list (string * A)) :
  NoDup (keys m) -> NoDup (keys (remove k m)).
Proof.
  induction m as [|[k0 v0] m IH]; simpl; intros H; [constructor|].
  inversion H as [|? ? Hk Hm]; subst.
  destruct (String.eqb k0 k); simpl; [auto|].
  constructor; [|auto]. intros Hin. apply Hk. eapply keys_remove_incl, Hin.
Qed.

Lemma In_keys_set {A : Type} (k k' : string) (v : A) (m : list (string * A)) :
  In k' (keys (set k v m)) <-> k' = k \/ In k' (keys m).
Proof.
  rewrite !assoc_keys. setoid_rewrite assoc_set.
  destruct (String.eqb k k') eqn:E.
  - apply String.eqb_eq in E. split; eauto.
  - apply String.eqb_neq in E. split; [auto|]. intros [H|H]; [congruence | exact H].
Qed.

Lemma assoc_insertNew {A : Type} (k k' : string) (v : A) (m : list (string * A)) :
  ~ In k (keys m) ->
  assoc k' (insertNew k v m) = if String.eqb k k' then Some v else assoc k' m.
Proof.
  induction m as [|[k0 v0] m IH]; intros Hk; cbn [insertNew].
  - simpl. destruct (String.eqb k k'); reflexivity.
  - destruct (enumeratedBefore k k0); [reflexivity|].
    cbn [assoc]. rewrite IH by (simpl in Hk; tauto).
    destruct (String.eqb k0 k') eqn:E0; [|reflexivity].
    destruct (String.eqb k k') eqn:E; [|reflexivity].
    apply String.eqb_eq in E0, E. subst. simpl in Hk. tauto.
Qed.

Lemma In_keys_insertNew {A : Type} (k k' : string) (v : A) (m : list (string * A)) :
  In k' (keys (insertNew k v m)) <-> k' = k \/ In k' (keys m).
Proof.
  induction m as [|[k0 v0] m IH]; cbn [insertNew].
  - simpl. intuition.
  - destruct (enumeratedBefore k k0); simpl in *; intuition.
Qed.

Lemma NoDup_keys_insertNew {A : Type} (k : string) (v : A) (m : list (string * A)) :
  NoDup (keys m) -> ~ In k (keys m) -> NoDup (keys (insertNew k v m)).
Proof.
  induction m as [|[k0 v0] m IH]; intros Hd Hk; cbn [insertNew].
  - repeat constructor. intros [].
  - destruct (enumeratedBefore k k0).
    + constructor; assumption.
    + simpl in *. inversion Hd as [|? ? H0 Hm]; subst. constructor.
      * rewrite In_keys_insertNew. intros [->|H]; tauto.
      * apply IH; tauto.
Qed.

Lemma assoc_addProperty {A : Type} (k k' : string) (v : A) (m : list (string * A)) :
  assoc k' (addProperty k v m) = if String.eqb k k' then Some v else assoc k' m.
Proof.
  unfold addProperty. destruct (has (keys m) k) eqn:E.
  - apply assoc_set.
  - apply assoc_insertNew. now apply has_false.
Qed.

Lemma In_keys_addProperty {A : Type} (k k' : string) (v : A) (m : list (string * A)) :
  In k' (keys (addProperty k v m)) <-> k' = k \/ In k' (keys m).
Proof.
  unfold addProperty. destruct (has (keys m) k); [apply In_keys_set | apply In_keys_insertNew].
Qed.

Lemma NoDup_keys_addProperty {A : Type} (k : string) (v : A) (m : list (string * A)) :
  NoDup (keys m) -> NoDup (keys (addProperty k v m)).
Proof.
  intros H. unfold addProperty. destruct (has (keys m) k) eqn:E.
  - now apply NoDup_keys_set.
  - apply NoDup_keys_insertNew; [exact H | now apply has_false].
Qed.

Lemma assoc_assign {A : Type} (k k' : string) (v : A) (m : list (string * A)) :
  assoc k' (assign k v m)
  = if String.eqb k "__proto__" then assoc k' m
    else if String.eqb k k' then Some v else assoc k' m.
Proof.
  unfold assign. destruct (String.eqb k "__proto__"); [reflexivity|].
  apply assoc_addProperty.
Qed.

Lemma assoc_assign_other {A : Type} (k k' : string) (v : A) (m : list (string * A)) :
  k' <> k -> assoc k' (assign k v m) = assoc k' m.
Proof.
  intros Hne. rewrite assoc_assign. destruct (String.eqb k "__proto__"); [reflexivity|].
  assert (String.eqb k k' = false) as ->; [|reflexivity].
  apply String.eqb_neq. congruence.
Qed.

Lemma assoc_assign_same {A : Type} (k : string) (v : A) (m : list (string * A)) :
  k <> "__proto__" -> assoc k (assign k v m) = Some v.
Proof.
  intros Hne. rewrite assoc_assign. apply String.eqb_neq in Hne.
  now rewrite Hne, String.eqb_refl.
Qed.

Lemma In_keys_assign {A : Type} (k k' : string) (v : A) (m : list (string * A)) :
  In k' (keys (assign k v m)) <-> (k' = k /\ k <> "__proto__") \/ In k' (keys m).
Proof.
  unfold assign. destruct (String.eqb k "__proto__") eqn:E.
  - apply String.eqb_eq in E. tauto.
  - apply String.eqb_neq in E. rewrite In_keys_addProperty. tauto.
Qed.

Lemma NoDup_keys_assign {A : Type} (k : string) (v : A) (m : list (string * A)) :
  NoDup (keys m) -> NoDup (keys (assign k v m)).
Proof.
  intros H. unfold assign. destruct (String.eqb k "__proto__"); [exact H|].
  now apply NoDup_keys_addProperty.
Qed.

Lemma split_cons (sep : ascii) (s : string) :
  exists seg rest, Str.split sep s = seg :: rest.
Proof.
  induction s as [|c s [seg [rest IH]]]; simpl; eauto.
  destruct (Ascii.eqb c sep); eauto. rewrite IH. eauto.
Qed.


(** ** Loading a file *)

Section LoadFile.

Context {realm : Realm}.
Variable parse : string -> option json.


Lemma valuesByLanguage_In (key lang : string) (value : value)
    (allJson : list (string * json)) :
  In (lang, value) (valuesByLanguage key allJson)
  <-> exists jsonData : json, In (lang, jsonData) allJson
                       /\ getValueByKey jsonData key = Returned (Some value).
Proof.
  induction allJson as [|[l t] rest IH]; simpl.
  - split; [intros [] | intros [t [[] _]]].
  - destruct (getValueByKey t key) as [[v|]|] eqn:E; simpl; rewrite IH; split.
    + intros [[= <- <-]|[t' [Hin Hv]]]; [exists t; auto | exists t'; auto].
    + intros [t' [[[= <- <-]|Hin] Hv]]; [left; congruence | right; eauto].
    + intros [t' [Hin Hv]]. eauto.
    + intros [t' [[[= <- <-]|Hin] Hv]]; [congruence | eauto].
    + intros [t' [Hin Hv]]. eauto.
    + intros [t' [[[= <- <-]|Hin] Hv]]; [congruence | eauto].
Qed.



End LoadFile.

Section LoadFileExamples.

#[local] Existing Instance demoRealm.



End LoadFileExamples.

(** ** The two loops of [handleJsonCacheAndWatcher] *)

Section StoreProofs.

Context {realm : Realm}.
Variable resolve : string -> string.
Variable basename : string -> string.
Variable parse : string -> option json.

Lemma has_cons (x k : string) (l : list string) :
  has (x :: l) k = String.eqb k x || has l k.
Proof.
  reflexivity.
Qed.

Lemma has_app (l1 l2 : list string) (k : string) :
  has (l1 ++ l2) k = has l1 k || has l2 k.
Proof.
  unfold has. apply existsb_app.
Qed.

Lemma has_ext (l1 l2 : list string) (k : string) :
  (In k l1 <-> In k l2) -> has l1 k = has l2 k.
Proof.
  intros H. destruct (has l2 k) eqn:E.
  - apply has_In, H, has_In, E.
  - apply has_false. rewrite H. now apply has_false.
Qed.

Lemma loadFile_cache (fs : FileSystem) (relativePath fullPath label : string)
    (s : Store) :
  jsonCache (loadFile parse fs relativePath fullPath label s)
  = assign label (loadedDocument parse fs fullPath) (jsonCache s)
  /\ jsonWatchers (loadFile parse fs relativePath fullPath label s) = jsonWatchers s
  /\ jsonPathLabels (loadFile parse fs relativePath fullPath label s) = jsonPathLabels s.
Proof.
  unfold loadFile, loadedDocument.
  destruct (readJson parse fs fullPath); repeat split; reflexivity.
Qed.

(** The first loop, one path at a time. *)
Lemma trackPath_step (fs : FileSystem) (acc : Pass) (relativePath : string) :
  let acc' := trackPath resolve basename parse fs acc relativePath in
  let fullPath := resolve relativePath in
  newFullPaths acc' = newFullPaths acc ++ [fullPath]
  /\ newLabels acc' = addProperty fullPath (basename fullPath) (newLabels acc)
  /\ jsonPathLabels (store acc') = jsonPathLabels (store acc)
  /\ jsonCache (store acc')
     = assign (basename fullPath) (loadedDocument parse fs fullPath) (jsonCache (store acc))
  /\ jsonWatchers (store acc')
     = match assoc fullPath (jsonWatchers (store acc)) with
       | Some _ => jsonWatchers (store acc)
       | None => addProperty fullPath (mkWatcher relativePath fullPath (basename fullPath))
                     (jsonWatchers (store acc))
       end.
Proof.
  intros acc' fullPath. unfold acc', trackPath. fold fullPath.
  destruct (loadFile_cache fs relativePath fullPath (basename fullPath) (store acc))
    as [Hc [Hw Hl]].
  rewrite Hw.
  destruct (assoc fullPath (jsonWatchers (store acc))); cbn [store newFullPaths newLabels
    jsonCache jsonWatchers jsonPathLabels]; repeat split; auto.
Qed.

Lemma trackPath_fold (fs : FileSystem) (configPaths : list string) (acc : Pass) :
  let acc' := fold_left (trackPath resolve basename parse fs) configPaths acc in
  newFullPaths acc' = newFullPaths acc ++ fullPathsOf resolve configPaths
  /\ (forall p, assoc p (newLabels acc')
                = if has (fullPathsOf resolve configPaths) p then Some (basename p)
                  else assoc p (newLabels acc))
  /\ jsonPathLabels (store acc') = jsonPathLabels (store acc)
  /\ jsonCache (store acc')
     = loadAll resolve basename parse fs configPaths (jsonCache (store acc))
  /\ (forall p, In p (keys (jsonWatchers (store acc')))
                <-> In p (keys (jsonWatchers (store acc)))
                    \/ In p (fullPathsOf resolve configPaths))
  /\ (NoDup (keys (jsonWatchers (store acc)))
      -> NoDup (keys (jsonWatchers (store acc'))))
  /\ (forall p w, assoc p (jsonWatchers (store acc')) = Some w ->
                  assoc p (jsonWatchers (store acc)) = Some w
                  \/ (watchedFullPath w = p /\ watchedLabel w = basename p)).
Proof.
  revert acc. induction configPaths as [|rel rest IH]; intros acc; cbn zeta.
  - simpl. rewrite app_nil_r. repeat split; auto; tauto.
  - cbn [fold_left]. specialize (IH (trackPath resolve basename parse fs acc rel)).
    cbn zeta in IH.
    destruct (trackPath_step fs acc rel) as [Hn [Hl [Hp [Hc Hw]]]].
    destruct IH as [IHn [IHl [IHp [IHc [IHk [IHd IHw]]]]]].
    set (full := resolve rel) in *.
    assert (Hkeys : forall p,
              In p (keys (jsonWatchers (store (trackPath resolve basename parse fs acc rel))))
              <-> p = full \/ In p (keys (jsonWatchers (store acc)))).
    { intros p. rewrite Hw.
      destruct (assoc full (jsonWatchers (store acc))) as [w|] eqn:E.
      - split; [auto|]. intros [->|H]; [|exact H]. apply assoc_keys. eauto.
      - apply In_keys_addProperty. }
    split; [|split; [|split; [|split; [|split; [|split]]]]].
    + rewrite IHn, Hn, <- app_assoc. reflexivity.
    + intros p. rewrite IHl, Hl, assoc_addProperty. unfold fullPathsOf. cbn [map].
      fold (fullPathsOf resolve rest). fold full. rewrite has_cons.
      rewrite (String.eqb_sym p full).
      destruct (has (fullPathsOf resolve rest) p); [now rewrite orb_true_r|].
      rewrite orb_false_r. destruct (String.eqb full p) eqn:E; [|reflexivity].
      apply String.eqb_eq in E. now subst.
    + now rewrite IHp, Hp.
    + rewrite IHc, Hc. reflexivity.
    + intros p. rewrite IHk, Hkeys. unfold fullPathsOf. cbn [map In].
      fold (fullPathsOf resolve rest). fold full. intuition.
    + intros Hd. apply IHd. rewrite Hw.
      destruct (assoc full (jsonWatchers (store acc))); [exact Hd|].
      now apply NoDup_keys_addProperty.
    + intros p w H. apply IHw in H. destruct H as [H|H]; [|auto].
      rewrite Hw in H.
      destruct (assoc full (jsonWatchers (store acc))) eqn:E; [auto|].
      rewrite assoc_addProperty in H. destruct (String.eqb full p) eqn:Ep; [|auto].
      apply String.eqb_eq in Ep. injection H as <-. subst p. right. auto.
Qed.

(** The cache after the first loop. *)
Lemma loadAll_keys (fs : FileSystem) (configPaths : list string)
    (cache : list (string * json)) (l : string) :
  In l (keys (loadAll resolve basename parse fs configPaths cache))
  <-> (In l (labelsOf resolve basename configPaths) /\ l <> "__proto__")
      \/ In l (keys cache).
Proof.
  revert cache. unfold loadAll, labelsOf, fullPathsOf.
  induction configPaths as [|rel rest IH]; intros cache; simpl; [tauto|].
  rewrite IH, In_keys_assign. split.
  - intros [H|[[-> H]|H]]; auto.
    left. tauto.
  - intros [[[<-|H] Hl]|H]; auto.
Qed.

Lemma loadAll_NoDup (fs : FileSystem) (configPaths : list string)
    (cache : list (string * json)) :
  NoDup (keys cache) ->
  NoDup (keys (loadAll resolve basename parse fs configPaths cache)).
Proof.
  revert cache. unfold loadAll.
  induction configPaths as [|rel rest IH]; intros cache H; simpl; [exact H|].
  apply IH. now apply NoDup_keys_assign.
Qed.

Lemma find_app {A : Type} (f : A -> bool) (l1 l2 : list A) :
  find f (l1 ++ l2) = match find f l1 with Some x => Some x | None => find f l2 end.
Proof.
  induction l1 as [|a l1 IH]; simpl; [reflexivity|].
  destruct (f a); [reflexivity | exact IH].
Qed.

Lemma loadAll_assoc (fs : FileSystem) (configPaths : list string)
    (cache : list (string * json)) (l : string) :
  l <> "__proto__" ->
  assoc l (loadAll resolve basename parse fs configPaths cache)
  = match lastWithLabel resolve basename configPaths l with
    | Some p => Some (loadedDocument parse fs p)
    | None => assoc l cache
    end.
Proof.
  intros Hl. revert cache. unfold loadAll, lastWithLabel, fullPathsOf.
  induction configPaths as [|rel rest IH]; intros cache; simpl; [reflexivity|].
  rewrite IH, find_app. simpl.
  destruct (find _ (rev (map resolve rest))); [reflexivity|].
  rewrite assoc_assign.
  destruct (String.eqb (basename (resolve rel)) l) eqn:E.
  - apply String.eqb_eq in E. rewrite E. apply String.eqb_neq in Hl. now rewrite Hl.
  - destruct (String.eqb (basename (resolve rel)) "__proto__"); reflexivity.
Qed.

Lemma evicts_cons (newPaths : list string) (labels : list (string * string))
    (q : string) (entries : list string) (l : string) :
  evicts newPaths labels (q :: entries) l
  = (negb (has newPaths q)
     && match assoc q labels with
        | Some lab => negb (String.eqb lab "") && String.eqb lab l
        | None => false
        end)
    || evicts newPaths labels entries l.
Proof.
  reflexivity.
Qed.

Lemma evicts_remove (newPaths : list string) (labels : list (string * string))
    (q : string) (entries : list string) (l : string) :
  ~ In q entries ->
  evicts newPaths (remove q labels) entries l = evicts newPaths labels entries l.
Proof.
  intros Hq. unfold evicts. induction entries as [|e entries IH]; [reflexivity|].
  cbn [existsb]. rewrite IH by (simpl in Hq; tauto). rewrite assoc_remove.
  assert (String.eqb q e = false) as ->; [|reflexivity].
  apply String.eqb_neq. simpl in Hq. intros ->. tauto.
Qed.

(** The second loop over a snapshot of the watchers. *)
Lemma evictPath_fold (newPaths : list string) (entries : list (string * Watcher))
    (t : Store) :
  NoDup (keys entries) ->
  let t' := fold_left (evictPath newPaths) entries t in
  (forall p, assoc p (jsonWatchers t')
             = if has (keys entries) p && negb (has newPaths p) then None
               else assoc p (jsonWatchers t))
  /\ (forall l, assoc l (jsonCache t')
                = if evicts newPaths (jsonPathLabels t) (keys entries) l then None
                  else assoc l (jsonCache t))
  /\ (NoDup (keys (jsonCache t)) -> NoDup (keys (jsonCache t')))
  /\ (NoDup (keys (jsonWatchers t)) -> NoDup (keys (jsonWatchers t')))
  /\ console t' = console t.
Proof.
  revert t. induction entries as [|[q w] entries IH]; intros t Hnd; cbn zeta.
  - simpl. repeat split; auto.
  - cbn [fold_left]. cbn [keys map fst] in Hnd. fold (keys entries) in Hnd.
    inversion Hnd as [|? ? Hq Hnd']; subst.
    specialize (IH (evictPath newPaths t (q, w)) Hnd'). cbn zeta in IH.
    destruct IH as [IHw [IHc [IHdc [IHdw IHo]]]].
    cbn [keys map fst]. fold (keys entries).
    unfold evictPath in *. cbn [fst] in *.
    destruct (has newPaths q) eqn:Hnew.
    + split; [|split; [|split; [|split]]]; auto.
      * intros p. rewrite IHw, has_cons.
        destruct (String.eqb p q) eqn:E; [|reflexivity].
        apply String.eqb_eq in E. subst p. rewrite Hnew.
        assert (has (keys entries) q = false) as -> by now apply has_false.
        reflexivity.
      * intros l. rewrite IHc, evicts_cons, Hnew. reflexivity.
    + cbn [jsonCache jsonWatchers jsonPathLabels console] in *.
      split; [|split; [|split; [|split]]]; auto.
      * intros p. rewrite IHw, has_cons, assoc_remove, (String.eqb_sym p q).
        destruct (String.eqb q p) eqn:E.
        -- apply String.eqb_eq in E. subst p. rewrite Hnew. simpl.
           destruct (has (keys entries) q); reflexivity.
        -- reflexivity.
      * intros l. rewrite IHc, evicts_cons, Hnew, evicts_remove by assumption.
        cbn [negb andb].
        destruct (assoc q (jsonPathLabels t)) as [lab|]; [|reflexivity].
        destruct (String.eqb lab ""); [reflexivity|]. cbn [negb andb].
        rewrite assoc_remove.
        destruct (String.eqb lab l); destruct (evicts _ _ _ l); reflexivity.
      * intros Hd. apply IHdc.
        destruct (assoc q (jsonPathLabels t)) as [lab|]; [|exact Hd].
        destruct (String.eqb lab ""); [exact Hd|]. now apply NoDup_keys_remove.
      * intros Hd. apply IHdw. now apply NoDup_keys_remove.
Qed.

Lemma evicts_removedLabel (s : Store) (configPaths : list string)
    (entries : list string) (l : string) :
  consistent basename s ->
  (forall p, In p entries <-> In p (tracked s) \/ In p (fullPathsOf resolve configPaths)) ->
  evicts (fullPathsOf resolve configPaths) (jsonPathLabels s) entries l
  = removedLabel resolve basename s configPaths l.
Proof.
  intros Hs Hentries.
  destruct (removedLabel resolve basename s configPaths l) eqn:E.
  - unfold removedLabel in E. apply existsb_exists in E.
    destruct E as [q [Hq E]]. apply andb_true_iff in E. destruct E as [Hnew Hl].
    unfold evicts. apply existsb_exists. exists q. split.
    + apply Hentries. auto.
    + rewrite Hnew. rewrite (labels_recorded Hs).
      assert (has (tracked s) q = true) as -> by now apply has_In.
      rewrite Hl. rewrite andb_true_r.
      pose proof (tracked_labels_nonempty Hs q Hq) as Hne.
      apply String.eqb_neq in Hne. now rewrite Hne.
  - destruct (evicts _ _ entries l) eqn:E'; [|reflexivity].
    unfold evicts in E'. apply existsb_exists in E'.
    destruct E' as [q [Hq E']]. apply andb_true_iff in E'. destruct E' as [Hnew Hl].
    rewrite (labels_recorded Hs) in Hl.
    destruct (has (tracked s) q) eqn:Ht; [|discriminate].
    apply andb_true_iff in Hl. destruct Hl as [_ Hl].
    rewrite <- E. symmetry. unfold removedLabel. apply existsb_exists.
    exists q. split; [now apply has_In|]. now rewrite Hnew, Hl.
Qed.

(** One call of [handleJsonCacheAndWatcher] on a consistent store. *)
Lemma handleJsonCacheAndWatcher_spec (fs : FileSystem) (configPaths : list string)
    (s : Store) :
  consistent basename s ->
  (forall p, In p (fullPathsOf resolve configPaths) -> basename p <> "") ->
  let s' := handleJsonCacheAndWatcher resolve basename parse fs configPaths s in
  (forall p, In p (tracked s') <-> In p (fullPathsOf resolve configPaths))
  /\ (forall l, assoc l (jsonCache s')
                = if removedLabel resolve basename s configPaths l then None
                  else assoc l (loadAll resolve basename parse fs configPaths (jsonCache s)))
  /\ consistent basename s'.
Proof.
  intros Hs Hne s'. unfold s', handleJsonCacheAndWatcher.
  destruct (trackPath_fold fs configPaths (mkPass s [] []))
    as [Hn [Hl [Hp [Hc [Hk [Hd Hw]]]]]].
  cbn [store newFullPaths newLabels app] in *.
  set (loaded := fold_left (trackPath resolve basename parse fs) configPaths
                   (mkPass s [] [])) in *.
  rewrite Hn.
  destruct (@evictPath_fold (fullPathsOf resolve configPaths)
              (jsonWatchers (store loaded)) (store loaded))
    as [Ew [Ec [Edc [Edw _]]]].
  { apply Hd, (watchers_one_per_path Hs). }
  set (s2 := fold_left (evictPath (fullPathsOf resolve configPaths))
               (jsonWatchers (store loaded)) (store loaded)) in *.
  cbn [jsonCache jsonWatchers jsonPathLabels console].
  assert (Htracked : forall p, In p (keys (jsonWatchers s2))
                               <-> In p (fullPathsOf resolve configPaths)).
  { intros p. rewrite assoc_keys, Ew.
    destruct (has (fullPathsOf resolve configPaths) p) eqn:E.
    - rewrite andb_false_r. rewrite <- assoc_keys, Hk.
      apply has_In in E. tauto.
    - apply has_false in E. rewrite andb_true_r.
      destruct (has (keys (jsonWatchers (store loaded))) p) eqn:E'.
      + split; [intros [v H]; discriminate | contradiction].
      + apply has_false in E'. rewrite <- assoc_keys. tauto. }
  assert (Hcache : forall l, assoc l (jsonCache s2)
            = if removedLabel resolve basename s configPaths l then None
              else assoc l (loadAll resolve basename parse fs configPaths (jsonCache s))).
  { intros l. rewrite Ec, Hp, Hc.
    rewrite (@evicts_removedLabel s configPaths); auto. }
  split; [exact Htracked|]. split; [exact Hcache|].
  constructor; cbn [jsonCache jsonWatchers jsonPathLabels console].
  - apply Edc. rewrite Hc. apply loadAll_NoDup, (cache_one_per_label Hs).
  - apply Edw, Hd, (watchers_one_per_path Hs).
  - intros p w H. rewrite Ew in H.
    destruct (has _ p && negb _); [discriminate|].
    apply Hw in H. destruct H as [H|H]; [|exact H].
    apply (watcher_captures Hs), H.
  - intros p. rewrite Hl. unfold tracked. cbn [jsonWatchers].
    rewrite (has_ext _ _ p (Htracked p)).
    destruct (has (fullPathsOf resolve configPaths) p); reflexivity.
  - intros p Hp'. apply Hne, Htracked, Hp'.
  - intros l Hin. unfold tracked. cbn [jsonWatchers].
    apply assoc_keys in Hin. destruct Hin as [v Hv]. rewrite Hcache in Hv.
    destruct (removedLabel resolve basename s configPaths l) eqn:Er; [discriminate|].
    assert (Hin : In l (keys (loadAll resolve basename parse fs configPaths (jsonCache s))))
      by (apply assoc_keys; eauto).
    apply loadAll_keys in Hin. destruct Hin as [[Hin _]|Hin].
    + unfold labelsOf in Hin. apply in_map_iff in Hin.
      destruct Hin as [p [<- Hp']]. exists p. split; [now apply Htracked | reflexivity].
    + destruct (cached_labels_tracked Hs l Hin) as [p [Hp' <-]].
      exists p. split; [|reflexivity]. apply Htracked.
      destruct (has (fullPathsOf resolve configPaths) p) eqn:E; [now apply has_In|].
      exfalso. unfold removedLabel in Er.
      assert (existsb (fun q => negb (has (fullPathsOf resolve configPaths) q)
                                && String.eqb (basename q) (basename p)) (tracked s) = true);
        [|congruence].
      apply existsb_exists. exists p. split; [exact Hp'|].
      now rewrite E, String.eqb_refl.
  - intros Hin. apply assoc_keys in Hin. destruct Hin as [v Hv]. rewrite Hcache in Hv.
    destruct (removedLabel resolve basename s configPaths "__proto__"); [discriminate|].
    assert (Hin : In "__proto__"
                     (keys (loadAll resolve basename parse fs configPaths (jsonCache s))))
      by (apply assoc_keys; eauto).
    apply loadAll_keys in Hin. destruct Hin as [[_ Hin]|Hin]; [congruence|].
    apply (proto_not_cached Hs), Hin.
Qed.

Lemma consistent_emptyStore : consistent basename emptyStore.
Proof.
  constructor; simpl; try constructor; try tauto; try discriminate.
Qed.

Lemma consistent_assign_cache (s : Store) (p : string) (document : json)
    (console' : list string) :
  consistent basename s ->
  In p (tracked s) ->
  consistent basename
    (mkStore (assign (basename p) document (jsonCache s)) (jsonWatchers s)
             (jsonPathLabels s) console').
Proof.
  intros Hs Hp. constructor; cbn [jsonCache jsonWatchers jsonPathLabels].
  - apply NoDup_keys_assign, (cache_one_per_label Hs).
  - apply (watchers_one_per_path Hs).
  - apply (watcher_captures Hs).
  - apply (labels_recorded Hs).
  - apply (tracked_labels_nonempty Hs).
  - intros l Hin. apply In_keys_assign in Hin. destruct Hin as [[-> _]|Hin].
    + exists p. auto.
    + apply (cached_labels_tracked Hs), Hin.
  - intros Hin. apply In_keys_assign in Hin. destruct Hin as [[E Hne]|Hin].
    + congruence.
    + apply (proto_not_cached Hs), Hin.
Qed.

(** A file event keeps the store consistent and the watchers as they are. *)
Lemma step_file_event (s : Store) (e : event) :
  consistent basename s ->
  fileEvent e ->
  consistent basename (step resolve basename parse s e)
  /\ tracked (step resolve basename parse s e) = tracked s.
Proof.
  intros Hs He. destruct e as [fs P|fs p|fs p|p]; [contradiction| | |];
    cbn [step]; destruct (assoc p (jsonWatchers s)) as [w|] eqn:E; auto.
  - destruct (watcher_captures Hs p E) as [Hf Hl]. rewrite Hf, Hl.
    assert (Hp : In p (tracked s)) by (apply assoc_keys; eauto).
    unfold loadFile. destruct (readJson parse fs p);
      split; try reflexivity; now apply consistent_assign_cache.
  - destruct (watcher_captures Hs p E) as [Hf Hl]. rewrite Hf, Hl.
    assert (Hp : In p (tracked s)) by (apply assoc_keys; eauto).
    unfold loadFile. destruct (readJson parse fs p);
      split; try reflexivity; now apply consistent_assign_cache.
  - destruct (watcher_captures Hs p E) as [Hf Hl]. rewrite Hl.
    assert (Hp : In p (tracked s)) by (apply assoc_keys; eauto).
    split; [now apply consistent_assign_cache | reflexivity].
Qed.

(** Every run of valid events keeps the store consistent, and the
    watched paths are those of the configuration in force. *)
Lemma run_consistent (events : list event) (s : Store) (current : list string) :
  consistent basename s ->
  (forall p, In p (tracked s) <-> In p current) ->
  Forall (validEvent resolve basename) events ->
  consistent basename (run resolve basename parse s events)
  /\ (forall p, In p (tracked (run resolve basename parse s events))
                <-> In p (currentPaths resolve events current)).
Proof.
  revert s current. induction events as [|e events IH]; intros s current Hs Ht Hv.
  - simpl. auto.
  - inversion Hv as [|? ? He Hv']; subst. unfold run in *. cbn [fold_left].
    destruct e as [fs P|fs p|fs p|p].
    + destruct (@handleJsonCacheAndWatcher_spec fs P s Hs (proj1 He)) as [Ht' [_ Hs']].
      cbn [step currentPaths]. apply IH; auto.
    + destruct (@step_file_event s (FileChanged fs p) Hs I) as [Hs' Ht'].
      cbn [currentPaths]. apply IH; auto. intros q. now rewrite Ht'.
    + destruct (@step_file_event s (FileCreated fs p) Hs I) as [Hs' Ht'].
      cbn [currentPaths]. apply IH; auto. intros q. now rewrite Ht'.
    + destruct (@step_file_event s (FileDeleted p) Hs I) as [Hs' Ht'].
      cbn [currentPaths]. apply IH; auto. intros q. now rewrite Ht'.
Qed.

Lemma currentPaths_unique (events : list event) (current : list string) :
  uniqueLabels basename current ->
  Forall (validEvent resolve basename) events ->
  uniqueLabels basename (currentPaths resolve events current).
Proof.
  revert current. induction events as [|e events IH]; intros current Hu Hv; [exact Hu|].
  inversion Hv as [|? ? He Hv']; subst.
  destruct e as [fs P|fs p|fs p|p]; cbn [currentPaths]; auto.
  apply IH; [|exact Hv']. exact (proj2 He).
Qed.

Lemma currentPaths_file_events (events : list event) (current : list string) :
  Forall fileEvent events -> currentPaths resolve events current = current.
Proof.
  induction 1 as [|e events He _ IH]; [reflexivity|].
  destruct e; [contradiction| | |]; exact IH.
Qed.

Lemma fileEvent_valid (events : list event) :
  Forall fileEvent events -> Forall (validEvent resolve basename) events.
Proof.
  induction 1 as [|e events He _ IH]; constructor; [|exact IH].
  destruct e; [contradiction| | |]; exact I.
Qed.

(** C9 (as amended): provided every configuration handed to the store
    gives its paths non-empty labels and no two of its paths the same
    label, after any sequence of such configurations and of file
    events every label of the document set returned by
    [getAllCachedJson] is the label of exactly one currently
    configured path, and the set holds one tree per label;
    when a configuration drops a path, the label of the path is absent
    from the document set right after the call, and (unless a path that
    stays configured has the same label) stays absent through every
    later file event, so no value is found for it; and the entry of a
    label of no dropped path (other than [__proto__], which the cache
    cannot hold) is the document (re)loaded from its own file, or the
    entry it had. *)
Theorem store_labels_are_configured (events : list event) :
  Forall (validEvent resolve basename) events ->
  let s := run resolve basename parse emptyStore events in
  let paths := currentPaths resolve events [] in
  (forall l, In l (keys (getAllCachedJson s)) ->
     exists p, In p paths /\ basename p = l
               /\ forall q, In q paths -> basename q = l -> q = p)
  /\ NoDup (keys (getAllCachedJson s))
  /\ (forall fs configPaths q,
        validConfig resolve basename configPaths ->
        In q paths -> ~ In q (fullPathsOf resolve configPaths) ->
        let s' := step resolve basename parse s (Configure fs configPaths) in
        ~ In (basename q) (keys (getAllCachedJson s'))
        /\ forall key value,
             ~ In (basename q, value) (valuesByLanguage key (getAllCachedJson s')))
  /\ (forall fs configPaths later q,
        validConfig resolve basename configPaths ->
        Forall fileEvent later ->
        In q paths -> ~ In (basename q) (labelsOf resolve basename configPaths) ->
        let s' := run resolve basename parse s (Configure fs configPaths :: later) in
        ~ In (basename q) (keys (getAllCachedJson s'))
        /\ forall key value,
             ~ In (basename q, value) (valuesByLanguage key (getAllCachedJson s')))
  /\ (forall fs configPaths l,
        validConfig resolve basename configPaths ->
        removedLabel resolve basename s configPaths l = false ->
        l <> "__proto__" ->
        assoc l (getAllCachedJson (step resolve basename parse s (Configure fs configPaths)))
        = match lastWithLabel resolve basename configPaths l with
          | Some p => Some (loadedDocument parse fs p)
          | None => assoc l (getAllCachedJson s)
          end).
Proof.
  intros Hv s paths.
  destruct (@run_consistent events emptyStore [] consistent_emptyStore) as [Hs Ht];
    [simpl; tauto | exact Hv |].
  fold s in Hs, Ht. fold paths in Ht.
  assert (Hu : uniqueLabels basename paths).
  { apply currentPaths_unique; [|exact Hv]. intros p q []. }
  assert (Hmiss : forall (t : Store) (l : string),
            ~ In l (keys (getAllCachedJson t)) ->
            forall key value, ~ In (l, value) (valuesByLanguage key (getAllCachedJson t))).
  { intros t l Hl key value Hin. apply valuesByLanguage_In in Hin.
    destruct Hin as [doc [Hin _]]. apply Hl. apply in_map_iff.
    exists (l, doc). auto. }
  unfold getAllCachedJson in *.
  split; [|split; [|split; [|split]]].
  - intros l Hl. destruct (cached_labels_tracked Hs l Hl) as [p [Hp Hb]].
    apply Ht in Hp. exists p. repeat split; auto.
    intros q Hq Hbq. apply Hu; auto. congruence.
  - apply (cache_one_per_label Hs).
  - intros fs P q HP Hq Hnew. cbv zeta.
    set (s' := step resolve basename parse s (Configure fs P)).
    assert (Hgone : ~ In (basename q) (keys (jsonCache s'))).
    { destruct (@handleJsonCacheAndWatcher_spec fs P s Hs (proj1 HP)) as [_ [Hc _]].
      apply assoc_none_keys. unfold s'. cbn [step]. rewrite Hc.
      assert (removedLabel resolve basename s P (basename q) = true) as ->;
        [|reflexivity].
      unfold removedLabel. apply existsb_exists. exists q. split; [now apply Ht|].
      rewrite String.eqb_refl, andb_true_r. apply negb_true_iff.
      now apply has_false. }
    split; [exact Hgone | now apply Hmiss].
  - intros fs P later q HP Hlater Hq Hlabel. cbv zeta.
    set (s' := run resolve basename parse s (Configure fs P :: later)).
    assert (Hgone : ~ In (basename q) (keys (jsonCache s'))).
    { destruct (@handleJsonCacheAndWatcher_spec fs P s Hs (proj1 HP)) as [Ht1 [_ Hs1]].
      destruct (@run_consistent later _ (fullPathsOf resolve P) Hs1 Ht1
                  (fileEvent_valid Hlater)) as [Hs2 Ht2].
      rewrite currentPaths_file_events in Ht2 by assumption.
      intros Hin. unfold s', run in Hin. cbn [fold_left] in Hin.
      destruct (cached_labels_tracked Hs2 _ Hin) as [p [Hp Hb]].
      apply Ht2 in Hp. apply Hlabel. unfold labelsOf. rewrite <- Hb.
      now apply in_map. }
    split; [exact Hgone | now apply Hmiss].
  - intros fs P l HP Hl Hproto.
    destruct (@handleJsonCacheAndWatcher_spec fs P s Hs (proj1 HP)) as [_ [Hc _]].
    cbn [step]. rewrite Hc, Hl. now apply loadAll_assoc.
Qed.

(** The earlier revision never drops a label: whatever the new
    configuration, every label of the cache stays in it. *)
Lemma legacy_keeps_labels (fs : FileSystem) (configPaths : list string)
    (s : Store) (l : string) :
  In l (keys (jsonCache s)) ->
  In l (keys (jsonCache (legacyHandleJsonCacheAndWatcher resolve basename parse
                           fs configPaths s))).
Proof.
  intros Hin. unfold legacyHandleJsonCacheAndWatcher.
  destruct (trackPath_fold fs configPaths (mkPass s [] [])) as [_ [_ [_ [Hc _]]]].
  rewrite Hc. apply loadAll_keys. auto.
Qed.

End StoreProofs.

(** The theorem on a workspace with two languages, from which the
    configuration then drops [vi]. *)
Lemma store_labels_are_configured_witness :
  let s := run posixResolve posixBasename demoParse emptyStore
             [Configure demoDisk ["i18n/en.json"; "i18n/vi.json"]] in
  let s' := step posixResolve posixBasename demoParse s
              (Configure demoDisk ["i18n/en.json"]) in
  keys (getAllCachedJson s) = ["en"; "vi"]
  /\ ~ In (posixBasename "/ws/i18n/vi.json") (keys (getAllCachedJson s'))
  /\ assoc "en" (getAllCachedJson s')
     = Some (JObj [("CONTROLL", JObj [("buy", JStr "Buy")])]).
Proof.
  intros s s'.
  assert (Hvalid2 : validConfig posixResolve posixBasename ["i18n/en.json"; "i18n/vi.json"]).
  { split.
    - intros p Hp. vm_compute in Hp. destruct Hp as [<-|[<-|[]]]; discriminate.
    - intros p q Hp Hq. vm_compute in Hp, Hq.
      destruct Hp as [<-|[<-|[]]]; destruct Hq as [<-|[<-|[]]];
        intros E; try reflexivity; discriminate. }
  assert (Hvalid1 : validConfig posixResolve posixBasename ["i18n/en.json"]).
  { split.
    - intros p Hp. vm_compute in Hp. destruct Hp as [<-|[]]. discriminate.
    - intros p q Hp Hq. vm_compute in Hp, Hq.
      destruct Hp as [<-|[]]; destruct Hq as [<-|[]]. reflexivity. }
  pose proof (@store_labels_are_configured demoRealm posixResolve posixBasename demoParse
                [Configure demoDisk ["i18n/en.json"; "i18n/vi.json"]]) as H.
  destruct H as [_ [_ [Hdrop [_ Hkeep]]]].
  - repeat constructor; exact (proj1 Hvalid2) || exact (proj2 Hvalid2).
  - split; [reflexivity|]. split.
    + apply (Hdrop demoDisk ["i18n/en.json"] "/ws/i18n/vi.json" Hvalid1).
      * vm_compute. auto.
      * vm_compute. intros [H|[]]. discriminate.
    + unfold s', s.
      rewrite (Hkeep demoDisk ["i18n/en.json"] "en" Hvalid1); [reflexivity..|discriminate].
Defined.

(** C9, the claim as stated fails for the configurations the theorem
    leaves out.  The path [/] has the empty label, which the eviction
    never deletes: after the path is dropped its label is still in the
    document set.  Two configured paths with one label share one tree;
    when one of them is dropped, the label leaves the document set
    although the other path is still configured. *)
Lemma store_label_not_of_one_path :
  keys (getAllCachedJson
          (run posixResolve posixBasename demoParse emptyStore
             [Configure demoDisk ["/"]; Configure demoDisk []])) = [""]
  /\ currentPaths posixResolve [Configure demoDisk ["/"]; Configure demoDisk []] [] = []
  /\ keys (getAllCachedJson
             (run posixResolve posixBasename demoParse emptyStore
                [Configure demoDisk ["i18n/en.json"; "other/en.json"]])) = ["en"]
  /\ labelsOf posixResolve posixBasename ["i18n/en.json"; "other/en.json"] = ["en"; "en"]
  /\ keys (getAllCachedJson
             (run posixResolve posixBasename demoParse emptyStore
                [Configure demoDisk ["i18n/en.json"; "other/en.json"];
                 Configure demoDisk ["i18n/en.json"]])) = []
  /\ currentPaths posixResolve
       [Configure demoDisk ["i18n/en.json"; "other/en.json"];
        Configure demoDisk ["i18n/en.json"]] [] = ["/ws/i18n/en.json"].
Proof.
  repeat split; reflexivity.
Qed.

(* ================================================================= *)
(** * Further properties of the code *)

(** ** Nested lookup, composed *)

Lemma split_join (sep : ascii) (a b : string) :
  Str.split sep (a ++ String sep b) = Str.split sep a ++ Str.split sep b.
Proof.
  induction a as [|c a IH]; simpl.
  - now rewrite Ascii.eqb_refl.
  - destruct (Ascii.eqb c sep); rewrite IH; [reflexivity|].
    destruct (split_cons sep a) as [seg [rest ->]]. reflexivity.
Qed.

Lemma split_no_separator (sep : ascii) (s : string) :
  (forall pre post, s <> (pre ++ String sep post)%string) ->
  Str.split sep s = [s].
Proof.
  induction s as [|c s IH]; intros H; simpl; [reflexivity|].
  destruct (Ascii.eqb c sep) eqn:E.
  - apply Ascii.eqb_eq in E. subst c. exfalso. apply (H "" s). reflexivity.
  - rewrite IH; [reflexivity|]. intros pre post ->.
    apply (H (String c pre) post). reflexivity.
Qed.

Section LookupComposed.

Context {realm : Realm}.

Lemma getValueByKey_joined_aux (tree : value) (parent child : string) :
  getValueByKey tree (parent ++ "." ++ child)
  = lookupIn (getValueByKey tree parent) child.
Proof.
  unfold getValueByKey, lookupIn. simpl append. rewrite split_join, walk_app.
  destruct (fold_left readNext (Str.split "." parent) (Returned (Some tree)))
    as [[node|]|]; [reflexivity | |].
  - destruct (split_cons "." child) as [seg [rest ->]]. apply walk_undefined.
  - apply walk_thrown.
Qed.

(** X1: the lookup of a key made of two keys joined by a dot is the
    lookup of the second key in the value the first key leads to;
    it is [undefined] when the first key leads nowhere, and it throws
    when the lookup of the first key does. *)
Theorem getValueByKey_joined (tree : json) (parent child : string) :
  getValueByKey tree (parent ++ "." ++ child)
  = match getValueByKey tree parent with
    | Returned (Some node) => getValueByKey node child
    | Returned None => Returned None
    | Thrown => Thrown
    end.
Proof.
  apply getValueByKey_joined_aux.
Qed.

(** X2: in the completion loop, the value looked up for a child key
    that holds no dot is the property of the language's node under that
    name; for a child key with a dot it is not: the part before the
    dot is looked up first, and the rest in what that gives. *)
Theorem completion_child_value (keyPrefix : string) (jsonData : json) :
  (forall childKey,
      (forall pre post, childKey <> (pre ++ "." ++ post)%string) ->
      getValueByKey jsonData (fullKeyOf keyPrefix childKey)
      = andThen (nodeAt keyPrefix jsonData) (fun node => opt_index node childKey))
  /\ (forall head rest,
        getValueByKey jsonData (fullKeyOf keyPrefix (head ++ "." ++ rest))
        = match getValueByKey jsonData (fullKeyOf keyPrefix head) with
          | Returned (Some node) => getValueByKey node rest
          | Returned None => Returned None
          | Thrown => Thrown
          end).
Proof.
  split.
  - intros childKey Hdot. unfold fullKeyOf, nodeAt.
    assert (Hone : forall node : value,
              getValueByKey node childKey = opt_index (Some node) childKey).
    { intros node. unfold getValueByKey.
      rewrite (@split_no_separator "."%char childKey Hdot).
      cbn [fold_left readNext andThen]. reflexivity. }
    destruct (String.eqb keyPrefix ""); [apply Hone|].
    rewrite getValueByKey_joined_aux. unfold lookupIn.
    destruct (getValueByKey jsonData keyPrefix) as [[node|]|];
      [apply Hone | reflexivity | reflexivity].
  - intros head rest. unfold fullKeyOf.
    destruct (String.eqb keyPrefix ""); [apply getValueByKey_joined_aux|].
    change (match getValueByKey jsonData (keyPrefix ++ "." ++ head) with
            | Returned (Some node) => getValueByKey node rest
            | Returned None => Returned None
            | Thrown => Thrown
            end)
      with (lookupIn (getValueByKey jsonData (keyPrefix ++ "." ++ head)) rest).
    rewrite <- getValueByKey_joined_aux. f_equal.
    now rewrite !append_assoc.
Qed.

End LookupComposed.

Section LookupComposedExamples.

#[local] Existing Instance demoRealm.

(** X2 on the trees of the completion example, and on a member whose
    name holds a dot. *)
Lemma completion_child_value_witness :
  getValueByKey (JObj [("CONTROLL", JObj [("buy", JStr "Buy")])])
    (fullKeyOf "CONTROLL" "buy") = Returned (Some (Json (JStr "Buy")))
  /\ getValueByKey (JObj [("a.b", JStr "x")]) (fullKeyOf "" "a.b") = Returned None.
Proof.
  split.
  - rewrite (proj1 (completion_child_value "CONTROLL"
                      (JObj [("CONTROLL", JObj [("buy", JStr "Buy")])])) "buy");
      [reflexivity|].
    intros pre post H.
    destruct pre as [|c1 [|c2 [|c3 [|c4 pre]]]]; simpl in H; discriminate.
  - exact (eq_trans (proj2 (completion_child_value "" (JObj [("a.b", JStr "x")]))
                       "a" "b") eq_refl).
Defined.

End LookupComposedExamples.

(** ** The pattern built from the variable names *)

Lemma nullable_matches (r : Regex.regex) :
  Regex.nullable r = true -> Regex.matches r "".
Proof.
  induction r as [| | | |r1 IH1 r2 IH2|r1 IH1 r2 IH2|r IH]; simpl; intros H;
    try discriminate.
  - constructor.
  - apply andb_true_iff in H. destruct H as [H1 H2].
    change "" with ("" ++ "")%string. constructor; auto.
  - apply orb_true_iff in H. destruct H as [H|H];
      [apply Regex.MAltL | apply Regex.MAltR]; auto.
  - constructor.
Qed.

Lemma matches_cat_cons (a : ascii) (r1 r2 : Regex.regex) (s : string) :
  (forall s1, Regex.matches (Regex.deriv a r1) s1 -> Regex.matches r1 (String a s1)) ->
  Regex.matches (Regex.Cat (Regex.deriv a r1) r2) s ->
  Regex.matches (Regex.Cat r1 r2) (String a s).
Proof.
  intros IH H. inversion H as [| | |? ? s1 s2 H1 H2| | | |]; subst.
  change (String a (s1 ++ s2)) with (String a s1 ++ s2)%string.
  constructor; auto.
Qed.

Lemma deriv_matches (a : ascii) (r : Regex.regex) (s : string) :
  Regex.matches (Regex.deriv a r) s -> Regex.matches r (String a s).
Proof.
  revert s. induction r as [| |c|p|r1 IH1 r2 IH2|r1 IH1 r2 IH2|r IH];
    simpl; intros s H.
  - inversion H.
  - inversion H.
  - destruct (Ascii.eqb c a) eqn:E; [|inversion H].
    apply Ascii.eqb_eq in E. subst c. inversion H; subst. constructor.
  - destruct (p a) eqn:E; [|inversion H].
    inversion H; subst. now constructor.
  - destruct (Regex.nullable r1) eqn:E.
    + inversion H as [| | | |? ? ? H'|? ? ? H'| |]; subst.
      * now apply matches_cat_cons.
      * change (String a s) with ("" ++ String a s)%string.
        constructor; [now apply nullable_matches | auto].
    + now apply matches_cat_cons.
  - inversion H; subst; [apply Regex.MAltL | apply Regex.MAltR]; auto.
  - inversion H as [| | |? ? s1 s2 H1 H2| | | |]; subst.
    change (String a (s1 ++ s2)) with (String a s1 ++ s2)%string.
    constructor; auto.
Qed.

Lemma matchesAtStart_sound (s : string) (r : Regex.regex) :
  Regex.matchesAtStart r s = true ->
  exists m post, s = (m ++ post)%string /\ Regex.matches r m.
Proof.
  revert r. induction s as [|a s IH]; intros r H; simpl in H.
  - rewrite orb_false_r in H. exists "", "". split; [reflexivity|].
    now apply nullable_matches.
  - apply orb_true_iff in H. destruct H as [H|H].
    + exists "", (String a s). split; [reflexivity | now apply nullable_matches].
    + destruct (IH _ H) as [m [post [-> Hm]]].
      exists (String a m), post. split; [reflexivity | now apply deriv_matches].
Qed.

Lemma test_sound (r : Regex.regex) (s : string) :
  Regex.test r s = true ->
  exists pre m post, s = (pre ++ m ++ post)%string /\ Regex.matches r m.
Proof.
  induction s as [|a s IH]; intros H; cbn [Regex.test] in H.
  - rewrite orb_false_r in H. apply matchesAtStart_sound in H.
    destruct H as [m [post [E Hm]]]. exists "", m, post. auto.
  - apply orb_true_iff in H. destruct H as [H|H].
    + apply matchesAtStart_sound in H.
      destruct H as [m [post [E Hm]]]. exists "", m, post. auto.
    + destruct (IH H) as [pre [m [post [-> Hm]]]].
      exists (String a pre), m, post. auto.
Qed.

Lemma test_complete (r : Regex.regex) (pre m post : string) :
  Regex.matches r m -> Regex.test r (pre ++ m ++ post) = true.
Proof.
  intros Hm. induction pre as [|a pre IH]; simpl.
  - apply test_at_start. now apply matchesAtStart_complete.
  - rewrite IH. apply orb_true_r.
Qed.

Lemma matches_lit_inv (v s : string) :
  Regex.matches (Regex.lit v) s -> s = v.
Proof.
  revert s. induction v as [|c v IH]; simpl; intros s H.
  - inversion H. reflexivity.
  - inversion H as [| | |? ? s1 s2 H1 H2| | | |]; subst.
    inversion H1; subst. simpl. f_equal. auto.
Qed.

Lemma matches_alternatives_inv (vars : list string) (s : string) :
  vars <> [] -> Regex.matches (alternatives vars) s -> In s vars.
Proof.
  induction vars as [|v vars IH]; intros Hne H; [congruence|].
  destruct vars as [|v' vars].
  - left. symmetry. now apply matches_lit_inv.
  - change (alternatives (v :: v' :: vars))
      with (Regex.Alt (Regex.lit v) (alternatives (v' :: vars))) in H.
    inversion H; subst.
    + left. symmetry. now apply matches_lit_inv.
    + right. apply IH; [discriminate | assumption].
Qed.

(** X3: the pattern of [buildRegexFromVariables] is not anchored: for
    a non-empty list of variable names its test succeeds exactly on the
    texts in which one of the names occurs somewhere; for the empty
    list it succeeds on every text. *)
Theorem buildRegexFromVariables_test (vars : list string) (text : string) :
  (vars <> [] ->
   (Regex.test (buildRegexFromVariables vars) text = true
    <-> exists v pre post, In v vars /\ text = (pre ++ v ++ post)%string))
  /\ Regex.test (buildRegexFromVariables []) text = true.
Proof.
  split.
  - intros Hne. split.
    + intros H. apply test_sound in H. destruct H as [pre [m [post [-> Hm]]]].
      unfold buildRegexFromVariables in Hm.
      inversion Hm as [| | |? ? s1 s2 H1 H2| | | |]; subst.
      apply matches_alternatives_inv in H1; [|assumption].
      exists s1, pre, (s2 ++ post)%string. split; [assumption|].
      now rewrite append_assoc.
    + intros [v [pre [post [Hin ->]]]]. apply test_complete.
      unfold buildRegexFromVariables. rewrite <- (append_empty_r v).
      constructor; [now apply matches_alternatives | constructor].
  - apply test_at_start. destruct text; reflexivity.
Qed.

(** X3 on the default names: a text that only mentions a name passes
    the test, although no prefix is recognized in it. *)
Lemma buildRegexFromVariables_test_witness :
  Regex.test (buildRegexFromVariables defaultMatchStrings) "x.translate" = true
  /\ extractKeyFromFullText defaultMatchStrings "x.translate" = None.
Proof.
  split; [|reflexivity].
  apply (proj1 (buildRegexFromVariables_test defaultMatchStrings "x.translate"));
    [discriminate|].
  exists "translate", "x.", "". split; [simpl; auto | reflexivity].
Defined.

(** ** Prefix recognition, read backwards *)

Lemma firstPrefixKey_some (fullText key : string) (prefixes : list string) :
  firstPrefixKey fullText prefixes = Some key ->
  exists prefix, In prefix prefixes
    /\ ((fullText = prefix /\ key = "")
        \/ fullText = (prefix ++ "." ++ key)%string).
Proof.
  induction prefixes as [|p ps IH]; simpl; [discriminate|].
  destruct (String.eqb fullText p || Str.startsWith fullText (p ++ ".")) eqn:E.
  - apply recognizes_test in E. intros [= <-]. exists p. split; [auto|].
    destruct E as [->|[rest ->]].
    + left. split; [reflexivity | apply remainder_bare].
    + right. now rewrite remainder_dotted.
  - intros H. destruct (IH H) as [q [Hq Hr]]. exists q. auto.
Qed.

(** X4: a key returned by [extractKeyFromFullText] gives the text back:
    the text is a configured prefix and the key is empty, or the text
    is a configured prefix, a dot and the key; and the result is none
    exactly for the empty text and for a text no configured prefix
    recognizes. *)
Theorem extractKeyFromFullText_inverse (matchStrings : list string)
    (fullText : string) :
  (forall key, extractKeyFromFullText matchStrings fullText = Some key ->
     exists prefix, In prefix matchStrings
       /\ ((fullText = prefix /\ key = "")
           \/ fullText = (prefix ++ "." ++ key)%string))
  /\ (extractKeyFromFullText matchStrings fullText = None
      <-> fullText = ""
          \/ forall prefix, In prefix matchStrings -> ~ recognizes prefix fullText).
Proof.
  destruct (String.eqb fullText "") eqn:E0.
  - apply String.eqb_eq in E0. subst fullText. split.
    + intros key H. discriminate.
    + split; auto.
  - apply String.eqb_neq in E0.
    rewrite extractKeyFromFullText_loop by assumption. split.
    + intros key. apply firstPrefixKey_some.
    + split.
      * intros H. right. intros prefix Hin Hr.
        induction matchStrings as [|p ps IH]; [contradiction|].
        simpl in H.
        destruct (String.eqb fullText p || Str.startsWith fullText (p ++ ".")) eqn:E;
          [discriminate|].
        destruct Hin as [->|Hin]; [|now apply IH].
        apply recognizes_test in Hr. congruence.
      * intros [H|H]; [contradiction | now apply firstPrefixKey_none].
Qed.

(** X4 on a text of the default configuration. *)
Lemma extractKeyFromFullText_inverse_witness :
  exists prefix, In prefix defaultMatchStrings
    /\ (("this._translate.A.B" = prefix /\ "A.B" = "")
        \/ "this._translate.A.B" = (prefix ++ "." ++ "A.B")%string).
Proof.
  apply (proj1 (extractKeyFromFullText_inverse defaultMatchStrings "this._translate.A.B")).
  reflexivity.
Defined.

(** ** The best key does not depend on the order of the languages *)

Section OrderFree.

Context {realm : Realm}.

Lemma existsIn_In (trees : list json) (key : string) :
  existsIn trees key = true
  <-> exists jsonData : json,
        In jsonData trees /\ hasValue (getValueByKey jsonData key) = true.
Proof.
  unfold existsIn. apply existsb_exists.
Qed.

Lemma existsIn_same_trees (trees trees' : list json) (key : string) :
  (forall t, In t trees <-> In t trees') ->
  existsIn trees key = existsIn trees' key.
Proof.
  intros H. destruct (existsIn trees' key) eqn:E.
  - apply existsIn_In in E. destruct E as [t [Hin Hd]].
    apply existsIn_In. exists t. split; [now apply H | exact Hd].
  - destruct (existsIn trees key) eqn:E'; [|reflexivity].
    apply existsIn_In in E'. destruct E' as [t [Hin Hd]].
    rewrite <- E. symmetry. apply existsIn_In. exists t.
    split; [now apply H | exact Hd].
Qed.

Lemma find_ext_all {A : Type} (f g : A -> bool) (l : list A) :
  (forall x, f x = g x) -> find f l = find g l.
Proof.
  intros H. induction l as [|a l IH]; simpl; [reflexivity|].
  rewrite H, IH. reflexivity.
Qed.

(** X5: [getBestKeyFromFullText] depends on the document set only
    through the set of its trees: two document sets with the same trees,
    in any order and under any labels, give the same key. *)
Theorem getBestKeyFromFullText_order_free (matchStrings : list string)
    (span : string) (allJson allJson' : list (string * json)) :
  (forall jsonData, In jsonData (values allJson) <-> In jsonData (values allJson')) ->
  getBestKeyFromFullText matchStrings span allJson
  = getBestKeyFromFullText matchStrings span allJson'.
Proof.
  intros H. rewrite !getBestKeyFromFullText_find.
  destruct (String.eqb (stripQuotes span) ""); [reflexivity|].
  apply find_ext_all. intros key. now apply existsIn_same_trees.
Qed.

End OrderFree.

Section OrderFreeExamples.

#[local] Existing Instance demoRealm.

(** X5 on two languages in the two orders. *)
Lemma getBestKeyFromFullText_order_free_witness :
  getBestKeyFromFullText defaultMatchStrings "_translate.a"
    [("en", JObj [("a", JStr "x")]); ("vi", JObj [("_translate", JObj [])])]
  = getBestKeyFromFullText defaultMatchStrings "_translate.a"
      [("vi", JObj [("_translate", JObj [])]); ("en", JObj [("a", JStr "x")])].
Proof.
  apply getBestKeyFromFullText_order_free.
  intros jsonData. simpl. tauto.
Defined.

End OrderFreeExamples.

(** ** Span extraction, in full *)

Lemma scanLeft_allowed (lineText : string) (n i : nat) :
  scanLeft lineText n <= i -> i < n -> isAllowed (Str.charAt lineText i) = true.
Proof.
  induction n as [|n IH]; simpl; intros Hlo Hhi; [lia|].
  destruct (isAllowed (Str.charAt lineText n)) eqn:E.
  - destruct (Nat.eq_dec i n) as [->|Hne]; [exact E|]. apply IH; lia.
  - lia.
Qed.

Lemma scanLeft_stops (lineText : string) (n : nat) :
  scanLeft lineText n = 0
  \/ isAllowed (Str.charAt lineText (scanLeft lineText n - 1)) = false.
Proof.
  induction n as [|n IH]; simpl; [auto|].
  destruct (isAllowed (Str.charAt lineText n)) eqn:E; [exact IH|].
  right. simpl. now rewrite Nat.sub_0_r.
Qed.

Lemma scanRight_allowed (fuel : nat) (lineText : string) (e i : nat) :
  e <= i -> i < scanRight fuel lineText e ->
  isAllowed (Str.charAt lineText i) = true.
Proof.
  revert e. induction fuel as [|fuel IH]; simpl; intros e Hlo Hhi; [lia|].
  destruct (Nat.ltb e (String.length lineText)
            && isAllowed (Str.charAt lineText e)) eqn:E; [|lia].
  apply andb_true_iff in E. destruct E as [_ E].
  destruct (Nat.eq_dec i e) as [->|Hne]; [exact E|]. apply (IH (S e)); lia.
Qed.

Lemma scanRight_le_length (fuel : nat) (lineText : string) (e : nat) :
  e <= String.length lineText ->
  scanRight fuel lineText e <= String.length lineText.
Proof.
  revert e. induction fuel as [|fuel IH]; simpl; intros e He; [exact He|].
  destruct (Nat.ltb e (String.length lineText)) eqn:E; simpl; [|exact He].
  apply Nat.ltb_lt in E.
  destruct (isAllowed (Str.charAt lineText e)); [|exact He]. apply IH. lia.
Qed.

(** X6: for a cursor inside a non-empty line, [getFullTextAtPosition]
    returns the text from [start] to [end] where: every character from
    the cursor up to [end] is in the alphabet, and [end] is the end of
    the line or a character outside the alphabet; every character from
    [start] up to, but not including, the one just before the cursor is
    in the alphabet, and [start] is the start of the line or follows a
    character outside the alphabet.  The character just before the
    cursor is the only one of the span that is not tested. *)
Theorem getFullTextAtPosition_bounds (lineText : string) (character : nat) :
  lineText <> "" -> 0 < character <= String.length lineText ->
  exists start end_,
    getFullTextAtPosition lineText character
    = Some (Str.substring start end_ lineText)
    /\ start <= character - 1 /\ character <= end_ <= String.length lineText
    /\ (forall i, character <= i < end_ -> isAllowed (Str.charAt lineText i) = true)
    /\ (end_ = String.length lineText
        \/ isAllowed (Str.charAt lineText end_) = false)
    /\ (forall i, start <= i < character - 1 ->
                  isAllowed (Str.charAt lineText i) = true)
    /\ (start = 0 \/ isAllowed (Str.charAt lineText (start - 1)) = false).
Proof.
  intros Hne [Hpos Hlen].
  exists (scanLeft lineText (character - 1)),
         (scanRight (String.length lineText) lineText character).
  pose proof (scanLeft_le lineText (character - 1)) as Hl.
  pose proof (scanRight_ge (String.length lineText) lineText character) as Hr.
  split.
  { unfold getFullTextAtPosition. apply String.eqb_neq in Hne. rewrite Hne.
    rewrite <- Nat.sub_1_r.
    assert (Nat.eqb (scanLeft lineText (character - 1))
              (scanRight (String.length lineText) lineText character) = false) as ->;
      [apply Nat.eqb_neq; lia | reflexivity]. }
  split; [exact Hl|]. split; [split; [exact Hr | now apply scanRight_le_length]|].
  split; [intros i [Hlo Hhi]; eapply scanRight_allowed; eauto|].
  split.
  { pose proof (@scanRight_stops (String.length lineText) lineText character) as Hs.
    destruct (Nat.ltb (scanRight (String.length lineText) lineText character)
                (String.length lineText)) eqn:E.
    - right. apply Hs. lia.
    - left. apply Nat.ltb_ge in E.
      pose proof (@scanRight_le_length (String.length lineText) lineText character Hlen).
      lia. }
  split; [intros i [Hlo Hhi]; eapply scanLeft_allowed; eauto|].
  apply scanLeft_stops.
Qed.

(** X6 on a line of code, with the cursor inside the reference. *)
Lemma getFullTextAtPosition_bounds_witness :
  exists start end_,
    getFullTextAtPosition "x = _translate.A;" 8
    = Some (Str.substring start end_ "x = _translate.A;")
    /\ start <= 8 - 1 /\ 8 <= end_ <= String.length "x = _translate.A;"
    /\ (forall i, 8 <= i < end_ ->
                  isAllowed (Str.charAt "x = _translate.A;" i) = true)
    /\ (end_ = String.length "x = _translate.A;"
        \/ isAllowed (Str.charAt "x = _translate.A;" end_) = false)
    /\ (forall i, start <= i < 8 - 1 ->
                  isAllowed (Str.charAt "x = _translate.A;" i) = true)
    /\ (start = 0 \/ isAllowed (Str.charAt "x = _translate.A;" (start - 1)) = false).
Proof.
  apply getFullTextAtPosition_bounds; [discriminate | simpl; lia].
Defined.

Lemma substring_whole (s : string) :
  String.substring 0 (String.length s) s = s.
Proof.
  induction s as [|a s IH]; simpl; [reflexivity | now rewrite IH].
Qed.

Lemma scanLeft_all (lineText : string) (n : nat) :
  (forall i, i < n -> isAllowed (Str.charAt lineText i) = true) ->
  scanLeft lineText n = 0.
Proof.
  induction n as [|n IH]; simpl; intros H; [reflexivity|].
  rewrite (H n) by lia. apply IH. intros i Hi. apply H. lia.
Qed.

Lemma scanRight_all (fuel : nat) (lineText : string) (e : nat) :
  (forall i, i < String.length lineText -> isAllowed (Str.charAt lineText i) = true) ->
  e <= String.length lineText -> String.length lineText - e <= fuel ->
  scanRight fuel lineText e = String.length lineText.
Proof.
  intros Hall. revert e. induction fuel as [|fuel IH]; simpl; intros e He Hf; [lia|].
  destruct (Nat.ltb e (String.length lineText)) eqn:E; simpl.
  - apply Nat.ltb_lt in E. rewrite (Hall e E). apply IH; lia.
  - apply Nat.ltb_ge in E. lia.
Qed.

Lemma getFullTextAtPosition_whole_line_aux (lineText : string) (character : nat) :
  lineText <> "" ->
  (forall i, i < String.length lineText -> isAllowed (Str.charAt lineText i) = true) ->
  character <= String.length lineText ->
  getFullTextAtPosition lineText character = Some lineText.
Proof.
  intros Hne Hall Hc. unfold getFullTextAtPosition.
  apply String.eqb_neq in Hne. rewrite Hne.
  rewrite scanLeft_all by (intros i Hi; apply Hall; lia).
  rewrite scanRight_all by (auto; lia).
  assert (Nat.eqb 0 (String.length lineText) = false) as ->.
  { apply Nat.eqb_neq. apply String.eqb_neq in Hne. destruct lineText; simpl; [congruence | lia]. }
  unfold Str.substring. now rewrite Nat.sub_0_r, substring_whole.
Qed.

(** X7: on a non-empty line made of characters of the alphabet only,
    the span is the whole line wherever the cursor is, so a cursor that
    follows the dot which triggers a completion gets a span that ends
    with that dot. *)
Theorem getFullTextAtPosition_whole_line (lineText : string) (character : nat) :
  lineText <> "" ->
  (forall i, i < String.length lineText -> isAllowed (Str.charAt lineText i) = true) ->
  character <= String.length lineText ->
  getFullTextAtPosition lineText character = Some lineText.
Proof.
  intros. now apply getFullTextAtPosition_whole_line_aux.
Qed.

(** X7 on the text of a nested reference followed by the dot. *)
Lemma getFullTextAtPosition_whole_line_witness :
  getFullTextAtPosition "_translate.CONTROLL." 19 = Some "_translate.CONTROLL.".
Proof.
  apply getFullTextAtPosition_whole_line; [discriminate | | simpl; lia].
  intros i Hi. do 20 (destruct i as [|i]; [reflexivity|]). simpl in Hi. lia.
Defined.

(** X8: [getFullTextAtPosition] returns none exactly when the line is
    empty, or the cursor is at the first column and the first character
    is outside the alphabet; anywhere else in the line a span is
    returned, whatever the characters around the cursor. *)
Theorem getFullTextAtPosition_none (lineText : string) (character : nat) :
  character <= String.length lineText ->
  (getFullTextAtPosition lineText character = None
   <-> lineText = ""
       \/ (character = 0 /\ isAllowed (Str.charAt lineText 0) = false)).
Proof.
  intros Hc. unfold getFullTextAtPosition.
  destruct (String.eqb lineText "") eqn:E0.
  { apply String.eqb_eq in E0. split; auto. }
  apply String.eqb_neq in E0.
  assert (Hlen : 0 < String.length lineText).
  { destruct lineText; simpl; [congruence | lia]. }
  pose proof (scanLeft_le lineText (Nat.pred character)) as Hl.
  pose proof (scanRight_ge (String.length lineText) lineText character) as Hr.
  destruct character as [|character].
  - simpl Nat.pred in *. cbn [scanLeft].
    destruct (String.length lineText) as [|n] eqn:En; [lia|].
    cbn [scanRight]. rewrite En.
    change (Nat.ltb 0 (S n)) with true. cbn [andb].
    destruct (isAllowed (Str.charAt lineText 0)) eqn:Ea.
    + pose proof (scanRight_ge n lineText 1) as H1.
      destruct (Nat.eqb 0 (scanRight n lineText 1)) eqn:E.
      * apply Nat.eqb_eq in E. lia.
      * split; [discriminate|]. intros [H|[_ H]]; congruence.
    + simpl. split; auto.
  - simpl Nat.pred in *.
    destruct (Nat.eqb (scanLeft lineText character)
                (scanRight (String.length lineText) lineText (S character))) eqn:E.
    + apply Nat.eqb_eq in E. lia.
    + split; [discriminate|]. intros [H|[H _]]; [contradiction | discriminate].
Qed.

(** X8 at the first column of a line that starts with a quote. *)
Lemma getFullTextAtPosition_none_witness :
  getFullTextAtPosition "'CONTROLL.buy' | translate" 0 = None.
Proof.
  apply getFullTextAtPosition_none; [simpl; lia|].
  right. split; reflexivity.
Defined.

(** ** Completion after the triggering dot *)

Section CompletionAtEnd.

Context {realm : Realm}.

Lemma visitLanguage_no_keys (keyPrefix : string) (st : Suggestions)
    (entry : string * json) :
  childKeys (nodeAt keyPrefix (snd entry)) = [] ->
  visitLanguage keyPrefix st entry = st.
Proof.
  destruct entry as [lang jsonData]. simpl. intros H.
  unfold visitLanguage. now rewrite H.
Qed.

Lemma nodeAt_trailing_dot (key : string) (jsonData : json) :
  nodeAt (key ++ ".") jsonData = lookupIn (getValueByKey jsonData key) "".
Proof.
  unfold nodeAt.
  assert (String.eqb (key ++ ".") "" = false) as ->.
  { apply String.eqb_neq. destruct key; discriminate. }
  change (key ++ ".")%string with (key ++ "." ++ "")%string.
  apply getValueByKey_joined_aux.
Qed.

Lemma childKeys_no_value (node : outcome jsvalue) :
  hasValue node = false -> childKeys node = [].
Proof.
  destruct node as [[v|]|]; simpl; [discriminate | reflexivity | reflexivity].
Qed.

(** X9: when the line is a text of the alphabet and the cursor is at
    its end, the completion provider works on the whole line: it
    returns nothing when the language of the document is not enabled
    or no prefix is recognized, and otherwise the suggestions of the
    extracted key prefix.  After the dot that follows a nested key the
    key prefix ends with that dot, its node is the property named by
    the empty string of the node of the key, and there is no
    suggestion when in no tree that property has a value. *)
Theorem provideCompletionItems_at_end_of_text :
  (forall (config : Config) (languageId lineText : string)
          (allJson : list (string * json)),
      lineText <> "" ->
      (forall i, i < String.length lineText ->
                 isAllowed (Str.charAt lineText i) = true) ->
      provideCompletionItems config languageId lineText (String.length lineText) allJson
      = if includes (workInFiles config) languageId then
          match extractKeyFromFullText (matchStrings config) lineText with
          | Some keyPrefix => Some (completionItems keyPrefix allJson)
          | None => None
          end
        else None)
  /\ (forall (key : string) (allJson : list (string * json)),
        (forall entry : string * json, In entry allJson ->
           hasValue (lookupIn (getValueByKey (snd entry) key) "") = false) ->
        completionItems (key ++ ".") allJson = []).
Proof.
  split.
  - intros config languageId lineText allJson Hne Hall. unfold provideCompletionItems.
    destruct (includes (workInFiles config) languageId); [|reflexivity].
    cbn [negb]. cbv iota.
    rewrite getFullTextAtPosition_whole_line_aux; auto; [|lia].
    apply String.eqb_neq in Hne. now rewrite Hne.
  - intros key allJson Hnone. unfold completionItems.
    assert (H : forall st, fold_left (visitLanguage (key ++ ".")) allJson st = st).
    { induction allJson as [|entry rest IH]; intros st; simpl; [reflexivity|].
      rewrite visitLanguage_no_keys.
      - apply IH. intros e He. apply Hnone. simpl; auto.
      - apply childKeys_no_value. rewrite nodeAt_trailing_dot.
        apply Hnone. simpl; auto. }
    rewrite H. reflexivity.
Qed.

End CompletionAtEnd.

Section CompletionAtEndExamples.

#[local] Existing Instance demoRealm.

(** X9 on the nested reference of the completion example. *)
Lemma provideCompletionItems_at_end_of_text_witness :
  provideCompletionItems (mkConfig defaultMatchStrings defaultLanguages []) "html"
    "_translate.CONTROLL." 20
    [("en", JObj [("CONTROLL", JObj [("buy", JStr "Buy")])])]
  = Some (completionItems "CONTROLL."
            [("en", JObj [("CONTROLL", JObj [("buy", JStr "Buy")])])])
  /\ provideCompletionItems (mkConfig defaultMatchStrings defaultLanguages []) "python"
       "_translate.CONTROLL." 20
       [("en", JObj [("CONTROLL", JObj [("buy", JStr "Buy")])])] = None
  /\ completionItems ("CONTROLL" ++ ".")
       [("en", JObj [("CONTROLL", JObj [("buy", JStr "Buy")])])] = [].
Proof.
  split; [|split].
  - refine (eq_trans (proj1 provideCompletionItems_at_end_of_text
                        (mkConfig defaultMatchStrings defaultLanguages []) "html"
                        "_translate.CONTROLL." _ _ _) eq_refl).
    + discriminate.
    + intros i Hi. do 20 (destruct i as [|i]; [reflexivity|]). simpl in Hi. lia.
  - refine (eq_trans (proj1 provideCompletionItems_at_end_of_text
                        (mkConfig defaultMatchStrings defaultLanguages []) "python"
                        "_translate.CONTROLL." _ _ _) eq_refl).
    + discriminate.
    + intros i Hi. do 20 (destruct i as [|i]; [reflexivity|]). simpl in Hi. lia.
  - apply (proj2 provideCompletionItems_at_end_of_text).
    intros entry [<-|[]]. reflexivity.
Defined.

End CompletionAtEndExamples.

(** ** The hover provider *)

Section HoverProofs.

Context {realm : Realm}.

Lemma hoverMarkdown_blocks (key : string) (allJson : list (string * json))
    (markdownText : string) :
  hoverMarkdown key allJson markdownText
  = (markdownText ++ joinLines (renderedBlocks key allJson))%string.
Proof.
  unfold renderedBlocks.
  revert markdownText. induction allJson as [|[lang jsonData] rest IH];
    intros markdownText; cbn [hoverMarkdown valuesByLanguage].
  - simpl. now rewrite append_empty_r.
  - destruct (getValueByKey jsonData key) as [[value|]|]; try apply IH.
    cbn [flat_map fst snd].
    destruct (templateText value) as [text|]; rewrite IH; [|reflexivity].
    simpl. now rewrite append_assoc.
Qed.

Lemma trim_visible (c : ascii) (rest : string) :
  Text.isWhitespace c = false -> Text.trim (String c rest) <> "".
Proof.
  intros Hc. unfold Text.trim. simpl. rewrite Hc. simpl.
  destruct (Text.trimEnd rest); [rewrite Hc|]; discriminate.
Qed.

Lemma bestKey_has_value (matchStrings : list string) (fullText key : string)
    (allJson : list (string * json)) :
  getBestKeyFromFullText matchStrings fullText allJson = Some key ->
  fullText <> "" /\ valuesByLanguage key allJson <> [].
Proof.
  intros H. split.
  - intros ->. discriminate.
  - rewrite getBestKeyFromFullText_find in H.
    destruct (String.eqb (stripQuotes fullText) ""); [discriminate|].
    apply find_some in H. destruct H as [_ H].
    apply existsIn_spec in H. destruct H as [lang [jsonData [value [Hin Hv]]]].
    intros E.
    assert (Hin' : In (lang, value) (valuesByLanguage key allJson))
      by (apply valuesByLanguage_In; eauto).
    rewrite E in Hin'. contradiction.
Qed.

Lemma joinLines_blocks_visible (key : string) (allJson : list (string * json)) :
  String.eqb (Text.trim (joinLines (renderedBlocks key allJson))) ""
  = match renderedBlocks key allJson with [] => true | _ => false end.
Proof.
  unfold renderedBlocks.
  induction (valuesByLanguage key allJson) as [|[lang value] rest IH]; [reflexivity|].
  cbn [flat_map fst snd]. destruct (templateText value) as [text|]; [|exact IH].
  apply String.eqb_neq. simpl. apply trim_visible. reflexivity.
Qed.

(** X10: the hover provider shows a hover exactly when the language of
    the document is enabled, a span is found at the cursor,
    [getBestKeyFromFullText] returns a key, and the text of the value
    can be taken in at least one language; the hover then holds one
    block per language in which the key has a value whose text can be
    taken, in the order of the document set.  A key that is found has a
    value in some language, and the text of a string can always be
    taken; but when every value of the key is an object whose
    conversion to text throws, the key is found and no hover is
    shown. *)
Theorem provideHover_shown (config : Config) (languageId lineText : string)
    (character : nat) (allJson : list (string * json)) :
  (forall markdownText,
      provideHover config languageId lineText character allJson = Some markdownText
      <-> exists fullText key,
            includes (workInFiles config) languageId = true
            /\ getFullTextAtPosition lineText character = Some fullText
            /\ getBestKeyFromFullText (matchStrings config) fullText allJson = Some key
            /\ renderedBlocks key allJson <> []
            /\ markdownText = joinLines (renderedBlocks key allJson))
  /\ (forall fullText key,
        getBestKeyFromFullText (matchStrings config) fullText allJson = Some key ->
        valuesByLanguage key allJson <> []
        /\ forall lang text,
             In (lang, Json (JStr text)) (valuesByLanguage key allJson) ->
             In (hoverBlock lang text) (renderedBlocks key allJson)).
Proof.
  split.
  - intros markdownText. unfold provideHover. split.
    + destruct (includes (workInFiles config) languageId) eqn:El; [|discriminate].
      simpl negb. cbv iota.
      destruct (getFullTextAtPosition lineText character) as [fullText|] eqn:Ef;
        [|discriminate].
      destruct (String.eqb fullText ""); [discriminate|].
      destruct (getBestKeyFromFullText (matchStrings config) fullText allJson)
        as [key|] eqn:Ek; [|discriminate].
      rewrite hoverMarkdown_blocks. cbn [append].
      rewrite joinLines_blocks_visible.
      destruct (renderedBlocks key allJson) as [|block blocks] eqn:Eb; [discriminate|].
      intros [= <-]. exists fullText, key. rewrite Eb.
      repeat split; auto. discriminate.
    + intros [fullText [key [El [Ef [Ek [Hb ->]]]]]].
      rewrite El, Ef. simpl negb. cbv iota.
      destruct (bestKey_has_value _ _ _ Ek) as [Hne _].
      apply String.eqb_neq in Hne. rewrite Hne, Ek.
      rewrite hoverMarkdown_blocks. cbn [append].
      rewrite joinLines_blocks_visible.
      destruct (renderedBlocks key allJson); [congruence | reflexivity].
  - intros fullText key Ek. split; [apply (bestKey_has_value _ _ _ Ek)|].
    intros lang text Hin. unfold renderedBlocks. apply in_flat_map.
    exists (lang, Json (JStr text)). split; [exact Hin|]. simpl. auto.
Qed.

End HoverProofs.

Section HoverExamples.

#[local] Existing Instance demoRealm.

(** X10 on the two languages of the completion example, and on a key
    whose only value is an object with a member named [toString]: the
    key is found, and there is no hover. *)
Lemma provideHover_shown_witness :
  provideHover (mkConfig defaultMatchStrings defaultLanguages []) "html"
    "{{ _translate.CONTROLL.buy }}" 16
    [("en", JObj [("CONTROLL", JObj [("buy", JStr "Buy")])]);
     ("vi", JObj [("CONTROLL", JObj [("sell", JStr "Ban")])])]
  = Some (hoverBlock "en" "Buy")
  /\ getBestKeyFromFullText defaultMatchStrings "a"
       [("en", JObj [("a", JObj [("toString", JStr "x")])])] = Some "a"
  /\ provideHover (mkConfig defaultMatchStrings defaultLanguages []) "html" "a" 1
       [("en", JObj [("a", JObj [("toString", JStr "x")])])] = None.
Proof.
  split; [|split; reflexivity].
  apply provideHover_shown.
  exists "_translate.CONTROLL.buy", "CONTROLL.buy".
  repeat split; try reflexivity. discriminate.
Defined.

End HoverExamples.

(** ** The definition provider *)

Lemma includes_spec (s p : string) :
  Text.includes s p = true <-> exists pre post, s = (pre ++ p ++ post)%string.
Proof.
  induction s as [|a s IH].
  - cbn [Text.includes]. rewrite orb_false_r. split.
    + intros H. apply startsWith_inv in H. destruct H as [rest H].
      exists "", rest. exact H.
    + intros [pre [post H]]. destruct pre; [|discriminate]. simpl in H.
      rewrite H. apply startsWith_app.
  - cbn [Text.includes]. rewrite orb_true_iff, IH. split.
    + intros [H|[pre [post ->]]].
      * apply startsWith_inv in H. destruct H as [rest H]. exists "", rest. exact H.
      * exists (String a pre), post. reflexivity.
    + intros [pre [post H]]. destruct pre as [|b pre].
      * left. simpl in H. rewrite H. apply startsWith_app.
      * right. simpl in H. injection H as _ ->. eauto.
Qed.

Lemma findIndex_spec {A : Type} (test : A -> bool) (l : list A) (i : nat) :
  Text.findIndex test l = Some i
  <-> exists x, nth_error l i = Some x /\ test x = true
                /\ forall j y, j < i -> nth_error l j = Some y -> test y = false.
Proof.
  revert i. induction l as [|a l IH]; intros i; simpl.
  - split; [discriminate|]. intros [x [H _]]. destruct i; discriminate.
  - destruct (test a) eqn:Ea.
    + split.
      * intros [= <-]. exists a. repeat split; auto. intros j y Hj. lia.
      * intros [x [Hn [Hx Hb]]]. destruct i as [|i]; [reflexivity|].
        rewrite (Hb 0 a) in Ea by (simpl; auto; lia). discriminate.
    + destruct (Text.findIndex test l) as [k|] eqn:Ek.
      * split.
        -- intros [= <-]. destruct (proj1 (IH k) eq_refl) as [x [Hn [Hx Hb]]].
           exists x. repeat split; auto. intros j y Hj Hy.
           destruct j as [|j]; simpl in Hy; [congruence|]. apply (Hb j); auto. lia.
        -- intros [x [Hn [Hx Hb]]]. destruct i as [|i]; simpl in Hn; [congruence|].
           f_equal. assert (Some k = Some i) as [= ->]; [|reflexivity].
           apply IH. exists x. repeat split; auto. intros j y Hj Hy.
           apply (Hb (S j)); auto. lia.
      * split; [discriminate|]. intros [x [Hn [Hx Hb]]].
        destruct i as [|i]; simpl in Hn; [congruence|].
        assert (None = Some i); [|discriminate].
        apply IH. exists x. repeat split; auto. intros j y Hj Hy.
        apply (Hb (S j)); auto. lia.
Qed.

Lemma last_app_nonempty {A : Type} (l1 l2 : list A) (d : A) :
  l2 <> [] -> last (l1 ++ l2) d = last l2 d.
Proof.
  intros H. induction l1 as [|a l1 IH]; simpl; [reflexivity|].
  destruct (l1 ++ l2) eqn:E; [|exact IH].
  apply app_eq_nil in E. destruct E. contradiction.
Qed.

Lemma lastSegment_joined (parent leaf : string) :
  lastSegment (parent ++ "." ++ leaf) = lastSegment leaf.
Proof.
  unfold lastSegment. simpl append. rewrite split_join.
  apply last_app_nonempty. destruct (split_cons "." leaf) as [seg [rest ->]].
  discriminate.
Qed.

(** X11: jump-to-definition looks for the last segment of the key
    only: the line found for a key under any parent is the line found
    for the segment alone, the first line of the file that holds it
    between double quotes, whichever member that line belongs to. *)
Theorem findKeyLine_last_segment (parent leaf text : string) :
  findKeyLine (parent ++ "." ++ leaf) text = findKeyLine leaf text
  /\ ((forall pre post, leaf <> (pre ++ "." ++ post)%string) ->
      forall lineIndex,
        findKeyLine (parent ++ "." ++ leaf) text = Some lineIndex ->
        exists line,
          nth_error (Str.split (ascii_of_nat 10) text) lineIndex = Some line
          /\ (exists pre post, line = (pre ++ quoted leaf ++ post)%string)
          /\ forall j earlier,
               j < lineIndex ->
               nth_error (Str.split (ascii_of_nat 10) text) j = Some earlier ->
               ~ exists pre post, earlier = (pre ++ quoted leaf ++ post)%string).
Proof.
  assert (E : findKeyLine (parent ++ "." ++ leaf) text = findKeyLine leaf text).
  { unfold findKeyLine. now rewrite lastSegment_joined. }
  split; [exact E|]. intros Hdot lineIndex H. rewrite E in H.
  unfold findKeyLine, lastSegment in H.
  rewrite (@split_no_separator "."%char leaf Hdot) in H. simpl last in H.
  apply findIndex_spec in H. destruct H as [line [Hn [Hi Hb]]].
  exists line. split; [exact Hn|]. split; [now apply includes_spec|].
  intros j earlier Hj He Hex. apply includes_spec in Hex.
  rewrite (Hb j earlier Hj He) in Hex. discriminate.
Qed.

Section DefinitionProofs.

Context {realm : Realm}.
Variable resolve : string -> string.
Variable basename : string -> string.

(** X12: every location returned by the definition provider is, for a
    language in which the best key has a value, the file of the first
    configured path whose base name is that language, and in it the
    first line that holds the quoted last segment of the key; the
    locations follow the order of the languages, and the result is
    none rather than an empty list. *)
Theorem provideDefinition_locations (config : Config) (fs : FileSystem)
    (lineText : string) (character : nat) (allJson : list (string * json))
    (results : list Location) :
  provideDefinition resolve basename config fs lineText character allJson = Some results ->
  results <> []
  /\ exists fullText key,
       getFullTextAtPosition lineText character = Some fullText
       /\ getBestKeyFromFullText (matchStrings config) fullText allJson = Some key
       /\ results = flat_map (locateIn resolve basename (paths config) fs key) allJson
       /\ forall loc, In loc results ->
            exists lang (jsonData : json) value filePath text,
              In (lang, jsonData) allJson
              /\ getValueByKey jsonData key = Returned (Some value)
              /\ In filePath (paths config) /\ basename filePath = lang
              /\ pathOfLanguage basename (paths config) lang = Some filePath
              /\ locationFile loc = resolve filePath
              /\ fs (resolve filePath) = Some text
              /\ findKeyLine key text = Some (locationLine loc).
Proof.
  unfold provideDefinition.
  destruct (getFullTextAtPosition lineText character) as [fullText|] eqn:Ef;
    [|discriminate].
  destruct (String.eqb fullText ""); [discriminate|].
  destruct (getBestKeyFromFullText (matchStrings config) fullText allJson)
    as [key|] eqn:Ek; [|discriminate].
  destruct (flat_map (locateIn resolve basename (paths config) fs key) allJson)
    as [|loc0 locs] eqn:Er; [discriminate|].
  intros [= <-]. split; [discriminate|].
  exists fullText, key. repeat split; auto.
  intros loc Hin. rewrite <- Er in Hin. apply in_flat_map in Hin.
  destruct Hin as [[lang jsonData] [Hentry Hloc]]. unfold locateIn in Hloc.
  destruct (getValueByKey jsonData key) as [[value|]|] eqn:Ev; try contradiction.
  destruct (pathOfLanguage basename (paths config) lang) as [filePath|] eqn:Ep;
    [|contradiction].
  destruct (String.eqb filePath ""); [contradiction|].
  destruct (fs (resolve filePath)) as [text|] eqn:Et; [|contradiction].
  destruct (findKeyLine key text) as [lineIndex|] eqn:El; [|contradiction].
  destruct Hloc as [<-|[]].
  unfold pathOfLanguage in Ep. pose proof (find_some _ _ Ep) as [Hp Hb].
  apply String.eqb_eq in Hb.
  exists lang, jsonData, value, filePath, text. repeat split; auto.
Qed.

End DefinitionProofs.

Section DefinitionExamples.

#[local] Existing Instance demoRealm.

(** X11 on a file of three lines. *)
Lemma findKeyLine_last_segment_witness :
  findKeyLine ("CONTROLL" ++ "." ++ "buy") demoSource = findKeyLine "buy" demoSource
  /\ exists line,
       nth_error (Str.split (ascii_of_nat 10) demoSource) 1 = Some line
       /\ (exists pre post, line = (pre ++ quoted "buy" ++ post)%string)
       /\ forall j earlier,
            j < 1 ->
            nth_error (Str.split (ascii_of_nat 10) demoSource) j = Some earlier ->
            ~ exists pre post, earlier = (pre ++ quoted "buy" ++ post)%string.
Proof.
  split.
  - apply (proj1 (findKeyLine_last_segment "CONTROLL" "buy" demoSource)).
  - apply (proj2 (findKeyLine_last_segment "CONTROLL" "buy" demoSource)).
    + intros pre post H.
      destruct pre as [|c1 [|c2 [|c3 [|c4 pre]]]]; simpl in H; discriminate.
    + reflexivity.
Defined.

(** X12 on the same file, configured as the language [en]. *)
Lemma provideDefinition_locations_witness :
  provideDefinition posixResolve posixBasename
    (mkConfig defaultMatchStrings defaultLanguages ["i18n/en.json"]) demoSources
    "{{ _translate.buy }}" 14 [("en", JObj [("buy", JStr "Buy")])]
  = Some [mkLocation "/ws/i18n/en.json" 1]
  /\ [mkLocation "/ws/i18n/en.json" 1] <> [].
Proof.
  split; [reflexivity|].
  apply (@provideDefinition_locations demoRealm posixResolve posixBasename
           (mkConfig defaultMatchStrings defaultLanguages ["i18n/en.json"]) demoSources
           "{{ _translate.buy }}" 14 [("en", JObj [("buy", JStr "Buy")])]).
  reflexivity.
Defined.

End DefinitionExamples.

(** ** The document store, further *)

Section StoreExtras.

Variable resolve : string -> string.
Variable basename : string -> string.
Variable parse : string -> option json.

Lemma reachable_consistent (events : list event) :
  Forall (validEvent resolve basename) events ->
  consistent basename (run resolve basename parse emptyStore events)
  /\ (forall p, In p (tracked (run resolve basename parse emptyStore events))
                <-> In p (currentPaths resolve events [])).
Proof.
  intros Hv. apply run_consistent; auto using consistent_emptyStore.
  simpl. tauto.
Qed.

Lemma keys_nil {A : Type} (m : list (string * A)) : keys m = [] -> m = [].
Proof.
  destruct m; [reflexivity | discriminate].
Qed.

Lemma no_member_nil (l : list string) : (forall x, ~ In x l) -> l = [].
Proof.
  destruct l as [|a l]; [reflexivity|]. intros H. exfalso. apply (H a). simpl; auto.
Qed.

(** X13: in a store reached by configurations that give their paths
    non-empty labels, one path per label, a call of
    [handleJsonCacheAndWatcher] with no path, as made when the
    configuration file is deleted or lists no path, leaves the store
    empty: no tree, no watcher, no recorded label. *)
Theorem configure_nothing_empties (events : list event) (fs : FileSystem) :
  Forall (validEvent resolve basename) events ->
  let s' := step resolve basename parse
              (run resolve basename parse emptyStore events) (Configure fs []) in
  getAllCachedJson s' = [] /\ jsonWatchers s' = [] /\ jsonPathLabels s' = [].
Proof.
  intros Hv. cbv zeta.
  destruct (reachable_consistent Hv) as [Hs _].
  set (s := run resolve basename parse emptyStore events) in *.
  destruct (@handleJsonCacheAndWatcher_spec resolve basename parse fs [] s Hs)
    as [Ht [_ Hs']]; [intros p []|].
  cbn [step]. set (s' := handleJsonCacheAndWatcher resolve basename parse fs [] s) in *.
  assert (Hw : jsonWatchers s' = []).
  { apply keys_nil, no_member_nil. intros p Hp. apply (Ht p), Hp. }
  split; [|split; [exact Hw | reflexivity]].
  unfold getAllCachedJson. apply keys_nil, no_member_nil. intros l Hl.
  destruct (cached_labels_tracked Hs' l Hl) as [p [Hp _]].
  unfold tracked in Hp. rewrite Hw in Hp. exact Hp.
Qed.

Lemma lastWithLabel_unique (configPaths : list string) (p : string) :
  uniqueLabels basename (fullPathsOf resolve configPaths) ->
  In p (fullPathsOf resolve configPaths) ->
  lastWithLabel resolve basename configPaths (basename p) = Some p.
Proof.
  intros Hu Hp. unfold lastWithLabel.
  destruct (find (fun q => String.eqb (basename q) (basename p))
              (rev (fullPathsOf resolve configPaths))) as [q|] eqn:E.
  - apply find_some in E. destruct E as [Hq Hb]. apply String.eqb_eq in Hb.
    f_equal. apply Hu; auto. now apply in_rev.
  - apply in_rev in Hp. pose proof (find_none _ _ E p Hp) as H.
    simpl in H. rewrite String.eqb_refl in H. discriminate.
Qed.

Lemma removedLabel_false (s : Store) (configPaths : list string) (l : string) :
  (forall q, In q (tracked s) -> ~ In q (fullPathsOf resolve configPaths) ->
             basename q <> l) ->
  removedLabel resolve basename s configPaths l = false.
Proof.
  intros H. destruct (removedLabel resolve basename s configPaths l) eqn:E;
    [|reflexivity].
  unfold removedLabel in E. apply existsb_exists in E.
  destruct E as [q [Hq E]]. apply andb_true_iff in E. destruct E as [Hn Hl].
  apply negb_true_iff, has_false in Hn. apply String.eqb_eq in Hl.
  exfalso. apply (H q); auto.
Qed.

Lemma configured_entry (fs : FileSystem) (configPaths : list string) (s : Store)
    (p : string) :
  consistent basename s ->
  validConfig resolve basename configPaths ->
  In p (fullPathsOf resolve configPaths) ->
  removedLabel resolve basename s configPaths (basename p) = false ->
  basename p <> "__proto__" ->
  assoc (basename p)
        (jsonCache (handleJsonCacheAndWatcher resolve basename parse fs configPaths s))
  = Some (loadedDocument parse fs p).
Proof.
  intros Hs [Hne Hu] Hp Hr Hproto.
  destruct (@handleJsonCacheAndWatcher_spec resolve basename parse fs configPaths s
              Hs Hne) as [_ [Hc _]].
  rewrite Hc, Hr, loadAll_assoc, lastWithLabel_unique; auto.
Qed.

(** X14: in a store reached by configurations that give their paths
    non-empty labels, one path per label, after a call of
    [handleJsonCacheAndWatcher] with such a configuration that drops no
    path whose label a configured path has, the document set is the
    configuration: its labels are exactly the labels of the configured
    paths, and the tree of each is the document just loaded from its
    file (the empty object when the load failed).  The label
    [__proto__] is the exception: a plain object cannot hold it, and
    it is never in the document set. *)
Theorem configure_covers_configuration (events : list event) (fs : FileSystem)
    (configPaths : list string) :
  Forall (validEvent resolve basename) events ->
  validConfig resolve basename configPaths ->
  (forall q, In q (currentPaths resolve events []) ->
             ~ In q (fullPathsOf resolve configPaths) ->
             ~ In (basename q) (labelsOf resolve basename configPaths)) ->
  let s' := step resolve basename parse
              (run resolve basename parse emptyStore events)
              (Configure fs configPaths) in
  (forall p, In p (fullPathsOf resolve configPaths) ->
             basename p <> "__proto__" ->
             assoc (basename p) (getAllCachedJson s')
             = Some (loadedDocument parse fs p))
  /\ (forall l, In l (keys (getAllCachedJson s'))
                <-> In l (labelsOf resolve basename configPaths) /\ l <> "__proto__").
Proof.
  intros Hv HP Hdrop. cbv zeta. cbn [step]. unfold getAllCachedJson.
  destruct (reachable_consistent Hv) as [Hs Ht].
  set (s := run resolve basename parse emptyStore events) in *.
  assert (Hentry : forall p, In p (fullPathsOf resolve configPaths) ->
            basename p <> "__proto__" ->
            assoc (basename p)
              (jsonCache (handleJsonCacheAndWatcher resolve basename parse fs configPaths s))
            = Some (loadedDocument parse fs p)).
  { intros p Hp Hproto. apply configured_entry; auto.
    apply removedLabel_false. intros q Hq Hnew Hb.
    apply (Hdrop q); [now apply Ht | exact Hnew |].
    unfold labelsOf. rewrite Hb. now apply in_map. }
  split; [exact Hentry|]. intros l. split.
  - intros Hl.
    destruct (@handleJsonCacheAndWatcher_spec resolve basename parse fs configPaths s
                Hs (proj1 HP)) as [Ht' [Hc Hs']].
    split.
    + destruct (cached_labels_tracked Hs' l Hl) as [p [Hp <-]].
      unfold labelsOf. apply in_map. now apply Ht'.
    + intros ->. apply assoc_keys in Hl. destruct Hl as [v Hv0]. rewrite Hc in Hv0.
      destruct (removedLabel resolve basename s configPaths "__proto__"); [discriminate|].
      assert (Hin : In "__proto__"
                       (keys (loadAll resolve basename parse fs configPaths (jsonCache s))))
        by (apply assoc_keys; eauto).
      apply loadAll_keys in Hin. destruct Hin as [[_ Hin]|Hin]; [congruence|].
      apply (proto_not_cached Hs), Hin.
  - intros [Hl Hproto]. unfold labelsOf in Hl. apply in_map_iff in Hl.
    destruct Hl as [p [<- Hp]]. apply assoc_keys. eauto.
Qed.

(** X15: in a store reached by configurations that give their paths
    non-empty labels, one path per label, when such a configuration
    replaces a path by another with the same label (the same file name
    in another folder), the tree loaded for
    the new path is deleted again by the eviction of the old one: the
    label is missing from the document set although it is configured.
    A second call with the same configuration puts it back (unless the
    label is [__proto__], which a plain object cannot hold). *)
Theorem configure_same_label_lost (events : list event) (fs fs' : FileSystem)
    (configPaths : list string) (old new : string) :
  Forall (validEvent resolve basename) events ->
  validConfig resolve basename configPaths ->
  In old (currentPaths resolve events []) ->
  ~ In old (fullPathsOf resolve configPaths) ->
  In new (fullPathsOf resolve configPaths) ->
  basename new = basename old ->
  let s1 := step resolve basename parse
              (run resolve basename parse emptyStore events)
              (Configure fs configPaths) in
  let s2 := step resolve basename parse s1 (Configure fs' configPaths) in
  assoc (basename new) (getAllCachedJson s1) = None
  /\ (basename new <> "__proto__" ->
      assoc (basename new) (getAllCachedJson s2) = Some (loadedDocument parse fs' new)).
Proof.
  intros Hv HP Hold Hdropped Hnew Hb. cbv zeta. cbn [step]. unfold getAllCachedJson.
  destruct (reachable_consistent Hv) as [Hs Ht].
  set (s := run resolve basename parse emptyStore events) in *.
  destruct (@handleJsonCacheAndWatcher_spec resolve basename parse fs configPaths s
              Hs (proj1 HP)) as [Ht1 [Hc1 Hs1]].
  split.
  - rewrite Hc1.
    assert (removedLabel resolve basename s configPaths (basename new) = true) as ->;
      [|reflexivity].
    unfold removedLabel. apply existsb_exists. exists old. split; [now apply Ht|].
    rewrite Hb, String.eqb_refl, andb_true_r. apply negb_true_iff.
    now apply has_false.
  - intros Hproto. apply configured_entry; auto.
    apply removedLabel_false. intros q Hq Hnot. exfalso. apply Hnot.
    now apply Ht1.
Qed.

(** X16: in a store reached by configurations that give their paths
    non-empty labels, one path per label, an event of a watcher of a
    configured path rewrites the tree of that path's label (a label
    other than [__proto__]) and nothing else: a change or a creation puts
    the document read from the file now (so a file that failed to load
    is recovered by its next change), a deletion puts the empty object;
    the trees of the other labels and the watchers stay. *)
Theorem file_event_reloads_label (events : list event) (p : string) :
  Forall (validEvent resolve basename) events ->
  In p (currentPaths resolve events []) ->
  let s := run resolve basename parse emptyStore events in
  forall e, eventPath e = Some p ->
    let s' := step resolve basename parse s e in
    (basename p <> "__proto__" ->
     assoc (basename p) (getAllCachedJson s')
     = Some (match e with
             | FileChanged fs _ | FileCreated fs _ => loadedDocument parse fs p
             | _ => JObj []
             end))
    /\ (forall l, l <> basename p ->
                  assoc l (getAllCachedJson s') = assoc l (getAllCachedJson s))
    /\ jsonWatchers s' = jsonWatchers s.
Proof.
  intros Hv Hp. cbv zeta. intros e He.
  destruct (reachable_consistent Hv) as [Hs Ht].
  set (s := run resolve basename parse emptyStore events) in *.
  apply Ht in Hp. unfold tracked in Hp. apply assoc_keys in Hp.
  destruct Hp as [w Hw]. destruct (watcher_captures Hs p Hw) as [Hf Hl].
  assert (Hset : forall doc l, l <> basename p ->
            assoc l (assign (basename p) doc (jsonCache s)) = assoc l (jsonCache s)).
  { intros doc l Hne. now apply assoc_assign_other. }
  unfold getAllCachedJson.
  destruct e as [fs P|fs q|fs q|q]; simpl in He; try discriminate;
    injection He as ->; cbn [step]; rewrite Hw, ?Hf, Hl.
  - destruct (loadFile_cache parse fs (watchedRelativePath w) p (basename p) s)
      as [Hc [Hws _]].
    rewrite Hc, Hws. repeat split; auto.
    intros Hproto. now apply assoc_assign_same.
  - destruct (loadFile_cache parse fs (watchedRelativePath w) p (basename p) s)
      as [Hc [Hws _]].
    rewrite Hc, Hws. repeat split; auto.
    intros Hproto. now apply assoc_assign_same.
  - cbn [jsonCache jsonWatchers]. repeat split; auto.
    intros Hproto. now apply assoc_assign_same.
Qed.

(** X17: in a store reached by configurations that give their paths
    non-empty labels, one path per label, once such a configuration has
    dropped a path, the watcher of the path is disposed: no change,
    creation or deletion of the file touches the store any more. *)
Theorem dropped_path_events_ignored (events : list event) (fs : FileSystem)
    (configPaths : list string) (q : string) (e : event) :
  Forall (validEvent resolve basename) events ->
  validConfig resolve basename configPaths ->
  ~ In q (fullPathsOf resolve configPaths) ->
  eventPath e = Some q ->
  let s' := step resolve basename parse
              (run resolve basename parse emptyStore events)
              (Configure fs configPaths) in
  step resolve basename parse s' e = s'.
Proof.
  intros Hv HP Hq He. cbv zeta.
  destruct (reachable_consistent Hv) as [Hs _].
  set (s := run resolve basename parse emptyStore events) in *.
  destruct (@handleJsonCacheAndWatcher_spec resolve basename parse fs configPaths s
              Hs (proj1 HP)) as [Ht' _].
  set (s' := step resolve basename parse s (Configure fs configPaths)) in *.
  assert (Hnone : assoc q (jsonWatchers s') = None).
  { apply assoc_none_keys. intros Hin. apply Hq. now apply Ht'. }
  destruct e as [fs0 P|fs0 p|fs0 p|p]; simpl in He; try discriminate;
    injection He as ->; cbn [step]; now rewrite Hnone.
Qed.

(** X18: in the earlier revision ([src/src/extension.ts]) a call of
    [handleJsonCacheAndWatcher] only adds: the labels of the document
    set afterwards are the labels it had and the labels of the
    configured paths (but for the label [__proto__], which a plain
    object cannot hold), so the label of a path dropped from the
    configuration is never removed. *)
Theorem legacy_never_evicts (fs : FileSystem) (configPaths : list string)
    (s : Store) (l : string) :
  In l (keys (getAllCachedJson
                (legacyHandleJsonCacheAndWatcher resolve basename parse fs configPaths s)))
  <-> (In l (labelsOf resolve basename configPaths) /\ l <> "__proto__")
      \/ In l (keys (getAllCachedJson s)).
Proof.
  unfold legacyHandleJsonCacheAndWatcher, getAllCachedJson.
  destruct (trackPath_fold resolve basename parse fs configPaths (mkPass s [] []))
    as [_ [_ [_ [Hc _]]]].
  rewrite Hc. apply loadAll_keys.
Qed.

End StoreExtras.

(** *** The store on the example workspace *)

Lemma demo_valid_two :
  validConfig posixResolve posixBasename ["i18n/en.json"; "i18n/vi.json"].
Proof.
  split.
  - intros p Hp. vm_compute in Hp. destruct Hp as [<-|[<-|[]]]; discriminate.
  - intros p q Hp Hq. vm_compute in Hp, Hq.
    destruct Hp as [<-|[<-|[]]]; destruct Hq as [<-|[<-|[]]];
      intros E; try reflexivity; discriminate.
Qed.

Lemma demo_valid_one (relativePath : string) :
  posixBasename (posixResolve relativePath) <> "" ->
  validConfig posixResolve posixBasename [relativePath].
Proof.
  intros Hne. split.
  - intros p [<-|[]]. exact Hne.
  - intros p q [<-|[]] [<-|[]] _. reflexivity.
Qed.

Lemma demo_events_valid :
  Forall (validEvent posixResolve posixBasename)
         [Configure demoDisk ["i18n/en.json"; "i18n/vi.json"]].
Proof.
  repeat constructor; apply demo_valid_two.
Qed.

(** X13 after the two languages were configured. *)
Lemma configure_nothing_empties_witness :
  getAllCachedJson
    (step posixResolve posixBasename demoParse
       (run posixResolve posixBasename demoParse emptyStore
          [Configure demoDisk ["i18n/en.json"; "i18n/vi.json"]])
       (Configure demoDisk [])) = [].
Proof.
  apply (@configure_nothing_empties posixResolve posixBasename demoParse
           [Configure demoDisk ["i18n/en.json"; "i18n/vi.json"]] demoDisk).
  apply demo_events_valid.
Defined.

(** X14 for the first configuration of the two languages. *)
Lemma configure_covers_configuration_witness :
  assoc "vi"
    (getAllCachedJson
       (step posixResolve posixBasename demoParse
          (run posixResolve posixBasename demoParse emptyStore [])
          (Configure demoDisk ["i18n/en.json"; "i18n/vi.json"])))
  = Some (loadedDocument demoParse demoDisk "/ws/i18n/vi.json").
Proof.
  apply (proj1 (@configure_covers_configuration posixResolve posixBasename demoParse
                  [] demoDisk ["i18n/en.json"; "i18n/vi.json"]
                  (Forall_nil _) demo_valid_two (fun q (H : In q []) => match H with end))
               "/ws/i18n/vi.json").
  - vm_compute. auto.
  - discriminate.
Defined.

(** X15 when [i18n/en.json] is replaced by [other/en.json]. *)
Lemma configure_same_label_lost_witness :
  assoc "en"
    (getAllCachedJson
       (step posixResolve posixBasename demoParse
          (run posixResolve posixBasename demoParse emptyStore
             [Configure demoDisk ["i18n/en.json"; "i18n/vi.json"]])
          (Configure demoDisk ["other/en.json"]))) = None.
Proof.
  refine (proj1 (@configure_same_label_lost posixResolve posixBasename demoParse
                   [Configure demoDisk ["i18n/en.json"; "i18n/vi.json"]]
                   demoDisk demoDisk ["other/en.json"]
                   "/ws/i18n/en.json" "/ws/other/en.json"
                   demo_events_valid _ _ _ _ _)).
  - apply demo_valid_one. discriminate.
  - vm_compute. auto.
  - vm_compute. intros [H|[]]. discriminate.
  - vm_compute. auto.
  - reflexivity.
Defined.

(** X16 when the file of [vi] is deleted. *)
Lemma file_event_reloads_label_witness :
  assoc "vi"
    (getAllCachedJson
       (step posixResolve posixBasename demoParse
          (run posixResolve posixBasename demoParse emptyStore
             [Configure demoDisk ["i18n/en.json"; "i18n/vi.json"]])
          (FileDeleted "/ws/i18n/vi.json"))) = Some (JObj []).
Proof.
  refine (proj1 (@file_event_reloads_label posixResolve posixBasename demoParse
                   [Configure demoDisk ["i18n/en.json"; "i18n/vi.json"]]
                   "/ws/i18n/vi.json" demo_events_valid _
                   (FileDeleted "/ws/i18n/vi.json") eq_refl) _).
  - vm_compute. auto.
  - discriminate.
Defined.

(** X17 when [vi] is dropped and its file changes afterwards. *)
Lemma dropped_path_events_ignored_witness :
  step posixResolve posixBasename demoParse
    (step posixResolve posixBasename demoParse
       (run posixResolve posixBasename demoParse emptyStore
          [Configure demoDisk ["i18n/en.json"; "i18n/vi.json"]])
       (Configure demoDisk ["i18n/en.json"]))
    (FileChanged demoDisk "/ws/i18n/vi.json")
  = step posixResolve posixBasename demoParse
      (run posixResolve posixBasename demoParse emptyStore
         [Configure demoDisk ["i18n/en.json"; "i18n/vi.json"]])
      (Configure demoDisk ["i18n/en.json"]).
Proof.
  refine (@dropped_path_events_ignored posixResolve posixBasename demoParse
            [Configure demoDisk ["i18n/en.json"; "i18n/vi.json"]] demoDisk
            ["i18n/en.json"] "/ws/i18n/vi.json" (FileChanged demoDisk "/ws/i18n/vi.json")
            demo_events_valid _ _ eq_refl).
  - apply demo_valid_one. discriminate.
  - vm_compute. intros [H|[]]. discriminate.
Defined.

(** ** The configuration file and the store together *)

Section AppProofs.

Variable resolve : string -> string.
Variable basename : string -> string.
Variable parse : string -> option json.
Variable parseConfig : string -> option ParsedConfig.
Variable configPath : string.

Lemma appStep_invariant (app : App) (e : appEvent) :
  consistent basename (documents app) ->
  (forall p, In p (tracked (documents app))
             <-> In p (fullPathsOf resolve (paths (currentConfig app)))) ->
  validAppEvent resolve basename parseConfig configPath e ->
  let app' := appStep resolve basename parse parseConfig configPath app e in
  consistent basename (documents app')
  /\ (forall p, In p (tracked (documents app'))
                <-> In p (fullPathsOf resolve (paths (currentConfig app')))).
Proof.
  intros Hs Ht He. cbv zeta. destruct e as [fs|fs|e]; cbn [appStep].
  - unfold updateConfig. simpl in He. unfold configRead in He.
    destruct (fs configPath) as [content|]; [|auto].
    destruct (parseConfig content) as [parsed|]; [|auto].
    cbn [documents currentConfig paths].
    destruct (@handleJsonCacheAndWatcher_spec resolve basename parse fs
                (orDefault (parsedPaths parsed) []) (documents app) Hs (proj1 He))
      as [Ht' [_ Hs']].
    auto.
  - unfold configDeleted. cbn [documents currentConfig paths defaultConfig].
    destruct (@handleJsonCacheAndWatcher_spec resolve basename parse fs
                [] (documents app) Hs) as [Ht' [_ Hs']]; [intros p []|].
    auto.
  - cbn [documents currentConfig]. simpl in He.
    destruct (@step_file_event resolve basename parse (documents app) e Hs He)
      as [Hs' Ht'].
    split; [exact Hs'|]. intros p. rewrite Ht'. apply Ht.
Qed.

Lemma appRun_invariant (events : list appEvent) (app : App) :
  consistent basename (documents app) ->
  (forall p, In p (tracked (documents app))
             <-> In p (fullPathsOf resolve (paths (currentConfig app)))) ->
  Forall (validAppEvent resolve basename parseConfig configPath) events ->
  let app' := appRun resolve basename parse parseConfig configPath app events in
  consistent basename (documents app')
  /\ (forall p, In p (tracked (documents app'))
                <-> In p (fullPathsOf resolve (paths (currentConfig app')))).
Proof.
  revert app. induction events as [|e events IH]; intros app Hs Ht Hv; cbv zeta.
  - simpl. auto.
  - inversion Hv as [|? ? He Hv']; subst. unfold appRun. cbn [fold_left].
    destruct (@appStep_invariant app e Hs Ht He) as [Hs' Ht'].
    apply IH; auto.
Qed.

Lemma reachable_app (events : list appEvent) :
  Forall (validAppEvent resolve basename parseConfig configPath) events ->
  let app := appRun resolve basename parse parseConfig configPath initialApp events in
  consistent basename (documents app)
  /\ (forall p, In p (tracked (documents app))
                <-> In p (fullPathsOf resolve (paths (currentConfig app)))).
Proof.
  intros Hv. apply appRun_invariant; auto using consistent_emptyStore.
  simpl. tauto.
Qed.

(** X19: whatever happens to the configuration file and to the
    translation files (every configuration that is read having
    non-empty labels, one path per label), the store follows
    [currentConfig]: the watched files are the files of
    [currentConfig.paths], and every label of the document set is the
    label of one of these paths; a configuration file that cannot be
    read or parsed changes neither. *)
Theorem store_follows_currentConfig (events : list appEvent) :
  Forall (validAppEvent resolve basename parseConfig configPath) events ->
  let app := appRun resolve basename parse parseConfig configPath initialApp events in
  (forall p, In p (keys (jsonWatchers (documents app)))
             <-> In p (fullPathsOf resolve (paths (currentConfig app))))
  /\ (forall l, In l (keys (getAllCachedJson (documents app))) ->
        exists relativePath,
          In relativePath (paths (currentConfig app))
          /\ basename (resolve relativePath) = l)
  /\ (forall fs,
        configRead parseConfig configPath fs = None ->
        currentConfig (updateConfig resolve basename parse parseConfig configPath fs app)
        = currentConfig app
        /\ documents (updateConfig resolve basename parse parseConfig configPath fs app)
           = documents app
        /\ configErrors (updateConfig resolve basename parse parseConfig configPath fs app)
           = S (configErrors app)).
Proof.
  intros Hv. cbv zeta. destruct (reachable_app Hv) as [Hs Ht].
  set (app := appRun resolve basename parse parseConfig configPath initialApp events) in *.
  split; [exact Ht|]. split.
  - intros l Hl. destruct (cached_labels_tracked Hs l Hl) as [p [Hp Hb]].
    apply Ht in Hp. unfold fullPathsOf in Hp. apply in_map_iff in Hp.
    destruct Hp as [rel [<- Hrel]]. eauto.
  - intros fs Hread. unfold updateConfig. unfold configRead in Hread.
    destruct (fs configPath) as [content|]; [|auto].
    destruct (parseConfig content); [discriminate | auto].
Qed.

(** X20: after any history in which every configuration that is read
    gives its paths non-empty labels, one path per label, and when the
    base name of every configured path is the base name of its full
    path, the definition provider finds, for every label of the
    document set, a configured path with that base name, and the file
    of that path is a file of the label. *)
Theorem definition_finds_configured_path (events : list appEvent) :
  Forall (validAppEvent resolve basename parseConfig configPath) events ->
  let app := appRun resolve basename parse parseConfig configPath initialApp events in
  (forall relativePath, In relativePath (paths (currentConfig app)) ->
                        basename relativePath = basename (resolve relativePath)) ->
  forall l, In l (keys (getAllCachedJson (documents app))) ->
    exists filePath,
      pathOfLanguage basename (paths (currentConfig app)) l = Some filePath
      /\ In filePath (paths (currentConfig app))
      /\ basename (resolve filePath) = l.
Proof.
  intros Hv. cbv zeta. intros Hbase l Hl. destruct (reachable_app Hv) as [Hs Ht].
  set (app := appRun resolve basename parse parseConfig configPath initialApp events) in *.
  destruct (cached_labels_tracked Hs l Hl) as [p [Hp Hb]].
  apply Ht in Hp. unfold fullPathsOf in Hp. apply in_map_iff in Hp.
  destruct Hp as [rel [<- Hrel]].
  unfold pathOfLanguage.
  destruct (find (fun q => String.eqb (basename q) l) (paths (currentConfig app)))
    as [filePath|] eqn:E.
  - apply find_some in E. destruct E as [Hin Hq]. apply String.eqb_eq in Hq.
    exists filePath. repeat split; auto. now rewrite <- Hbase.
  - pose proof (find_none _ _ E rel Hrel) as H. simpl in H.
    rewrite Hbase, Hb, String.eqb_refl in H by assumption. discriminate.
Qed.

(** X21: after any history in which every configuration that is read
    gives its paths non-empty labels, one path per label, when the
    configuration file is deleted, [currentConfig] is the built-in
    configuration with no path, and the document set, the watchers and
    the recorded labels are empty.  (A path with the empty label, such
    as [/], is outside the condition: its label is never deleted.) *)
Theorem config_deleted_resets (events : list appEvent) (fs : FileSystem) :
  Forall (validAppEvent resolve basename parseConfig configPath) events ->
  let app := appStep resolve basename parse parseConfig configPath
               (appRun resolve basename parse parseConfig configPath initialApp events)
               (ConfigRemoved fs) in
  currentConfig app = defaultConfig
  /\ getAllCachedJson (documents app) = []
  /\ jsonWatchers (documents app) = []
  /\ jsonPathLabels (documents app) = [].
Proof.
  intros Hv. cbv zeta. destruct (reachable_app Hv) as [Hs _].
  set (app := appRun resolve basename parse parseConfig configPath initialApp events) in *.
  cbn [appStep]. unfold configDeleted. cbn [currentConfig documents].
  destruct (@handleJsonCacheAndWatcher_spec resolve basename parse fs [] (documents app) Hs)
    as [Ht [_ Hs']]; [intros p []|].
  set (s' := handleJsonCacheAndWatcher resolve basename parse fs [] (documents app)) in *.
  assert (Hw : jsonWatchers s' = []).
  { apply keys_nil, no_member_nil. intros p Hp. apply (Ht p), Hp. }
  split; [reflexivity|]. split; [|split; [exact Hw | reflexivity]].
  unfold getAllCachedJson. apply keys_nil, no_member_nil. intros l Hl.
  destruct (cached_labels_tracked Hs' l Hl) as [p [Hp _]].
  unfold tracked in Hp. rewrite Hw in Hp. exact Hp.
Qed.

End AppProofs.

(** *** The extension on the example workspace *)

Lemma demo_app_events_valid :
  Forall (validAppEvent posixResolve posixBasename demoParseConfig
            "/ws/.vscode/show-translation.json")
         [ConfigWritten demoWorkspace].
Proof.
  repeat constructor.
  - intros p Hp. vm_compute in Hp. destruct Hp as [<-|[]]. discriminate.
  - intros p q Hp Hq. vm_compute in Hp, Hq.
    destruct Hp as [<-|[]]; destruct Hq as [<-|[]]. reflexivity.
Qed.

(** X19 after the configuration was read, when it then becomes unreadable. *)
Lemma store_follows_currentConfig_witness :
  documents
    (updateConfig posixResolve posixBasename demoParse demoParseConfig
       "/ws/.vscode/show-translation.json" demoBroken
       (appRun posixResolve posixBasename demoParse demoParseConfig
          "/ws/.vscode/show-translation.json" initialApp [ConfigWritten demoWorkspace]))
  = documents
      (appRun posixResolve posixBasename demoParse demoParseConfig
         "/ws/.vscode/show-translation.json" initialApp [ConfigWritten demoWorkspace]).
Proof.
  refine (proj1 (proj2 (proj2 (proj2
            (@store_follows_currentConfig posixResolve posixBasename demoParse
               demoParseConfig "/ws/.vscode/show-translation.json"
               [ConfigWritten demoWorkspace] demo_app_events_valid)) demoBroken _))).
  reflexivity.
Defined.

(** X20 for the label [en] of the example workspace. *)
Lemma definition_finds_configured_path_witness :
  exists filePath,
    pathOfLanguage posixBasename
      (paths (currentConfig
                (appRun posixResolve posixBasename demoParse demoParseConfig
                   "/ws/.vscode/show-translation.json" initialApp
                   [ConfigWritten demoWorkspace]))) "en" = Some filePath
    /\ In filePath
         (paths (currentConfig
                   (appRun posixResolve posixBasename demoParse demoParseConfig
                      "/ws/.vscode/show-translation.json" initialApp
                      [ConfigWritten demoWorkspace])))
    /\ posixBasename (posixResolve filePath) = "en".
Proof.
  apply (@definition_finds_configured_path posixResolve posixBasename demoParse
           demoParseConfig "/ws/.vscode/show-translation.json"
           [ConfigWritten demoWorkspace] demo_app_events_valid).
  - intros rel Hrel. vm_compute in Hrel. destruct Hrel as [<-|[]]. reflexivity.
  - vm_compute. auto.
Defined.

(** X21 after the configuration was read. *)
Lemma config_deleted_resets_witness :
  getAllCachedJson
    (documents
       (appStep posixResolve posixBasename demoParse demoParseConfig
          "/ws/.vscode/show-translation.json"
          (appRun posixResolve posixBasename demoParse demoParseConfig
             "/ws/.vscode/show-translation.json" initialApp [ConfigWritten demoWorkspace])
          (ConfigRemoved demoWorkspace))) = [].
Proof.
  apply (@config_deleted_resets posixResolve posixBasename demoParse demoParseConfig
           "/ws/.vscode/show-translation.json" [ConfigWritten demoWorkspace]
           demoWorkspace demo_app_events_valid).
Defined.

(** ** The earlier revision's key against the current one *)

Lemma stripVariable_dotted (p key : string) :
  stripVariable (p ++ "." ++ key) p = key.
Proof.
  unfold stripVariable. rewrite startsWith_app, slice_app. reflexivity.
Qed.

Lemma legacyKey_untouched (variableNames : list string) (text : string) :
  (forall q, In q variableNames -> Str.startsWith text q = false) ->
  legacyKey variableNames text = text.
Proof.
  unfold legacyKey. induction variableNames as [|v vs IH]; intros H; simpl;
    [reflexivity|].
  unfold stripVariable at 2. rewrite (H v) by (simpl; auto).
  apply IH. intros q Hq. apply H. simpl; auto.
Qed.

Lemma startsWith_recognized (prefix text : string) :
  recognizes prefix text -> Str.startsWith text prefix = true.
Proof.
  intros [->|[rest ->]].
  - rewrite <- (append_empty_r prefix) at 1. apply startsWith_app.
  - apply startsWith_app.
Qed.

(** X22: the key of the earlier revision (every variable name stripped
    in turn from the start of the text, with or without a dot after it)
    is the key of [extractKeyFromFullText] when the text is a
    configured name, a dot and a key, no earlier name starts the text
    and no later name starts the key; but a name followed by something
    else than a dot is stripped by the earlier revision and not
    recognized by the current one. *)
Theorem legacyKey_agrees :
  (forall (before after : list string) (p key : string),
      (forall q, In q before -> Str.startsWith (p ++ "." ++ key) q = false) ->
      (forall q, In q after -> Str.startsWith key q = false) ->
      legacyKey (before ++ p :: after) (p ++ "." ++ key) = key
      /\ extractKeyFromFullText (before ++ p :: after) (p ++ "." ++ key) = Some key)
  /\ (forall (p : string) (c : ascii) (rest : string),
        c <> "."%char ->
        legacyKey [p] (p ++ String c rest) = String c rest
        /\ extractKeyFromFullText [p] (p ++ String c rest) = None).
Proof.
  split.
  - intros before after p key Hb Ha. split.
    + unfold legacyKey. rewrite fold_left_app.
      change (fold_left stripVariable before (p ++ "." ++ key)%string)
        with (legacyKey before (p ++ "." ++ key)).
      rewrite (@legacyKey_untouched before _ Hb).
      cbn [fold_left]. rewrite stripVariable_dotted.
      exact (@legacyKey_untouched after _ Ha).
    + rewrite extractKeyFromFullText_loop by (destruct p; discriminate).
      rewrite firstPrefixKey_first.
      * now rewrite remainder_dotted.
      * intros q Hq Hr. apply startsWith_recognized in Hr.
        rewrite (Hb q Hq) in Hr. discriminate.
      * right. eauto.
  - intros p c rest Hc. split.
    + unfold legacyKey. cbn [fold_left]. unfold stripVariable.
      rewrite startsWith_app, slice_app.
      destruct c as [[] [] [] [] [] [] [] []]; try reflexivity.
      exfalso. apply Hc. reflexivity.
    + unfold extractKeyFromFullText.
      rewrite firstPrefixKey_none; [destruct (String.eqb _ ""); [|destruct (negb _)]; reflexivity|].
      intros q [<-|[]] [H|[r H]].
      * rewrite <- (append_empty_r p) in H at 2. apply append_inv_head in H.
        discriminate.
      * apply append_inv_head in H. simpl in H. injection H as -> _. contradiction.
Qed.

(** X22 on the default variable names. *)
Lemma legacyKey_agrees_witness :
  legacyKey defaultVariableNames "_translate.A.B" = "A.B"
  /\ extractKeyFromFullText defaultVariableNames "_translate.A.B" = Some "A.B".
Proof.
  apply (proj1 legacyKey_agrees ["this._translate"] [] "_translate" "A.B").
  - intros q [<-|[]]. reflexivity.
  - intros q [].
Defined.

(** ** A key written between quotes *)

Lemma charAt_app_l (s1 s2 : string) (i : nat) :
  i < String.length s1 -> Str.charAt (s1 ++ s2) i = Str.charAt s1 i.
Proof.
  intros Hi. unfold Str.charAt. now rewrite <- append_correct1.
Qed.

Lemma charAt_app_r (s1 s2 : string) (i : nat) :
  Str.charAt (s1 ++ s2) (String.length s1 + i) = Str.charAt s2 i.
Proof.
  unfold Str.charAt. now rewrite Nat.add_comm, <- append_correct2.
Qed.

Lemma substring_middle (pre mid rest : string) :
  String.substring (String.length pre) (String.length mid) (pre ++ mid ++ rest) = mid.
Proof.
  induction pre as [|c pre IH]; simpl; [|exact IH].
  induction mid as [|c mid IH]; simpl.
  - destruct rest; reflexivity.
  - now rewrite IH.
Qed.

Lemma isAllowed_char (c : ascii) : isAllowed (String c "") = allowed_char c.
Proof.
  unfold isAllowed. simpl. destruct (allowed_char c); reflexivity.
Qed.

Lemma quote_not_allowed (c : ascii) : quote_char c = true -> allowed_char c = false.
Proof.
  unfold quote_char. intros H. apply orb_true_iff in H.
  destruct H as [H|H]; apply Ascii.eqb_eq in H; subst c; reflexivity.
Qed.

Lemma scanRight_to (lineText : string) (fuel e b : nat) :
  e <= b <= String.length lineText ->
  (forall i, e <= i < b -> isAllowed (Str.charAt lineText i) = true) ->
  b = String.length lineText \/ isAllowed (Str.charAt lineText b) = false ->
  b - e <= fuel ->
  scanRight fuel lineText e = b.
Proof.
  revert e. induction fuel as [|fuel IH]; intros e [Hlo Hhi] Hall Hstop Hfuel.
  - simpl. lia.
  - cbn [scanRight]. destruct (Nat.eq_dec e b) as [->|Hne].
    + destruct Hstop as [->|Hstop].
      * now rewrite Nat.ltb_irrefl.
      * now rewrite Hstop, andb_false_r.
    + assert (Nat.ltb e (String.length lineText) = true) as -> by (apply Nat.ltb_lt; lia).
      rewrite Hall by lia. cbn [andb]. apply IH; try lia; auto.
      intros i Hi. apply Hall. lia.
Qed.

Lemma scanLeft_to (lineText : string) (n a : nat) :
  a <= n ->
  (forall i, a <= i < n -> isAllowed (Str.charAt lineText i) = true) ->
  a = 0 \/ isAllowed (Str.charAt lineText (a - 1)) = false ->
  scanLeft lineText n = a.
Proof.
  induction n as [|n IH]; intros Ha Hall Hstop.
  - simpl. lia.
  - cbn [scanLeft]. destruct (Nat.eq_dec a (S n)) as [->|Hne].
    + destruct Hstop as [H|Hstop]; [discriminate|].
      simpl in Hstop. rewrite Nat.sub_0_r in Hstop. now rewrite Hstop.
    + rewrite Hall by lia. apply IH; try lia; auto.
      intros i Hi. apply Hall. lia.
Qed.

Lemma allowed_no_quote (key : string) :
  (forall i, i < String.length key -> isAllowed (Str.charAt key i) = true) ->
  startsWithQuote key = false /\ endsWithQuote key = false.
Proof.
  induction key as [|c key IH]; intros Hall; [split; reflexivity|].
  assert (Hc : quote_char c = false).
  { destruct (quote_char c) eqn:E; [|reflexivity].
    apply quote_not_allowed in E.
    pose proof (Hall 0 ltac:(simpl; lia)) as H0.
    change (Str.charAt (String c key) 0) with (String c "") in H0.
    rewrite isAllowed_char in H0. congruence. }
  split; [exact Hc|].
  destruct key as [|c' key]; [exact Hc|].
  change (endsWithQuote (String c (String c' key))) with (endsWithQuote (String c' key)).
  apply IH. intros i Hi. apply (Hall (S i)). simpl in *. lia.
Qed.

Section QuotedKey.

Context {realm : Realm}.

(** X23: a key made of characters of the alphabet and written between
    quotes on a line, with no character of the alphabet just before the
    opening quote nor just after the closing one.  With the cursor
    anywhere from the first character of the key to just after the
    closing quote, the span taken at the cursor is the key, with the
    opening quote when the cursor is on the first character and with
    the closing quote when the cursor is after it; the quotes are
    trimmed, and [getBestKeyFromFullText] returns for the span what it
    returns for the key alone. *)
Theorem quoted_key_resolves (matchStrings : list string) (pre key post : string)
    (q q' : ascii) (character : nat) (allJson : list (string * json)) :
  quote_char q = true -> quote_char q' = true ->
  key <> "" ->
  (forall i, i < String.length key -> isAllowed (Str.charAt key i) = true) ->
  pre = "" \/ isAllowed (Str.charAt pre (String.length pre - 1)) = false ->
  isAllowed (Str.charAt post 0) = false ->
  String.length pre + 1 <= character <= String.length pre + String.length key + 2 ->
  exists span,
    getFullTextAtPosition (pre ++ String q (key ++ String q' post)) character = Some span
    /\ (span = String q key \/ span = key \/ span = (key ++ String q' "")%string)
    /\ stripQuotes span = key
    /\ getBestKeyFromFullText matchStrings span allJson
       = getBestKeyFromFullText matchStrings key allJson.
Proof.
  intros Hq Hq' Hne Hkey Hpre Hpost [Hlo Hhi].
  set (lineText := (pre ++ String q (key ++ String q' post))%string).
  set (a := String.length pre). set (k := String.length key).
  assert (Hk : 0 < k).
  { unfold k. destruct key; simpl; [congruence | lia]. }
  assert (Hlen : String.length lineText = a + 1 + k + 1 + String.length post).
  { unfold lineText, a, k. rewrite length_append. simpl. rewrite length_append. simpl. lia. }
  assert (Hat_q : isAllowed (Str.charAt lineText a) = false).
  { unfold lineText, a. rewrite <- (Nat.add_0_r (String.length pre)), charAt_app_r.
    change (Str.charAt (String q (key ++ String q' post)) 0) with (String q "").
    rewrite isAllowed_char. now apply quote_not_allowed. }
  assert (Hat_key : forall i, a + 1 <= i < a + 1 + k ->
            isAllowed (Str.charAt lineText i) = true).
  { intros i Hi. unfold lineText.
    replace i with (String.length pre + S (i - a - 1)) by (unfold a in *; lia).
    rewrite charAt_app_r.
    change (Str.charAt (String q (key ++ String q' post)) (S (i - a - 1)))
      with (Str.charAt (key ++ String q' post) (i - a - 1)).
    rewrite charAt_app_l by (fold k; lia). apply Hkey. fold k. lia. }
  assert (Hat_q' : isAllowed (Str.charAt lineText (a + 1 + k)) = false).
  { unfold lineText.
    replace (a + 1 + k) with (String.length pre + S (String.length key + 0))
      by (unfold a, k; lia).
    rewrite charAt_app_r.
    change (Str.charAt (String q (key ++ String q' post)) (S (String.length key + 0)))
      with (Str.charAt (key ++ String q' post) (String.length key + 0)).
    rewrite charAt_app_r.
    change (Str.charAt (String q' post) 0) with (String q' "").
    rewrite isAllowed_char. now apply quote_not_allowed. }
  assert (Hat_post : a + 1 + k + 1 = String.length lineText
                     \/ isAllowed (Str.charAt lineText (a + 1 + k + 1)) = false).
  { right. unfold lineText.
    replace (a + 1 + k + 1) with (String.length pre + S (String.length key + 1))
      by (unfold a, k; lia).
    rewrite charAt_app_r.
    change (Str.charAt (String q (key ++ String q' post)) (S (String.length key + 1)))
      with (Str.charAt (key ++ String q' post) (String.length key + 1)).
    rewrite charAt_app_r. exact Hpost. }
  assert (Hat_pre : a = 0 \/ isAllowed (Str.charAt lineText (a - 1)) = false).
  { destruct Hpre as [->|Hpre]; [left; reflexivity|].
    destruct (Nat.eq_dec a 0) as [E|E]; [auto|]. right.
    unfold lineText. rewrite charAt_app_l by (fold a; lia). exact Hpre. }
  destruct (allowed_no_quote key Hkey) as [Hstart Hend].
  assert (Hclean : stripQuotes key = key).
  { unfold stripQuotes. rewrite stripLeadingQuote_id by assumption.
    now apply stripTrailingQuote_id. }
  assert (Hsame : forall span, stripQuotes span = key ->
            getBestKeyFromFullText matchStrings span allJson
            = getBestKeyFromFullText matchStrings key allJson).
  { intros span Hs. now rewrite !getBestKeyFromFullText_find, Hs, Hclean. }
  assert (Hsnoc : stripQuotes (key ++ String q' "") = key).
  { unfold stripQuotes. rewrite startsWithQuote_snoc by assumption.
    apply String.eqb_neq in Hne. rewrite Hne. now apply stripTrailingQuote_snoc. }
  assert (Hline : String.eqb lineText "" = false).
  { apply String.eqb_neq. intros E. rewrite E in Hlen. simpl in Hlen. lia. }
  assert (Hspan : forall start end_,
            scanLeft lineText (Nat.pred character) = start ->
            scanRight (String.length lineText) lineText character = end_ ->
            start < end_ ->
            getFullTextAtPosition lineText character
            = Some (String.substring start (end_ - start) lineText)).
  { intros start end_ Hs He Hlt. unfold getFullTextAtPosition.
    rewrite Hline, Hs, He.
    assert (Nat.eqb start end_ = false) as -> by (apply Nat.eqb_neq; lia).
    reflexivity. }
  destruct (Nat.eq_dec character (a + 1)) as [Hfirst|Hnot_first].
  - (* the cursor on the first character of the key *)
    exists (String q key). split; [|split; [auto|split]].
    + rewrite (Hspan a (a + 1 + k)); try lia.
      * replace (a + 1 + k - a) with (String.length (String q key)) by (simpl; fold k; lia).
        f_equal. exact (substring_middle pre (String q key) (String q' post)).
      * subst character. replace (Nat.pred (a + 1)) with a by lia.
        apply scanLeft_to; auto. intros i Hi. lia.
      * apply scanRight_to; try lia; auto.
        intros i Hi. apply Hat_key. lia.
    + unfold stripQuotes. simpl. rewrite Hq. now apply stripTrailingQuote_id.
    + apply Hsame. unfold stripQuotes. simpl. rewrite Hq.
      now apply stripTrailingQuote_id.
  - assert (Hleft : scanLeft lineText (Nat.pred character) = a + 1).
    { apply scanLeft_to; try lia.
      - intros i Hi. apply Hat_key. lia.
      - right. replace (a + 1 - 1) with a by lia. exact Hat_q. }
    destruct (Nat.eq_dec character (a + k + 2)) as [Hlast|Hnot_last].
    + (* the cursor after the closing quote *)
      exists (key ++ String q' "")%string. split; [|split; [auto|split]].
      * rewrite (Hspan (a + 1) (a + k + 2)); try lia; auto.
        -- replace (a + k + 2 - (a + 1)) with (String.length (key ++ String q' ""))
             by (rewrite length_append; simpl; fold k; lia).
           replace (a + 1) with (String.length (pre ++ String q ""))
             by (rewrite length_append; simpl; fold a; lia).
           replace lineText
             with ((pre ++ String q "") ++ (key ++ String q' "") ++ post)%string.
           ++ f_equal. apply substring_middle.
           ++ unfold lineText. rewrite !append_assoc. reflexivity.
        -- subst character. apply scanRight_to; try lia.
           replace (a + k + 2) with (a + 1 + k + 1) by lia.
           destruct Hat_post as [H|H]; auto.
      * exact Hsnoc.
      * apply Hsame. exact Hsnoc.
    + (* the cursor on the key or on the closing quote *)
      exists key. split; [|split; [auto|split; [exact Hclean | now apply Hsame]]].
      rewrite (Hspan (a + 1) (a + 1 + k)); try lia; auto.
      * replace (a + 1 + k - (a + 1)) with (String.length key) by (fold k; lia).
        replace (a + 1) with (String.length (pre ++ String q ""))
          by (rewrite length_append; simpl; fold a; lia).
        replace lineText with ((pre ++ String q "") ++ key ++ String q' post)%string.
        -- f_equal. apply substring_middle.
        -- unfold lineText. rewrite !append_assoc. reflexivity.
      * apply scanRight_to; try lia; auto.
        intros i Hi. apply Hat_key. lia.
Qed.

End QuotedKey.

Section QuotedKeyExamples.

#[local] Existing Instance demoRealm.

(** X23 on a template that pipes the quoted key to the translation
    filter, with the cursor inside the key. *)
Lemma quoted_key_resolves_witness :
  exists span,
    getFullTextAtPosition
      ("{{ " ++ String "'" ("CONTROLL.buy" ++ String "'" " | translate }}")) 8 = Some span
    /\ (span = String "'" "CONTROLL.buy" \/ span = "CONTROLL.buy"
        \/ span = ("CONTROLL.buy" ++ String "'" "")%string)
    /\ stripQuotes span = "CONTROLL.buy"
    /\ getBestKeyFromFullText defaultMatchStrings span
         [("en", JObj [("CONTROLL", JObj [("buy", JStr "Buy")])])]
       = getBestKeyFromFullText defaultMatchStrings "CONTROLL.buy"
           [("en", JObj [("CONTROLL", JObj [("buy", JStr "Buy")])])].
Proof.
  apply (@quoted_key_resolves demoRealm defaultMatchStrings "{{ " "CONTROLL.buy"
           " | translate }}" "'"%char "'"%char 8
           [("en", JObj [("CONTROLL", JObj [("buy", JStr "Buy")])])]).
  - reflexivity.
  - reflexivity.
  - discriminate.
  - intros i Hi. do 12 (destruct i as [|i]; [reflexivity|]). simpl in Hi. lia.
  - right. reflexivity.
  - reflexivity.
  - simpl. lia.
Defined.

End QuotedKeyExamples.
